(** * Replicator: the proxy fetch pipeline, embedded and verified

    A shallow embedding of the JavaScript sources of the website
    replicator:

    - [RateLimiter]      pages/api/utils/rateLimiter.js, class RateLimiter
    - [Url]              the WHATWG URL primitive ([new URL(...)]) used by
                         the handler and by HtmlModifier.resolveUrl
    - [HeaderProcessor]  class HeaderProcessor
    - [HtmlModifier]     class HtmlModifier (cheerio document rewriting)
    - [Proxy]            pages/api/proxy.js, the route handler

    JavaScript strings are modelled as [string]; all inputs considered are
    ASCII, where a byte and a UTF-16 code unit coincide.  JavaScript numbers
    holding integers (counters, millisecond timestamps, status codes) are
    modelled as [Z]. *)

From Stdlib Require Import ZArith String Ascii List Bool Lia DecimalString.
From stdpp Require Import gmap strings list fin_maps.

Local Open Scope Z_scope.
Local Open Scope string_scope.

(** ** JavaScript primitives shared by the modules *)

Module Js.

(** Truthiness of an optional string: [undefined] and [''] are falsy. *)
Definition truthy (o : option string) : bool :=
  match o with
  | Some s => negb (String.eqb s "")
  | None => false
  end.

(** [a || b] on optional strings. *)
Definition or_else (a b : option string) : option string :=
  if truthy a then a else b.

(** [a || d] where [d] is a string literal. *)
Definition or_default (a : option string) (d : string) : string :=
  match a with
  | Some s => if String.eqb s "" then d else s
  | None => d
  end.

(** [n || d] on an optional number: [undefined] and [0] are falsy. *)
Definition num_or (n : option Z) (d : Z) : Z :=
  match n with
  | Some v => if Z.eqb v 0 then d else v
  | None => d
  end.

(** [Math.ceil(x / 1000)] for an integer [x]. *)
Definition ceil_div1000 (x : Z) : Z := - ((- x) / 1000).

(** The double-quote character and the one-character string holding it. *)
Definition dquote : ascii := ascii_of_nat 34.
Definition dq : string := String dquote EmptyString.

Definition chars := list ascii.

Definition code (c : ascii) : nat := nat_of_ascii c.

Definition is_upper (c : ascii) : bool := (65 <=? code c)%nat && (code c <=? 90)%nat.
Definition is_lower (c : ascii) : bool := (97 <=? code c)%nat && (code c <=? 122)%nat.
Definition is_digit (c : ascii) : bool := (48 <=? code c)%nat && (code c <=? 57)%nat.
Definition is_alpha (c : ascii) : bool := is_upper c || is_lower c.

Definition lower (c : ascii) : ascii :=
  if is_upper c then ascii_of_nat (code c + 32) else c.

Definition is_char (a c : ascii) : bool := Ascii.eqb a c.

Definition member (c : ascii) (set : string) : bool :=
  existsb (is_char c) (list_ascii_of_string set).

(** Longest prefix whose characters satisfy [p], and the rest. *)
Fixpoint span (p : ascii -> bool) (l : chars) : chars * chars :=
  match l with
  | [] => ([], [])
  | c :: l' =>
      if p c then let '(a, b) := span p l' in (c :: a, b) else ([], l)
  end.

(** The pieces of [l] between the characters satisfying [sep]. *)
Fixpoint split_on (sep : ascii -> bool) (l : chars) : list chars :=
  match l with
  | [] => [[]]
  | c :: l' =>
      if sep c then [] :: split_on sep l'
      else match split_on sep l' with
           | [] => [[c]]
           | seg :: segs => (c :: seg) :: segs
           end
  end.

Definition to_chars : string -> chars := list_ascii_of_string.
Definition of_chars : chars -> string := string_of_list_ascii.

(** [s.toLowerCase()], on ASCII. *)
Definition toLowerCase (s : string) : string := of_chars (map lower (to_chars s)).

Fixpoint drop_while (p : ascii -> bool) (l : chars) : chars :=
  match l with
  | [] => []
  | c :: l' => if p c then drop_while p l' else l
  end.

(** [s.startsWith(p)]. *)
Fixpoint prefix_of (p l : chars) : bool :=
  match p, l with
  | [], _ => true
  | a :: p', b :: l' => is_char a b && prefix_of p' l'
  | _ :: _, [] => false
  end.

Definition startsWith (s p : string) : bool := prefix_of (to_chars p) (to_chars s).

(** The first occurrence of [pat] in [l]: what precedes it and what
    follows it. *)
Fixpoint find_sub (pat l : chars) : option (chars * chars) :=
  if prefix_of pat l then Some ([], skipn (List.length pat) l)
  else match l with
       | [] => None
       | c :: l' =>
           match find_sub pat l' with
           | Some (before, after) => Some (c :: before, after)
           | None => None
           end
       end.

(** [s.includes(p)]. *)
Definition includes (s p : string) : bool :=
  match find_sub (to_chars p) (to_chars s) with Some _ => true | None => false end.

(** Completion of a computation that may throw. *)
Inductive result (A : Type) : Type :=
| Ok (a : A)
| Throw (error : string).
Arguments Ok {A} a.
Arguments Throw {A} error.

Definition bind {A B} (r : result A) (k : A -> result B) : result B :=
  match r with
  | Ok a => k a
  | Throw e => Throw e
  end.

(** [try { body } catch (e) { handler }]. *)
Definition try_catch {A} (body : result A) (handler : string -> A) : A :=
  match body with
  | Ok a => a
  | Throw e => handler e
  end.

(** [encodeURIComponent(s)], on ASCII. *)
Definition uri_unreserved (c : ascii) : bool :=
  is_alpha c || is_digit c || member c "-_.!~*'()".

(** The replacement text of [String.prototype.replace]
    (GetSubstitution): [$$], [$&], the text before and after the match,
    and [$n], [$nn] for the captures; any other [$] stands for itself. *)
Definition digit_of (c : ascii) : nat := code c - 48.

Definition capture (captures : list chars) (n : nat) : chars :=
  nth (n - 1) captures [].

Fixpoint substitute (tpl matched before after : chars) (captures : list chars)
  : chars :=
  match tpl with
  | [] => []
  | c :: tl =>
      if is_char "$" c then
        match tl with
        | [] => [c]
        | d :: tl' =>
            let one_digit :=
              if (1 <=? digit_of d)%nat && (digit_of d <=? List.length captures)%nat
              then (capture captures (digit_of d)
                      ++ substitute tl' matched before after captures)%list
              else c :: d :: substitute tl' matched before after captures in
            if is_char "$" d then
              d :: substitute tl' matched before after captures
            else if is_char "&" d then
              (matched ++ substitute tl' matched before after captures)%list
            else if is_char "`" d then
              (before ++ substitute tl' matched before after captures)%list
            else if is_char "'" d then
              (after ++ substitute tl' matched before after captures)%list
            else if is_digit d then
              match tl' with
              | d2 :: tl'' =>
                  if is_digit d2 then
                    let nn := (10 * digit_of d + digit_of d2)%nat in
                    if (nn <=? List.length captures)%nat then
                      if (1 <=? nn)%nat
                      then (capture captures nn
                              ++ substitute tl'' matched before after captures)%list
                      else c :: d :: d2
                             :: substitute tl'' matched before after captures
                    else one_digit
                  else one_digit
              | [] => one_digit
              end
            else c :: substitute tl matched before after captures
        end
      else c :: substitute tl matched before after captures
  end.

(** A text with a dollar sign: in a replacement text the dollar sign
    begins a substitution pattern. *)
Definition has_dollar (s : string) : bool := existsb (is_char "$") (to_chars s).

(** [s.replace(pattern, replacement)] with a string pattern: the first
    occurrence only. *)
Definition replace (s pattern replacement : string) : string :=
  match find_sub (to_chars pattern) (to_chars s) with
  | Some (before, after) =>
      of_chars (before
                ++ substitute (to_chars replacement) (to_chars pattern) before after []
                ++ after)%list
  | None => s
  end.

(** The match, in [l], of the regular expression that the handler uses
    for an attribute NAME: the attribute name, an equals sign, a quote, a
    slash, a captured run of characters other than quotes, and a closing
    quote (no [g] flag).  Result: the text before the match, the capture,
    and the text after the match.  The leftmost occurrence of the literal
    prefix that is followed by a closing quote is the first occurrence,
    if any is. *)
Definition match_quoted_path (name : string) (l : chars)
  : option (chars * chars * chars) :=
  match find_sub (to_chars name ++ to_chars "=" ++ [dquote; "/"%char])%list l with
  | Some (before, rest) =>
      let '(group, tail) := span (fun c => negb (is_char dquote c)) rest in
      match tail with
      | _ :: after => Some (before, group, after)
      | [] => None
      end
  | None => None
  end.

(** [s.replace(regex, replacement)] for that regular expression. *)
Definition replace_quoted_path (s name replacement : string) : string :=
  match match_quoted_path name (to_chars s) with
  | Some (before, group, after) =>
      let matched :=
        (to_chars name ++ to_chars "=" ++ [dquote; "/"%char] ++ group ++ [dquote])%list in
      of_chars (before
                ++ substitute (to_chars replacement) matched before after [group]
                ++ after)%list
  | None => s
  end.

(** The number of positions of [l] at which [pat] occurs. *)
Fixpoint count_sub (pat l : chars) : nat :=
  ((if prefix_of pat l then 1 else 0)
   + match l with
     | [] => 0
     | _ :: l' => count_sub pat l'
     end)%nat.

(** [Math.max(0, x)]. *)
Definition max0 (x : Z) : Z := Z.max 0 x.

End Js.

(** ** The URL primitive: [new URL(input)], [new URL(input, base)]

    The handler and the rewriter consume the platform's URL parser.  It is
    modelled here after the WHATWG URL standard's state machine (scheme,
    authority, path, query and fragment states, relative resolution against
    a base, dot-segment removal, percent-encoding of the path, query and
    fragment sets).  Host canonicalisation beyond ASCII lower-casing (IDNA,
    numeric IPv4 forms, IPv6 compression, percent-decoding of hosts), the
    states of the file scheme (it is read as a scheme that is not special)
    and the percent-encoding of credentials are not modelled, and a host
    between brackets is taken as written: the parser is exact on ASCII
    inputs with a scheme other than file whose host is already
    canonical. *)

Module Url.

Import Js.

Definition hex_digit (n : nat) : ascii :=
  if (n <? 10)%nat then ascii_of_nat (48 + n) else ascii_of_nat (55 + n).

Definition percent_encode (in_set : ascii -> bool) (c : ascii) : chars :=
  if in_set c
  then ["%"%char; hex_digit (code c / 16); hex_digit (code c mod 16)]
  else [c].

Definition c0_or_beyond (c : ascii) : bool :=
  (code c <=? 31)%nat || (126 <? code c)%nat.

Definition fragment_set (c : ascii) : bool :=
  c0_or_beyond c || is_char Js.dquote c || member c " <>`".
Definition query_set (special : bool) (c : ascii) : bool :=
  c0_or_beyond c || is_char Js.dquote c || member c " #<>"
  || (special && is_char "'" c).
Definition path_set (c : ascii) : bool :=
  c0_or_beyond c || is_char Js.dquote c || member c " #<>?`{}".

Definition encode (in_set : ascii -> bool) (l : chars) : chars :=
  flat_map (percent_encode in_set) l.

Definition special_schemes : list string := ["http"; "https"; "ws"; "wss"; "ftp"].

Definition is_special (scheme : string) : bool :=
  existsb (String.eqb scheme) special_schemes.

Definition default_port (scheme : string) : string :=
  if String.eqb scheme "http" then "80"
  else if String.eqb scheme "https" then "443"
  else if String.eqb scheme "ws" then "80"
  else if String.eqb scheme "wss" then "443"
  else if String.eqb scheme "ftp" then "21"
  else "".

(** A URL record.  [path] is the list of path segments of a hierarchical
    URL; an opaque path (as in [javascript:alert(1)]) is kept whole in
    [opaque]. *)
Record t := {
  scheme : string;
  username : string;
  password : string;
  host : option string;      (* [None] is the null host *)
  port : string;             (* [""] when absent or the default *)
  path : list string;
  opaque : option string;
  query : option string;
  fragment : option string
}.

(** The getters of the URL class. *)
Definition protocol (u : t) : string := scheme u ++ ":".
Definition hostname (u : t) : string := default "" (host u).
Definition host_port (u : t) : string :=
  if String.eqb (port u) "" then hostname u else hostname u ++ ":" ++ port u.
Definition pathname (u : t) : string :=
  match opaque u with
  | Some p => p
  | None => String.concat "" (map (fun seg => "/" ++ seg) (path u))
  end.
Definition search (u : t) : string :=
  match query u with
  | Some q => if String.eqb q "" then "" else "?" ++ q
  | None => ""
  end.
Definition hash (u : t) : string :=
  match fragment u with
  | Some f => if String.eqb f "" then "" else "#" ++ f
  | None => ""
  end.
Definition origin (u : t) : string :=
  if is_special (scheme u) then protocol u ++ "//" ++ host_port u else "null".

Definition credentials (u : t) : string :=
  if String.eqb (username u) "" && String.eqb (password u) "" then ""
  else username u
       ++ (if String.eqb (password u) "" then "" else ":" ++ password u)
       ++ "@".

(** The URL serializer, [url.href]. *)
Definition href (u : t) : string :=
  protocol u
  ++ match host u with
     | Some _ => "//" ++ credentials u ++ host_port u
     | None =>
         match opaque u, path u with
         | None, "" :: _ :: _ => "/."
         | _, _ => ""
         end
     end
  ++ pathname u
  ++ match query u with Some q => "?" ++ q | None => "" end
  ++ match fragment u with Some f => "#" ++ f | None => "" end.

(** *** The parser *)

Definition is_c0_or_space (c : ascii) : bool := (code c <=? 32)%nat.
Definition is_tab_or_newline (c : ascii) : bool :=
  (code c =? 9)%nat || (code c =? 10)%nat || (code c =? 13)%nat.

(** Leading and trailing C0 controls and spaces are stripped, tabs and
    newlines are removed. *)
Definition clean (input : string) : chars :=
  List.filter (fun c => negb (is_tab_or_newline c))
    (rev (drop_while is_c0_or_space (rev (drop_while is_c0_or_space (to_chars input))))).

Definition is_scheme_char (c : ascii) : bool :=
  is_alpha c || is_digit c || member c "+-.".

(** Scheme start and scheme states: [Some (scheme, rest)] when the input
    begins with a scheme followed by a colon. *)
Definition split_scheme (l : chars) : option (string * chars) :=
  match l with
  | c :: _ =>
      if is_alpha c then
        let '(s, rest) := span is_scheme_char l in
        match rest with
        | c' :: rest' =>
            if is_char ":" c' then Some (of_chars (map lower s), rest') else None
        | [] => None
        end
      else None
  | [] => None
  end.

Definition is_slash (special : bool) (c : ascii) : bool :=
  is_char "/" c || (special && is_char "\" c).

(** [l] up to the first character satisfying [p], and what follows it. *)
Definition cut (p : ascii -> bool) (l : chars) : chars * option chars :=
  let '(a, b) := span (fun c => negb (p c)) l in
  (a, match b with [] => None | _ :: b' => Some b' end).

(** Splits [body ? query # fragment]; query and fragment are
    percent-encoded with their sets. *)
Definition parse_tail (special : bool) (l : chars)
  : chars * option string * option string :=
  let '(pre, frag) := cut (is_char "#") l in
  let '(body, q) := cut (is_char "?") pre in
  (body,
   option_map (fun q => of_chars (encode (query_set special) q)) q,
   option_map (fun f => of_chars (encode fragment_set f)) frag).

Definition is_single_dot (seg : string) : bool :=
  let s := toLowerCase seg in String.eqb s "." || String.eqb s "%2e".

Definition is_double_dot (seg : string) : bool :=
  let s := toLowerCase seg in
  String.eqb s ".." || String.eqb s ".%2e" || String.eqb s "%2e."
  || String.eqb s "%2e%2e".

Definition shorten (path : list string) : list string := removelast path.

(** The path state, run over the segments of the remaining input; the
    last segment is the one ended by the end of the input. *)
Fixpoint path_state (segs : list chars) (path : list string) : list string :=
  match segs with
  | [] => path
  | seg :: rest =>
      let buf := of_chars (encode path_set seg) in
      let last := match rest with [] => true | _ => false end in
      let path' :=
        if is_double_dot buf then
          (if last then (shorten path ++ [""])%list else shorten path)
        else if is_single_dot buf then
          (if last then (path ++ [""])%list else path)
        else (path ++ [buf])%list in
      path_state rest path'
  end.

(** The path of a hierarchical URL whose remaining input is [body]
    (empty, or beginning with a slash). *)
Definition path_of_body (special : bool) (body : chars) : list string :=
  match body with
  | [] => if special then [""] else []
  | _ :: body' => path_state (split_on (is_slash special) body') []
  end.

Definition forbidden_host (c : ascii) : bool :=
  (code c =? 0)%nat || is_tab_or_newline c || member c " #/:<>?@[\]^|".
Definition forbidden_domain (c : ascii) : bool :=
  forbidden_host c || (code c <=? 31)%nat || is_char "%" c || (code c =? 127)%nat.

Definition parse_host (special : bool) (h : chars) : option string :=
  match h with
  | [] => if special then None else Some ""
  | c :: _ =>
      if is_char "[" c then
        match rev h with
        | c' :: _ => if is_char "]" c' then Some (of_chars (map lower h)) else None
        | [] => None
        end
      else if special then
        if existsb forbidden_domain h then None else Some (of_chars (map lower h))
      else
        if existsb forbidden_host h then None
        else Some (of_chars (encode c0_or_beyond h))
  end.

Definition digit_value (c : ascii) : N := N.of_nat (code c - 48).

Definition parse_port (scheme : string) (p : chars) : option string :=
  if forallb is_digit p then
    let v := fold_left (fun acc c => (acc * 10 + digit_value c)%N) p 0%N in
    if (65535 <? v)%N then None
    else
      let digits :=
        match p with
        | [] => ""
        | _ => match drop_while (is_char "0") p with
               | [] => "0"
               | d => of_chars d
               end
        end in
      Some (if String.eqb digits (default_port scheme) then "" else digits)
  else None.

(** Host and port of an authority: the port starts at the first colon
    outside brackets. *)
Definition split_host_port (hp : chars) : chars * option chars :=
  match hp with
  | c :: _ =>
      if is_char "[" c then
        let '(inside, rest) := span (fun c => negb (is_char "]" c)) hp in
        match rest with
        | br :: rest' =>
            ((inside ++ [br])%list,
             match rest' with
             | c' :: p => if is_char ":" c' then Some p else Some (c' :: p)
             | [] => None
             end)
        | [] => (hp, None)
        end
      else cut (is_char ":") hp
  | [] => ([], None)
  end.

(** Position of the last [@] of the authority, if any: credentials
    before it, host and port after it. *)
Definition split_credentials (auth : chars) : option chars * chars :=
  let '(after_rev, before_rev) := cut (is_char "@") (rev auth) in
  match before_rev with
  | Some b => (Some (rev b), rev after_rev)
  | None => (None, auth)
  end.

Definition parse_authority (scheme : string) (auth : chars)
  : option (string * string * string * string) :=
  let special := is_special scheme in
  let '(creds, hp) := split_credentials auth in
  let '(user, pass) :=
    match creds with
    | Some c =>
        let '(u, p) := cut (is_char ":") c in
        (of_chars u, of_chars (default [] p))
    | None => ("", "")
    end in
  let '(h, p) := split_host_port hp in
  match creds, h with
  | Some _, [] => None
  | _, _ =>
      h' ← parse_host special h;
      p' ← parse_port scheme (default [] p);
      Some (user, pass, h', p')
  end.

(** The authority state and what follows it; [rest] is the input after
    the slashes that introduce the authority. *)
Definition with_authority (scheme : string) (rest : chars) : option t :=
  let special := is_special scheme in
  let '(auth, after) :=
    span (fun c => negb (is_slash special c || is_char "?" c || is_char "#" c)) rest in
  '(user, pass, h, p) ← parse_authority scheme auth;
  let '(body, q, f) := parse_tail special after in
  Some {| scheme := scheme; username := user; password := pass;
          host := Some h; port := p;
          path := path_of_body special body; opaque := None;
          query := q; fragment := f |}.

(** The relative state: the input has no scheme of its own and is
    resolved against the hierarchical base [b]. *)
Definition relative_state (l : chars) (b : t) : option t :=
  let special := is_special (scheme b) in
  let authority_follows :=
    match l with
    | c1 :: c2 :: _ =>
        is_slash special c1 && (if special then is_slash special c2 else is_char "/" c2)
    | _ => false
    end in
  if authority_follows then
    with_authority (scheme b)
      (if special then drop_while (is_slash special) l else skipn 2 l)
  else
    let '(body, q, f) := parse_tail special l in
    match body with
    | [] =>
        Some {| scheme := scheme b; username := username b; password := password b;
                host := host b; port := port b; path := path b; opaque := None;
                query := match q with Some _ => q | None => query b end;
                fragment := f |}
    | c :: body' =>
        Some {| scheme := scheme b; username := username b; password := password b;
                host := host b; port := port b;
                path := if is_slash special c
                        then path_state (split_on (is_slash special) body') []
                        else path_state (split_on (is_slash special) body)
                                        (shorten (path b));
                opaque := None; query := q; fragment := f |}
    end.

Definition starts_with_two_slashes (l : chars) : bool :=
  match l with
  | c1 :: c2 :: _ => is_char "/" c1 && is_char "/" c2
  | _ => false
  end.

Definition parse_chars (l : chars) (base : option t) : option t :=
  match split_scheme l with
  | Some (sch, rest) =>
      if is_special sch then
        match base with
        | Some b =>
            if String.eqb (scheme b) sch && negb (starts_with_two_slashes rest)
            then relative_state rest b
            else with_authority sch (drop_while (is_slash true) rest)
        | None => with_authority sch (drop_while (is_slash true) rest)
        end
      else if starts_with_two_slashes rest then with_authority sch (skipn 2 rest)
      else
        let '(body, q, f) := parse_tail false rest in
        match body with
        | c :: body' =>
            if is_char "/" c then
              Some {| scheme := sch; username := ""; password := ""; host := None;
                      port := ""; path := path_state (split_on (is_slash false) body') [];
                      opaque := None; query := q; fragment := f |}
            else
              Some {| scheme := sch; username := ""; password := ""; host := None;
                      port := ""; path := [];
                      opaque := Some (of_chars (encode c0_or_beyond body));
                      query := q; fragment := f |}
        | [] =>
            Some {| scheme := sch; username := ""; password := ""; host := None;
                    port := ""; path := []; opaque := Some "";
                    query := q; fragment := f |}
        end
  | None =>
      match base with
      | None => None
      | Some b =>
          match opaque b with
          | Some _ =>
              match l with
              | c :: f =>
                  if is_char "#" c then
                    Some {| scheme := scheme b; username := username b;
                            password := password b; host := host b; port := port b;
                            path := path b; opaque := opaque b; query := query b;
                            fragment := Some (of_chars (encode fragment_set f)) |}
                  else None
              | [] => None
              end
          | None => relative_state l b
          end
      end
  end.

(** [new URL(input)]: [None] stands for the TypeError the constructor
    throws. *)
Definition parse (input : string) : option t := parse_chars (clean input) None.

(** [new URL(input, base)]. *)
Definition parse_with_base (input base : string) : option t :=
  b ← parse base; parse_chars (clean input) (Some b).

End Url.

(** ** class HtmlModifier

    The rewriter works on the document that cheerio builds from the markup
    and serializes it back at the end.  The document is modelled as a tree;
    the parser ([cheerio.load]) and the serializer ([$.html()]) are the
    collaborators of the class and are parameters of [modifyHtml]. *)

Module HtmlModifier.
Import Js.

Inductive node :=
| Text (data : string)
| Comment (data : string)
| Element (tag : string) (attrs : list (string * string)) (children : list node).

(** The children of [$.root()]. *)
Definition document := list node.

(** [$elem.attr(name)]. *)
Fixpoint attr_get (attrs : list (string * string)) (name : string) : option string :=
  match attrs with
  | [] => None
  | (n, v) :: attrs' => if String.eqb n name then Some v else attr_get attrs' name
  end.

(** [$elem.attr(name, value)]. *)
Fixpoint attr_set (attrs : list (string * string)) (name value : string)
  : list (string * string) :=
  match attrs with
  | [] => [(name, value)]
  | (n, v) :: attrs' =>
      if String.eqb n name then (n, value) :: attrs'
      else (n, v) :: attr_set attrs' name value
  end.

(** [$(tag).length]: the elements named [tag], at any depth. *)
Fixpoint count_tag (tag : string) (n : node) : nat :=
  match n with
  | Element t _ children =>
      ((if String.eqb t tag then 1 else 0)
       + list_sum (map (count_tag tag) children))%nat
  | _ => 0%nat
  end.

Definition length_of (tag : string) (doc : document) : nat :=
  list_sum (map (count_tag tag) doc).

(** [$(tag).append(new)]: [new] becomes the last children of every
    element named [tag]. *)
Fixpoint append_to (tag : string) (new : list node) (n : node) : node :=
  match n with
  | Element t attrs children =>
      let children' := map (append_to tag new) children in
      Element t attrs (if String.eqb t tag then (children' ++ new)%list else children')
  | _ => n
  end.

(** [$(tag).prepend(new)]. *)
Fixpoint prepend_to (tag : string) (new : list node) (n : node) : node :=
  match n with
  | Element t attrs children =>
      let children' := map (prepend_to tag new) children in
      Element t attrs (if String.eqb t tag then (new ++ children')%list else children')
  | _ => n
  end.

(** [$(selector).each(...)] with a callback that only writes attributes
    of the element it is given: [f tag attrs] is the attribute list the
    callback leaves on an element. *)
Fixpoint map_elements (f : string -> list (string * string) -> list (string * string))
    (n : node) : node :=
  match n with
  | Element t attrs children => Element t (f t attrs) (map (map_elements f) children)
  | _ => n
  end.

(** [$(tag).each(...)] with a callback that replaces the content of the
    element. *)
Fixpoint map_content (tag : string) (g : list node -> list node) (n : node) : node :=
  match n with
  | Element t attrs children =>
      let children' := map (map_content tag g) children in
      Element t attrs (if String.eqb t tag then g children' else children')
  | _ => n
  end.

(** *** The helpers *)

Definition isAbsoluteUrl (url : string) : bool :=
  (startsWith url "http://" || startsWith url "https://") || startsWith url "//".

Definition isDataUri (url : string) : bool := startsWith url "data:".

(** [pathname.endsWith('/') ? pathname
      : pathname.substring(0, pathname.lastIndexOf('/') + 1)]:
    both branches keep the path up to and including its last slash. *)
Definition currentPath (pathname : string) : string :=
  of_chars (rev (drop_while (fun c => negb (is_char "/" c)) (rev (to_chars pathname)))).

Definition resolveUrl (relativeUrl baseUrl : string) (parsedUrl : Url.t) : string :=
  if startsWith relativeUrl "//" then Url.protocol parsedUrl ++ relativeUrl
  else if startsWith relativeUrl "/" then baseUrl ++ relativeUrl
  else
    match Url.parse_with_base relativeUrl
            (baseUrl ++ currentPath (Url.pathname parsedUrl)) with
    | Some u => Url.href u
    | None => relativeUrl            (* the catch: the original *)
    end.

(** White space as [trim] and the class [\s] see it, on ASCII. *)
Definition is_space (c : ascii) : bool :=
  ((9 <=? code c)%nat && (code c <=? 13)%nat) || (code c =? 32)%nat.

Definition trim (l : chars) : chars :=
  rev (drop_while is_space (rev (drop_while is_space l))).

(** [src.split(/\s+/)]: the pieces between runs of white space. *)
Fixpoint split_spaces (l : chars) : list chars :=
  match l with
  | [] => [[]]
  | c :: l' =>
      if is_space c then
        match l' with
        | c' :: _ => if is_space c' then split_spaces l' else [] :: split_spaces l'
        | [] => [[]; []]
        end
      else match split_spaces l' with
           | [] => [[c]]
           | piece :: pieces => (c :: piece) :: pieces
           end
  end.

Definition join (sep : string) (parts : list string) : string :=
  String.concat sep parts.

Definition fixSrcset (srcset baseUrl : string) (parsedUrl : Url.t) : string :=
  join ", "
    (map (fun src =>
            let parts := map of_chars (split_spaces (trim src)) in
            let parts :=
              match parts with
              | first :: others =>
                  if negb (isAbsoluteUrl first) && negb (isDataUri first)
                  then resolveUrl first baseUrl parsedUrl :: others
                  else parts
              | [] => parts
              end in
            join " " parts)
         (split_on (is_char ",") (to_chars srcset))).

(** One match of the regular expression of [fixCssUrls] at the head of
    [l]: [url(], an optional quote, one or more characters other than
    quotes and the closing parenthesis, an optional quote, [)].  Result:
    the capture and the length of the match. *)
Definition is_quote (c : ascii) : bool := is_char "'" c || is_char dquote c.

Definition match_css_url (l : chars) : option (chars * nat) :=
  if prefix_of (to_chars "url(") l then
    let rest := skipn 4 l in
    let '(q1, rest) :=
      match rest with
      | c :: rest' => if is_quote c then (1, rest') else (0, rest)
      | [] => (0, rest)
      end%nat in
    let '(url, rest) := span (fun c => negb (is_quote c || is_char ")" c)) rest in
    match url with
    | [] => None
    | _ =>
        let '(q2, rest) :=
          match rest with
          | c :: rest' => if is_quote c then (1, rest') else (0, rest)
          | [] => (0, rest)
          end%nat in
        match rest with
        | c :: _ =>
            if is_char ")" c then Some (url, 4 + q1 + List.length url + q2 + 1)%nat
            else None
        | [] => None
        end
    end
  else None.

(** The global replacement, one character at a time.  After a match the
    scan passes over the rest of the matched text: [Drop] when the callback
    returned a new text, [Copy] when it returned the match itself. *)
Inductive css_mode :=
| Scan
| Drop (rest : nat)
| Copy (rest : nat).

Fixpoint css_scan (baseUrl : string) (parsedUrl : Url.t) (mode : css_mode) (l : chars)
  : chars :=
  match l with
  | [] => []
  | c :: l' =>
      match mode with
      | Drop (S k) => css_scan baseUrl parsedUrl (Drop k) l'
      | Copy (S k) => c :: css_scan baseUrl parsedUrl (Copy k) l'
      | _ =>
          match match_css_url l with
          | Some (url, len) =>
              let url := of_chars url in
              if negb (isAbsoluteUrl url) && negb (isDataUri url) then
                (to_chars ("url('" ++ resolveUrl url baseUrl parsedUrl ++ "')")
                 ++ css_scan baseUrl parsedUrl (Drop (len - 1)) l')%list
              else c :: css_scan baseUrl parsedUrl (Copy (len - 1)) l'
          | None => c :: css_scan baseUrl parsedUrl Scan l'
          end
      end
  end.

Definition fixCssUrls (css baseUrl : string) (parsedUrl : Url.t) : string :=
  of_chars (css_scan baseUrl parsedUrl Scan (to_chars css)).

(** *** injectWidget *)

(** The nodes cheerio builds from the markup of [widgetScript]. *)
Definition widgetScript : list node :=
  [Element "script" [("src", "/widget.js"); ("data-injected", "true")] []].

Definition navigation_code : string := "
        (function() {
          // Override link clicks to stay within proxy
          document.addEventListener('click', function(e) {
            const link = e.target.closest('a');
            if (link && link.href && !link.href.startsWith('javascript:')) {
              e.preventDefault();
              const targetUrl = link.href;
              const proxyUrl = '/api/proxy?url=' + encodeURIComponent(targetUrl);
              window.location.href = proxyUrl;
            }
          });

          // Override form submissions
          document.addEventListener('submit', function(e) {
            const form = e.target;
            if (form && form.action) {
              e.preventDefault();
              console.warn('Form submission through proxy is limited');
            }
          });
        })();
      ".

(** The nodes cheerio builds from the markup of [navigationHandler]: the
    script between the white space of the template. *)
Definition navigationHandler : list node :=
  [ Text "
      ";
    Element "script" [("data-proxy-navigation", "true")] [Text navigation_code];
    Text "
    " ].

Definition injectWidget (doc : document) : document :=
  let doc :=
    if (0 <? length_of "body" doc)%nat then map (append_to "body" widgetScript) doc
    else if (0 <? length_of "html" doc)%nat then map (append_to "html" widgetScript) doc
    else (doc ++ widgetScript)%list in
  map (append_to "body" navigationHandler) doc.

(** *** fixUrls *)

Definition urlAttributes : list (string * list string) :=
  [ ("href", ["a"; "link"; "area"; "base"]);
    ("src", ["img"; "script"; "iframe"; "frame"; "embed"; "source"; "input";
             "audio"; "video"; "track"]);
    ("action", ["form"]);
    ("data", ["object"]);
    ("srcset", ["img"; "source"]);
    ("poster", ["video"]) ].

(** The callback of the table loop, on the attribute [attr] of one
    element. *)
Definition fix_attr (baseUrl : string) (parsedUrl : Url.t) (attr : string)
    (attrs : list (string * string)) : list (string * string) :=
  match attr_get attrs attr with
  | Some value =>
      if negb (String.eqb value "") && negb (isDataUri value)
         && negb (isAbsoluteUrl value)
      then attr_set attrs attr
             (if String.eqb attr "srcset"
              then fixSrcset value baseUrl parsedUrl
              else resolveUrl value baseUrl parsedUrl)
      else attrs
  | None => attrs
  end.

(** [$(tag[attr]).each(...)] for one attribute and one tag. *)
Definition fix_tag_attr (baseUrl : string) (parsedUrl : Url.t) (attr tag : string)
    (doc : document) : document :=
  map (map_elements (fun t attrs =>
         if String.eqb t tag then fix_attr baseUrl parsedUrl attr attrs else attrs))
      doc.

(** The table loop: [Object.entries(urlAttributes).forEach], with
    [tags.forEach] inside. *)
Definition fix_table (baseUrl : string) (parsedUrl : Url.t) (doc : document)
  : document :=
  fold_left
    (fun doc '(attr, tags) =>
       fold_left (fun doc tag => fix_tag_attr baseUrl parsedUrl attr tag doc) tags doc)
    urlAttributes doc.

(** [$('[style]').each(...)]. *)
Definition fix_style_attrs (baseUrl : string) (parsedUrl : Url.t) (doc : document)
  : document :=
  map (map_elements (fun _ attrs =>
         match attr_get attrs "style" with
         | Some style =>
             if String.eqb style "" then attrs
             else attr_set attrs "style" (fixCssUrls style baseUrl parsedUrl)
         | None => attrs
         end))
      doc.

(** [$('style').each(...)]: the content of a style element is read as
    markup and written back as raw text. *)
Definition fix_style_elements (html_of : document -> string) (baseUrl : string)
    (parsedUrl : Url.t) (doc : document) : document :=
  map (map_content "style" (fun children =>
         let css := html_of children in
         if String.eqb css "" then children
         else [Text (fixCssUrls css baseUrl parsedUrl)]))
      doc.

Definition fixUrls (html_of : document -> string) (baseUrl : string)
    (parsedUrl : Url.t) (doc : document) : document :=
  fix_style_elements html_of baseUrl parsedUrl
    (fix_style_attrs baseUrl parsedUrl (fix_table baseUrl parsedUrl doc)).

(** *** addBaseTag *)

(** [addBaseTag] writes the target into the markup of a base tag, between
    double quotes, and cheerio parses that markup.  The tokenizer takes a
    character of a double-quoted attribute value as it stands unless it is
    the double quote, which ends the value, the ampersand, which begins a
    character reference, the NUL character, which is replaced, or the
    carriage return, which is normalised. *)
Definition literal_in_attribute (c : ascii) : bool :=
  negb (is_char dquote c || is_char "&" c
        || (code c =? 0)%nat || (code c =? 13)%nat).

Definition attribute_safe (value : string) : bool :=
  forallb literal_in_attribute (to_chars value).

(** The node cheerio builds from the base tag's markup, for a target that
    is [attribute_safe]: one base element whose href is the target.  (For
    another target the markup can hold other attributes and further
    elements.) *)
Definition base_tag (targetUrl : string) : list node :=
  [Element "base" [("href", targetUrl)] []].

Definition addBaseTag (targetUrl : string) (doc : document) : document :=
  if (length_of "base" doc =? 0)%nat
  then map (prepend_to "head" (base_tag targetUrl)) doc
  else doc.

(** *** modifyForms *)

(** The callback of [$('form').each]: [Throw] when [new URL(targetUrl)]
    throws. *)
Definition modify_form (targetUrl : string) (attrs : list (string * string))
  : result (list (string * string)) :=
  let attrs := attr_set attrs "data-proxied" "true" in
  match attr_get attrs "action" with
  | Some action =>
      if negb (String.eqb action "") && negb (isAbsoluteUrl action) then
        match Url.parse targetUrl with
        | Some parsedUrl =>
            Ok (attr_set attrs "action"
                  (resolveUrl action
                     (Url.protocol parsedUrl ++ "//" ++ Url.host_port parsedUrl)
                     parsedUrl))
        | None => Throw "TypeError: Invalid URL"
        end
      else Ok attrs
  | None => Ok attrs
  end.

Fixpoint collect {A} (l : list (result A)) : result (list A) :=
  match l with
  | [] => Ok []
  | r :: l' => bind r (fun a => bind (collect l') (fun l'' => Ok (a :: l'')))
  end.

Fixpoint modify_forms_in (targetUrl : string) (n : node) : result node :=
  match n with
  | Element t attrs children =>
      bind (if String.eqb t "form" then modify_form targetUrl attrs else Ok attrs)
        (fun attrs' =>
           bind (collect (map (modify_forms_in targetUrl) children))
             (fun children' => Ok (Element t attrs' children')))
  | _ => Ok n
  end.

Definition modifyForms (targetUrl : string) (doc : document) : result document :=
  collect (map (modify_forms_in targetUrl) doc).

(** *** Observations on documents *)

(** The injected script is recognised by its marker attribute. *)
Definition is_injected (tag : string) (attrs : list (string * string)) : bool :=
  String.eqb tag "script"
  && match attr_get attrs "data-injected" with
     | Some v => String.eqb v "true"
     | None => false
     end.

Fixpoint count_injected_in (n : node) : nat :=
  match n with
  | Element t attrs children =>
      ((if is_injected t attrs then 1 else 0)
       + list_sum (map count_injected_in children))%nat
  | _ => 0%nat
  end.

(** The number of injected script tags of a document. *)
Definition count_injected (doc : document) : nat :=
  list_sum (map count_injected_in doc).

(** The content of a style element is raw text for the parser: in the
    tree of a parsed document a style element holds no element. *)
Definition is_text (n : node) : bool :=
  match n with
  | Element _ _ _ => false
  | _ => true
  end.

Fixpoint style_holds_text_in (n : node) : bool :=
  match n with
  | Element t _ children =>
      (if String.eqb t "style" then forallb is_text children else true)
      && forallb style_holds_text_in children
  | _ => true
  end.

Definition style_holds_text (doc : document) : bool :=
  forallb style_holds_text_in doc.

(** The element at a position of the document: the path lists the child
    indices from the root down. *)
Fixpoint element_at (doc : list node) (path : list nat)
  : option (string * list (string * string)) :=
  match path with
  | [] => None
  | i :: path' =>
      match nth_error doc i with
      | Some (Element t attrs children) =>
          match path' with
          | [] => Some (t, attrs)
          | _ => element_at children path'
          end
      | _ => None
      end
  end.

(** The table loop seen from one element: the passes that name its
    tag, in the order of the table. *)
Definition fix_element (baseUrl : string) (parsedUrl : Url.t) (tag : string)
    (attrs : list (string * string)) : list (string * string) :=
  fold_left
    (fun attrs '(attr, tags) =>
       fold_left
         (fun attrs tag' =>
            if String.eqb tag tag' then fix_attr baseUrl parsedUrl attr attrs else attrs)
         tags attrs)
    urlAttributes attrs.

(** The passes of the table loop, one per attribute and tag, in order;
    the loop over a document, and the same passes over one element. *)
Definition passes : list (string * string) :=
  flat_map (fun '(attr, tags) => map (pair attr) tags) urlAttributes.

Definition run_passes (baseUrl : string) (parsedUrl : Url.t) (ps : list (string * string))
    (doc : document) : document :=
  fold_left (fun doc '(attr, tag) => fix_tag_attr baseUrl parsedUrl attr tag doc)
            ps doc.

Definition run_on_element (baseUrl : string) (parsedUrl : Url.t) (ps : list (string * string))
    (t : string) (attrs : list (string * string)) : list (string * string) :=
  fold_left (fun attrs '(attr, tag) =>
               if String.eqb t tag then fix_attr baseUrl parsedUrl attr attrs
               else attrs)
            ps attrs.

(** *** modifyHtml *)

Section WithCheerio.
(** [cheerio.load(html, ...)] and [$.html()]. *)
Variable load : string -> result document.
Variable html_of : document -> string.

(** The four steps between parsing and serializing. *)
Definition modify_document (targetUrl : string) (parsedUrl : Url.t)
    (doc : document) : result document :=
  let baseUrl := Url.protocol parsedUrl ++ "//" ++ Url.host_port parsedUrl in
  let doc := injectWidget doc in
  let doc := fixUrls html_of baseUrl parsedUrl doc in
  let doc := addBaseTag targetUrl doc in
  modifyForms targetUrl doc.

(** The body of the [try] block. *)
Definition modify (html targetUrl : string) : result string :=
  bind (load html) (fun doc =>
    match Url.parse targetUrl with
    | None => Throw "TypeError: Invalid URL"
    | Some parsedUrl =>
        bind (modify_document targetUrl parsedUrl doc)
             (fun doc => Ok (html_of doc))
    end).

(** [modifyHtml(html, targetUrl)]: the [catch] returns [html]. *)
Definition modifyHtml (html targetUrl : string) : string :=
  try_catch (modify html targetUrl) (fun _ => html).

End WithCheerio.

End HtmlModifier.

(** ** class HeaderProcessor *)

Module HeaderProcessor.
Import Js.

(** A header value: a string, an array of strings (as for repeated
    [set-cookie] lines), or a [String] wrapper object, which is what
    calling [Object] on a string returns. *)
Inductive value :=
| Str (s : string)
| Arr (l : list string)
| Boxed (s : string).

Definition headersToRemove : list string :=
  [ "x-frame-options";
    "content-security-policy";
    "content-security-policy-report-only";
    "x-content-security-policy";
    "x-webkit-csp";
    "strict-transport-security";
    "public-key-pins";
    "public-key-pins-report-only";
    "x-xss-protection";
    "x-content-type-options";
    "referrer-policy";
    "feature-policy";
    "permissions-policy";
    "cross-origin-embedder-policy";
    "cross-origin-opener-policy";
    "cross-origin-resource-policy";
    "x-permitted-cross-domain-policies" ].

Definition headersToPreserve : list string :=
  [ "content-type";
    "content-length";
    "content-encoding";
    "cache-control";
    "expires";
    "last-modified";
    "etag";
    "content-language";
    "content-disposition" ].

(** [arr.includes(k)]. *)
Definition includes (l : list string) (k : string) : bool :=
  existsb (String.eqb k) l.
Arguments includes : simpl never.

(** What [this.headersToModify[lowerKey]] evaluates to.  The table is an
    object literal, so besides its two own properties the lookup reaches
    the properties it inherits from [Object.prototype].  The key is
    always the result of [toLowerCase], and the inherited names without a
    capital letter are [constructor] and [__proto__]. *)
Inductive modifier :=
| processCookies_fn
| processLocation_fn
| Object_fn            (* [constructor]: the function [Object] *)
| Object_prototype.    (* [__proto__]: an object, not callable *)

Definition headersToModify (lowerKey : string) : option modifier :=
  if String.eqb lowerKey "set-cookie" then Some processCookies_fn
  else if String.eqb lowerKey "location" then Some processLocation_fn
  else if String.eqb lowerKey "constructor" then Some Object_fn
  else if String.eqb lowerKey "__proto__" then Some Object_prototype
  else None.

Definition encodeURIComponent (s : string) : string :=
  of_chars (Url.encode (fun c => negb (uri_unreserved c)) (to_chars s)).

(** [processCookies(cookies)] returns [null]. *)
Definition processCookies (cookies : value) : option value := None.

(** [processLocation(location)].  The empty string is falsy and returned
    as it is; on an array the call of [startsWith] throws and the [catch]
    returns the array. *)
Definition processLocation (location : value) : option value :=
  match location with
  | Str s =>
      if String.eqb s "" then Some location
      else if startsWith s "http://" || startsWith s "https://"
      then Some (Str ("/api/proxy?url=" ++ encodeURIComponent s))
      else Some location
  | Boxed s =>
      if startsWith s "http://" || startsWith s "https://"
      then Some (Str ("/api/proxy?url=" ++ encodeURIComponent s))
      else Some location
  | Arr _ => Some location
  end.

(** The call [this.headersToModify[lowerKey](value)]; [None] is [null]. *)
Definition call (m : modifier) (v : value) : result (option value) :=
  match m with
  | processCookies_fn => Ok (processCookies v)
  | processLocation_fn => Ok (processLocation v)
  | Object_fn =>
      Ok (Some match v with Str s => Boxed s | _ => v end)
  | Object_prototype =>
      Throw "TypeError: this.headersToModify[lowerKey] is not a function"
  end.

(** The body of the [forEach] callback, for one entry. *)
Definition process_entry (processedHeaders : gmap string value)
    (entry : string * value) : result (gmap string value) :=
  let '(key, v) := entry in
  let lowerKey := toLowerCase key in
  if includes headersToRemove lowerKey then Ok processedHeaders
  else
    match headersToModify lowerKey with
    | Some m =>
        bind (call m v) (fun modifiedValue =>
          match modifiedValue with
          | Some v' => Ok (<[key := v']> processedHeaders)
          | None => Ok processedHeaders
          end)
    | None =>
        if includes headersToPreserve lowerKey
        then Ok (<[key := v]> processedHeaders)
        else Ok processedHeaders
    end.

Arguments process_entry : simpl never.

Fixpoint forEach (entries : list (string * value))
    (processedHeaders : gmap string value) : result (gmap string value) :=
  match entries with
  | [] => Ok processedHeaders
  | e :: entries' =>
      bind (process_entry processedHeaders e) (forEach entries')
  end.

Definition custom_headers : list (string * value) :=
  [ ("X-Proxied", Str "true");
    ("X-Robots-Tag", Str "noindex, nofollow");
    ("Access-Control-Allow-Origin", Str "*");
    ("Access-Control-Allow-Methods", Str "GET, POST, OPTIONS");
    ("Access-Control-Allow-Headers", Str "Content-Type") ].

Definition add_custom (processedHeaders : gmap string value) : gmap string value :=
  fold_left (fun m kv => <[kv.1 := kv.2]> m) custom_headers processedHeaders.

(** [processResponseHeaders(headers)], on the entries of [headers]
    ([Object.entries]: the own properties, each key once). *)
Definition processResponseHeaders (entries : list (string * value))
  : result (gmap string value) :=
  bind (forEach entries ∅) (fun processedHeaders => Ok (add_custom processedHeaders)).

(** The sanitizer's policy as the specification words it, for the header
    [key] of an upstream map and the sanitized output [out]. *)
Definition denied (key : string) : bool :=
  includes headersToRemove (toLowerCase key)
  || String.eqb (toLowerCase key) "set-cookie".
Definition preserved (key : string) : bool :=
  includes headersToPreserve (toLowerCase key).
Definition transformed (key : string) : bool :=
  String.eqb (toLowerCase key) "location"
  || String.eqb (toLowerCase key) "set-cookie".
Definition is_custom (key : string) : bool :=
  existsb (fun kv => String.eqb key kv.1) custom_headers.

(** The names that reach an inherited property of the modifier table. *)
Definition inherited (key : string) : bool :=
  String.eqb (toLowerCase key) "constructor"
  || String.eqb (toLowerCase key) "__proto__".

Definition spec_policy (entries : list (string * value))
    (out : gmap string value) : Prop :=
  (forall key, denied key = true -> out !! key = None) /\
  (forall key v, (key, v) ∈ entries -> preserved key = true -> out !! key = Some v) /\
  (forall key, preserved key = false -> transformed key = false ->
               denied key = false -> is_custom key = false -> out !! key = None) /\
  (forall kv, kv ∈ custom_headers -> out !! kv.1 = Some kv.2).

(** [processRequestHeaders(headers)].  The request headers are an object
    from names to strings; none of the names looked up is inherited from
    [Object.prototype]. *)
Definition headersToForward : list string :=
  [ "accept"; "accept-language"; "accept-encoding"; "cache-control"; "pragma";
    "user-agent"; "referer" ].

Definition defaultUserAgent : string :=
  "Mozilla/5.0 (Windows NT 10.0; Win64; x64) AppleWebKit/537.36 (KHTML, like Gecko) Chrome/91.0.4472.124 Safari/537.36".

Definition forward (headers : gmap string string)
    (processedHeaders : gmap string string) (header : string) : gmap string string :=
  if truthy (headers !! header)
  then <[header := default "" (headers !! header)]> processedHeaders
  else processedHeaders.

Definition processRequestHeaders (headers : gmap string string) : gmap string string :=
  let processedHeaders := fold_left (forward headers) headersToForward ∅ in
  let processedHeaders :=
    <["user-agent" := or_default (headers !! "user-agent") defaultUserAgent]>
      processedHeaders in
  delete "authorization"
    (delete "cookie" (delete "connection" (delete "host" processedHeaders))).

End HeaderProcessor.

(** ** pages/api/utils/rateLimiter.js : class RateLimiter *)

Module RateLimiter.

(** The request, as far as the limiter looks at it: the limiter only
    hands it to [keyGenerator] and [skip]. *)
Record req := {
  x_forwarded_for : option string;
  x_real_ip : option string;
  remoteAddress : option string
}.

(** The options given to the constructor; every field may be absent. *)
Record user_options := {
  u_windowMs : option Z;
  u_max : option Z;
  u_keyGenerator : option (req -> string);
  u_skip : option (req -> bool)
}.

(** [this.options] after the constructor ran. *)
Record options := {
  windowMs : Z;
  max : Z;
  keyGenerator : req -> string;
  skip : req -> bool
}.

Definition defaultKeyGenerator (r : req) : string :=
  Js.or_default
    (Js.or_else (x_forwarded_for r) (Js.or_else (x_real_ip r) (remoteAddress r)))
    "unknown".

Definition constructor (o : user_options) : options :=
  {| windowMs := Js.num_or (u_windowMs o) (60 * 1000);
     max := Js.num_or (u_max o) 100;
     keyGenerator := default defaultKeyGenerator (u_keyGenerator o);
     skip := default (fun _ => false) (u_skip o) |}.

(** A client record; [this.requests] maps a key to one of them. *)
Record client := { count : Z; resetTime : Z }.

(** [getClient(key)].  The record returned is the one held by the map, so
    the later [client.count++] of [check] is a write to the map: the
    function returns the map together with the record now stored at
    [key]. *)
Definition getClient (o : options) (now : Z) (key : string) (requests : gmap string client)
  : client * gmap string client :=
  let '(c, requests1) :=
    match requests !! key with
    | Some c => (c, requests)
    | None =>
        let c := {| count := 0; resetTime := now + windowMs o |} in
        (c, <[key := c]> requests)
    end in
  if now >? resetTime c then
    let c' := {| count := 0; resetTime := now + windowMs o |} in
    (c', <[key := c']> requests1)
  else (c, requests1).

(** [cleanup()]: drops the records whose window ended more than one window
    ago. *)
Definition cleanup (o : options) (now : Z) (requests : gmap string client) : gmap string client :=
  filter (fun kc => ¬ (now > resetTime kc.2 + windowMs o)) requests.

(** The object returned by [check]. *)
Record status := {
  limited : bool;
  remaining : Z;
  total : Z;
  retryAfter : Z;
  st_resetTime : Z
}.

Inductive check_result :=
| Skipped                       (* { limited: false } *)
| Checked (s : status).

(** The object [check] builds from the client record after the
    increment. *)
Definition outcome (o : options) (c' : client) (now' : Z) : status :=
  {| limited := count c' >? max o;
     remaining := Js.max0 (max o - count c');
     total := max o;
     retryAfter := Js.ceil_div1000 (resetTime c' - now');
     st_resetTime := resetTime c' |}.

(** [check(req)].  [Date.now()] is read twice: [now] inside [getClient],
    [now'] for [retryAfter]. *)
Definition check (o : options) (now now' : Z) (r : req) (requests : gmap string client)
  : check_result * gmap string client :=
  if skip o r then (Skipped, requests)
  else
    let key := keyGenerator o r in
    let '(c, requests1) := getClient o now key requests in
    let c' := {| count := count c + 1; resetTime := resetTime c |} in
    let requests2 := <[key := c']> requests1 in
    (Checked (outcome o c' now'), requests2).

Definition is_limited (r : check_result) : bool :=
  match r with Skipped => false | Checked s => limited s end.

(** The fixed-window rule in the words of the specification: on a check,
    if now is past the window end the count restarts from 0 and the window
    end becomes now + window duration; the count is then incremented. *)
Definition spec_window_step (window now : Z) (prev : option client) : client :=
  let base :=
    match prev with
    | Some c =>
        if now >? resetTime c
        then {| count := 0; resetTime := now + window |}
        else c
    | None => {| count := 0; resetTime := now + window |}
    end in
  {| count := count base + 1; resetTime := resetTime base |}.

(** Successive calls of [check] for the same request, one per pair of
    clock readings, threading [this.requests]. *)
Fixpoint checks (o : options) (clock : list (Z * Z)) (r : req)
    (requests : gmap string client) : list check_result * gmap string client :=
  match clock with
  | [] => ([], requests)
  | (now, now') :: clock' =>
      let '(res, requests1) := check o now now' r requests in
      let '(rest, requests2) := checks o clock' r requests1 in
      (res :: rest, requests2)
  end.

Definition admitted_with (res : check_result) : Prop :=
  exists s, res = Checked s /\ limited s = false.

Definition rejected_with_positive_retry (res : check_result) : Prop :=
  exists s, res = Checked s /\ limited s = true /\ (0 < retryAfter s)%Z.

(** [reset(key)] and [resetAll()]. *)
Definition reset (key : string) (requests : gmap string client) : gmap string client :=
  delete key requests.

Definition resetAll (requests : gmap string client) : gmap string client := ∅.

(** The object returned by [getStatus]; [cs_resetTime] is [null] or the
    ISO string of the window end. *)
Record client_status := {
  cs_count : Z;
  cs_remaining : Z;
  cs_resetTime : option string
}.

(** [getStatus(key)]; [toISOString] stands for
    [new Date(t).toISOString()]. *)
Definition getStatus (toISOString : Z -> string) (o : options) (key : string)
    (requests : gmap string client) : client_status :=
  match requests !! key with
  | None => {| cs_count := 0; cs_remaining := max o; cs_resetTime := None |}
  | Some c =>
      {| cs_count := count c;
         cs_remaining := Js.max0 (max o - count c);
         cs_resetTime := Some (toISOString (resetTime c)) |}
  end.

(** The options the middleware reads besides those of [check]. *)
Record response_options := {
  message : string;
  statusCode : Z;
  headers : bool
}.

(** A value given to [res.setHeader]. *)
Inductive header_value :=
| Num (n : Z)
| Txt (s : string).

(** What [withRateLimit(handler)] does with a request: it answers itself,
    or it returns what the wrapped handler returns. *)
Inductive served (A : Type) : Type :=
| Limited (status : Z) (error : string) (retry : Z)
| Handled (a : A).
Arguments Limited {A} status error retry.
Arguments Handled {A} a.

(** The rate-limit headers set for a checked request. *)
Definition rate_limit_headers (toISOString : Z -> string) (s : status)
  : list (string * header_value) :=
  ([ ("X-RateLimit-Limit", Num (total s));
     ("X-RateLimit-Remaining", Num (remaining s));
     ("X-RateLimit-Reset", Txt (toISOString (st_resetTime s))) ]
   ++ (if limited s then [("Retry-After", Num (retryAfter s))] else []))%list.

(** [withRateLimit(handler)], applied to a request.  When [check] skipped
    the request its result has no [total], [remaining] or [resetTime]: with
    the headers enabled the first [res.setHeader] is given [undefined],
    which the response object refuses with a TypeError (and
    [new Date(undefined).toISOString()] would throw a RangeError next), so
    the wrapped handler is not reached. *)
Definition withRateLimit {A} (toISOString : Z -> string) (o : options)
    (m : response_options) (handler : req -> A) (now now' : Z) (r : req)
    (requests : gmap string client)
  : Js.result (list (string * header_value) * served A) * gmap string client :=
  let '(res, requests') := check o now now' r requests in
  match res with
  | Skipped =>
      if headers m
      then (Js.Throw "TypeError [ERR_HTTP_INVALID_HEADER_VALUE]", requests')
      else (Js.Ok ([], Handled (handler r)), requests')
  | Checked s =>
      (Js.Ok (if headers m then rate_limit_headers toISOString s else [],
              if limited s then Limited (statusCode m) (message m) (retryAfter s)
              else Handled (handler r)),
       requests')
  end.

(** [apiRateLimiter]: windows of one minute, the limit read from the
    environment variable RATE_LIMIT_REQUESTS (100 when it is absent). *)
Definition apiRateLimiter (RATE_LIMIT_REQUESTS : Z) : options :=
  constructor {| u_windowMs := Some (60 * 1000);
                 u_max := Some RATE_LIMIT_REQUESTS;
                 u_keyGenerator := None;
                 u_skip := None |}.

End RateLimiter.

(** ** pages/api/proxy.js : the route handler *)

Module Proxy.
Import Js.

(** The parts of the request the handler reads. *)
Record request := {
  method : string;
  query_url : option string;                (* req.query.url *)
  query_test : option string;               (* req.query.test *)
  x_forwarded_for : option string;          (* req.headers['x-forwarded-for'] *)
  remoteAddress : option string;            (* req.connection.remoteAddress *)
  x_forwarded_proto : option string;        (* req.headers['x-forwarded-proto'] *)
  host_header : option string               (* req.headers.host *)
}.

Inductive body :=
| JsonError (error : string) (retryAfter : option Z) (details : option string)
| JsonSuccess                               (* { success: true } *)
| Send (data : string).

Record response := {
  status : Z;
  headers : list (string * string);         (* res.setHeader, in order *)
  content : body
}.

Definition json (code : Z) (error : string) : response :=
  {| status := code; headers := []; content := JsonError error None None |}.

(** *** The outbound HTTP client (axios) *)

Inductive call :=
| Head (url : string)                       (* the PROBE: axios.head *)
| Get (url : string).                       (* the FULL fetch: axios.get *)

Record upstream := {
  up_status : Z;
  up_content_type : option string;          (* response.headers['content-type'] *)
  up_data : string
}.

Record axios_error := {
  code : option string;
  err_response : option upstream;
  err_request : bool;
  message : string
}.

(** What the network does with a call: an upstream response (after
    redirects), or a failure without one. *)
Inductive outcome :=
| Responds (r : upstream)
| Fails (e : axios_error).

Inductive settled :=
| Resolved (r : upstream)
| Rejected (e : axios_error).

Definition show_status (n : Z) : string :=
  DecimalString.NilZero.string_of_int (Z.to_int n).

(** The client's [settle]: a response whose status fails
    [validateStatus] rejects the promise with an error that carries it. *)
Definition settle (validateStatus : Z -> bool) (o : outcome) : settled :=
  match o with
  | Responds r =>
      if (up_status r =? 0)%Z || validateStatus (up_status r) then Resolved r
      else Rejected
             {| code := if (up_status r / 100 =? 4)%Z then Some "ERR_BAD_REQUEST"
                        else if (up_status r / 100 =? 5)%Z then Some "ERR_BAD_RESPONSE"
                        else None;
                err_response := Some r;
                err_request := true;
                message := "Request failed with status code " ++ show_status (up_status r) |}
  | Fails e => Rejected e
  end.

(** [validateStatus: status => status < 500]. *)
Definition validateStatus (status : Z) : bool := (status <? 500)%Z.

(** *** Target checks *)

Definition blockedHosts : list string := ["localhost"; "127.0.0.1"; "0.0.0.0"; "::1"].

(** The regular expression of the private ranges: the host begins with
    [10.], with [172.] followed by 16 to 31 and a dot, or with
    [192.168.]. *)
Definition privateIPRegex (hostname : string) : bool :=
  startsWith hostname "10."
  || existsb (fun n => startsWith hostname ("172." ++ n ++ "."))
       ["16"; "17"; "18"; "19"; "20"; "21"; "22"; "23"; "24"; "25"; "26"; "27";
        "28"; "29"; "30"; "31"]
  || startsWith hostname "192.168.".

(** *** Rate limiting *)

Record clientRequests := { count : Z; resetTime : Z }.

Definition RATE_WINDOW : Z := 60 * 1000.

(** *** The rewriting of an HTML body *)

Definition widgetScript (protocol host : string) : string :=
  "<script src=" ++ dq ++ protocol ++ "://" ++ host ++ "/widget.js" ++ dq
    ++ "></script>".

Definition fix_relative_links (baseUrl html : string) : string :=
  let html := replace_quoted_path html "href" ("href=" ++ dq ++ baseUrl ++ "/$1" ++ dq) in
  replace_quoted_path html "src" ("src=" ++ dq ++ baseUrl ++ "/$1" ++ dq).

Definition add_base_tag (targetUrl html : string) : string :=
  if includes html "<head>"
  then replace html "<head>" ("<head><base href=" ++ dq ++ targetUrl ++ dq ++ ">")
  else html.

Definition inject_widget (script html : string) : string :=
  if includes html "</head>" then replace html "</head>" (script ++ "</head>")
  else if includes html "</body>" then replace html "</body>" (script ++ "</body>")
  else html ++ script.

(** The block guarded by [contentType.includes('text/html')]. *)
Definition rewrite_html (req : request) (targetUrl : string) (parsedUrl : Url.t)
    (html : string) : string :=
  let baseUrl := Url.origin parsedUrl in
  let html := fix_relative_links baseUrl html in
  let html := add_base_tag targetUrl html in
  let protocol := or_default (x_forwarded_proto req) "http" in
  let host := or_default (host_header req) "localhost:3000" in
  inject_widget (widgetScript protocol host) html.

(** *** The handler *)

(** [RATE_LIMIT] is the integer read from the environment (100 when the
    variable is absent). *)
Record config := {
  RATE_LIMIT : Z;
  development : bool                         (* NODE_ENV === 'development' *)
}.

(** The [catch] block at the end of the handler. *)
Definition on_error (cfg : config) (error : axios_error) : response :=
  if match code error with
     | Some c => String.eqb c "ECONNABORTED" || String.eqb c "ETIMEDOUT"
     | None => false
     end
  then json 408 "Request timed out. The website may be slow or unavailable."
  else
    let fallthrough :=
      if err_request error
      then json 502 "Unable to reach the website. Please check the URL."
      else {| status := 500; headers := [];
              content := JsonError
                "An unexpected error occurred while processing your request" None
                (if development cfg then Some (message error) else None) |} in
    match err_response error with
    | Some r =>
        if (up_status r =? 404)%Z then json 404 "Website not found"
        else if (up_status r =? 403)%Z
        then json 403 "Access forbidden by the target website"
        else if (up_status r >=? 500)%Z then json 502 "Target website server error"
        else fallthrough
    | None => fallthrough
    end.

(** The checks on [req.query.url], up to the private-range test: the
    response of an early return, or the target and its parsed form. *)
Definition validate_target (req : request) : response + (string * Url.t) :=
  if negb (truthy (query_url req))
  then inl (json 400 "URL parameter is required")
  else
    let targetUrl := default "" (query_url req) in
    match Url.parse targetUrl with
    | None => inl (json 400 "Invalid URL format")
    | Some parsedUrl =>
        if existsb (String.eqb (Url.hostname parsedUrl)) blockedHosts
        then inl (json 403 "Access to local addresses is not allowed")
        else if privateIPRegex (Url.hostname parsedUrl)
        then inl (json 403 "Access to private IP addresses is not allowed")
        else inr (targetUrl, parsedUrl)
    end.

Definition clientIP (req : request) : string :=
  or_default (or_else (x_forwarded_for req) (remoteAddress req)) "unknown".

(** The rate-limiting block: the record written back for the client, and
    the response of the early return when the count is over the limit. *)
Definition rate_limit (cfg : config) (now : Z) (req : request)
    (requestCounts : gmap string clientRequests)
  : option response * gmap string clientRequests :=
  let entry :=
    default {| count := 0; resetTime := now + RATE_WINDOW |}
            (requestCounts !! clientIP req) in
  let entry :=
    if now >? resetTime entry
    then {| count := 0; resetTime := now + RATE_WINDOW |}
    else entry in
  let entry := {| count := count entry + 1; resetTime := resetTime entry |} in
  let requestCounts := <[clientIP req := entry]> requestCounts in
  if count entry >? RATE_LIMIT cfg
  then (Some {| status := 429; headers := [];
                content := JsonError "Too many requests. Please try again later."
                             (Some (ceil_div1000 (resetTime entry - now))) None |},
        requestCounts)
  else (None, requestCounts).

(** The test request ([test=true]). *)
Definition probe (network : call -> outcome) (targetUrl : string) : response :=
  match settle validateStatus (network (Head targetUrl)) with
  | Resolved _ => {| status := 200; headers := []; content := JsonSuccess |}
  | Rejected error =>
      {| status := 400; headers := [];
         content := JsonError "Unable to reach the specified website"
                      None (Some (message error)) |}
  end.

(** [res.setHeader(name, value)] refuses a value that holds a character
    other than the tab and the characters from 0x20 to 0x7e and from 0x80
    to 0xff: it throws a TypeError with the code ERR_INVALID_CHAR. *)
Definition valid_header_char (c : ascii) : bool :=
  (Js.code c =? 9)%nat
  || ((32 <=? Js.code c)%nat && negb (Js.code c =? 127)%nat).

Definition valid_header_value (value : string) : bool :=
  forallb valid_header_char (to_chars value).

(** The error thrown by [res.setHeader(name, value)] on such a value. *)
Definition invalid_char (name : string) : axios_error :=
  {| code := Some "ERR_INVALID_CHAR";
     err_response := None;
     err_request := false;
     message := "Invalid character in header content [" ++ dq ++ name ++ dq ++ "]" |}.

(** The fetch of the target and the response built from it.  The two
    headers whose values are not constants can be refused by
    [res.setHeader]; the error is caught by the [catch] block like every
    other. *)
Definition fetch (cfg : config) (network : call -> outcome) (req : request)
    (targetUrl : string) (parsedUrl : Url.t) : response :=
  match settle validateStatus (network (Get targetUrl)) with
  | Rejected error => on_error cfg error
  | Resolved r =>
      let contentType := or_default (up_content_type r) "text/html" in
      let html :=
        if includes contentType "text/html"
        then rewrite_html req targetUrl parsedUrl (up_data r)
        else up_data r in
      if negb (valid_header_value contentType)
      then on_error cfg (invalid_char "Content-Type")
      else if negb (valid_header_value targetUrl)
      then on_error cfg (invalid_char "X-Proxied-URL")
      else
        {| status := 200;
           headers :=
             [ ("Content-Type", contentType);
               ("X-Proxied-URL", targetUrl);
               ("Access-Control-Allow-Origin", "*");
               ("Access-Control-Allow-Methods", "GET, POST, PUT, DELETE, OPTIONS");
               ("Access-Control-Allow-Headers", "Content-Type, Authorization") ];
           content := Send html |}
  end.

(** The handler.  It returns the response, the rate-limit map it leaves
    behind, and the outbound calls it made. *)
Definition handler (cfg : config) (network : call -> outcome) (now : Z)
    (req : request) (requestCounts : gmap string clientRequests)
  : response * gmap string clientRequests * list call :=
  if negb (String.eqb (method req) "GET")
  then (json 405 "Method not allowed", requestCounts, [])
  else
    let isTest :=
      match query_test req with Some t => String.eqb t "true" | None => false end in
    match validate_target req with
    | inl rejection => (rejection, requestCounts, [])
    | inr (targetUrl, parsedUrl) =>
        match rate_limit cfg now req requestCounts with
        | (Some rejection, requestCounts) => (rejection, requestCounts, [])
        | (None, requestCounts) =>
            if isTest
            then (probe network targetUrl, requestCounts, [Head targetUrl])
            else (fetch cfg network req targetUrl parsedUrl, requestCounts,
                  [Get targetUrl])
        end
    end.

End Proxy.

(** ** Statements of the specification that the code does not satisfy, as
    propositions, and the inputs used in the scenarios *)

Module Scenario.
Import Js.

(** A client is over its limit when its window is still open and its
    count has reached the limit: the next request is the one too many. *)
Definition over_limit (cfg : Proxy.config) (now : Z) (req : Proxy.request)
    (requestCounts : gmap string Proxy.clientRequests) : Prop :=
  exists entry,
    requestCounts !! Proxy.clientIP req = Some entry /\
    now <= Proxy.resetTime entry /\
    Proxy.RATE_LIMIT cfg <= Proxy.count entry.

(** Admission before validation: every GET request of a client over its
    limit is answered 429, whatever its target. *)
Definition admission_precedes_validation : Prop :=
  forall cfg network now req requestCounts,
    Proxy.method req = "GET" ->
    over_limit cfg now req requestCounts ->
    Proxy.status (Proxy.handler cfg network now req requestCounts).1.1 = 429.

(** Idempotent injection: a second application adds no injected script. *)
Definition injection_idempotent : Prop :=
  forall doc,
    HtmlModifier.count_injected (HtmlModifier.injectWidget (HtmlModifier.injectWidget doc))
    = HtmlModifier.count_injected (HtmlModifier.injectWidget doc).

Definition cfg : Proxy.config :=
  {| Proxy.RATE_LIMIT := 100; Proxy.development := false |}.

Definition get (url : string) : Proxy.request :=
  {| Proxy.method := "GET";
     Proxy.query_url := Some url;
     Proxy.query_test := None;
     Proxy.x_forwarded_for := Some "203.0.113.7";
     Proxy.remoteAddress := None;
     Proxy.x_forwarded_proto := Some "https";
     Proxy.host_header := Some "replicator.example" |}.

(** The rate-limit map of a client that used up its window. *)
Definition exhausted : gmap string Proxy.clientRequests :=
  {[ "203.0.113.7" := {| Proxy.count := 100; Proxy.resetTime := 60000 |} ]}.

(** An upstream that answers every call with the given status. *)
Definition answers (status : Z) (data : string) (c : Proxy.call) : Proxy.outcome :=
  Proxy.Responds {| Proxy.up_status := status;
                    Proxy.up_content_type := Some "text/plain";
                    Proxy.up_data := data |}.

(** The document of the markup
    <html><head></head><body>Hi</body></html>. *)
Definition page : HtmlModifier.document :=
  [ HtmlModifier.Element "html" []
      [ HtmlModifier.Element "head" [] [];
        HtmlModifier.Element "body" [] [HtmlModifier.Text "Hi"] ] ].

Definition page_markup : string := "<html><head></head><body>Hi</body></html>".

(** Two links with absolute paths. *)
Definition two_links : string :=
  "<a href=" ++ dq ++ "/a" ++ dq ++ ">A</a><a href=" ++ dq ++ "/b" ++ dq ++ ">B</a>".

Definition two_links_rewritten : string :=
  "<a href=" ++ dq ++ "https://example.com/a" ++ dq ++ ">A</a><a href="
    ++ dq ++ "/b" ++ dq ++ ">B</a>".

(** A loader and a serializer to run [modifyHtml] with: the loader wraps
    text without markup into the skeleton every parsed document has, the
    serializer writes start tags, content and end tags. *)
Definition load_text (html : string) : result HtmlModifier.document :=
  Ok [ HtmlModifier.Element "html" []
         [ HtmlModifier.Element "head" [] [];
           HtmlModifier.Element "body" [] [HtmlModifier.Text html] ] ].

Fixpoint outer_html (n : HtmlModifier.node) : string :=
  match n with
  | HtmlModifier.Text data => data
  | HtmlModifier.Comment data => "<!--" ++ data ++ "-->"
  | HtmlModifier.Element tag attrs children =>
      "<" ++ tag
      ++ String.concat ""
           (map (fun '(name, value) => " " ++ name ++ "=" ++ dq ++ value ++ dq) attrs)
      ++ ">" ++ String.concat "" (map outer_html children)
      ++ "</" ++ tag ++ ">"
  end.

Definition html_of (doc : HtmlModifier.document) : string :=
  String.concat "" (map outer_html doc).

(** An image with a protocol-relative source inside the body. *)
Definition page_with_cdn_image : HtmlModifier.document :=
  [ HtmlModifier.Element "html" []
      [ HtmlModifier.Element "head" [] [];
        HtmlModifier.Element "body" []
          [ HtmlModifier.Element "img"
              [("src", "//cdn.example.com/x.png"); ("alt", "x")] [] ] ] ].

End Scenario.

(** ** ErrorLogger: what is written to the log *)

Module ErrorLogger.
Import Js.

(** A header or query value: a string or an array of strings. *)
Inductive value :=
| Str (s : string)
| Arr (l : list string).

(** The truth value of [sanitized[name]]: a missing entry and the empty
    string are falsy, an array is truthy. *)
Definition truthy_value (v : option value) : bool :=
  match v with
  | Some (Str s) => negb (String.eqb s "")
  | Some (Arr _) => true
  | None => false
  end.

Definition sensitiveParams : list string :=
  ["token"; "key"; "secret"; "password"; "auth"].

Definition sensitiveHeaders : list string :=
  ["authorization"; "cookie"; "x-api-key"; "x-auth-token"; "x-csrf-token"].

(** The callback of the two [forEach] loops. *)
Definition redact (sanitized : gmap string value) (name : string)
  : gmap string value :=
  if truthy_value (sanitized !! name)
  then <[name := Str "[REDACTED]"]> sanitized
  else sanitized.

(** [sanitizeHeaders(headers)]; [None] is a missing [headers]. *)
Definition sanitizeHeaders (headers : option (gmap string value))
  : gmap string value :=
  match headers with
  | None => ∅
  | Some headers => fold_left redact sensitiveHeaders headers
  end.

(** [str.substring(0, n)]. *)
Definition substring0 (str : string) (n : Z) : string :=
  String.substring 0 (Z.to_nat n) str.

(** [sanitizeUrl(query)].  On an array, [length] is the number of entries
    and [substring] is not a function. *)
Definition sanitizeUrl (query : option (gmap string value))
  : result (gmap string value) :=
  match query with
  | None => Ok ∅
  | Some query =>
      let sanitized := fold_left redact sensitiveParams query in
      match sanitized !! "url" with
      | Some (Str url) =>
          if negb (String.eqb url "") && (200 <? Z.of_nat (String.length url))%Z
          then Ok (<["url" := Str (substring0 url 200 ++ "...[TRUNCATED]")]> sanitized)
          else Ok sanitized
      | Some (Arr urls) =>
          if (200 <? Z.of_nat (List.length urls))%Z
          then Throw "TypeError: sanitized.url.substring is not a function"
          else Ok sanitized
      | None => Ok sanitized
      end
  end.

(** [truncate(str, maxLength)] on a string. *)
Definition truncate (str : string) (maxLength : Z) : string :=
  if (Z.of_nat (String.length str) <=? maxLength)%Z then str
  else substring0 str maxLength ++ "...[TRUNCATED]".

End ErrorLogger.

(** ** ProxyHandler: the URL check of the handler class *)

Module ProxyHandler.
Import Js.

Inductive validation :=
| Valid                           (* { valid: true } *)
| Invalid (error : string).       (* { valid: false, error } *)

Definition localhostPatterns : list string :=
  ["localhost"; "127.0.0.1"; "0.0.0.0"; "::1"].

(** The six regular expressions of [privateIpRanges], in order. *)
Definition privateIpRanges : list (string -> bool) :=
  [ (fun h => startsWith h "10.");
    (fun h => existsb (fun n => startsWith h ("172." ++ n ++ "."))
                ["16"; "17"; "18"; "19"; "20"; "21"; "22"; "23"; "24"; "25"; "26";
                 "27"; "28"; "29"; "30"; "31"]);
    (fun h => startsWith h "192.168.");
    (fun h => startsWith h "169.254.");
    (fun h => startsWith h "fc00:");
    (fun h => startsWith h "fe80:") ].

(** [process.env.BLOCKED_DOMAINS?.split(',') || []]. *)
Definition blockedDomains (BLOCKED_DOMAINS : option string) : list string :=
  match BLOCKED_DOMAINS with
  | Some v => map of_chars (split_on (is_char ",") (to_chars v))
  | None => []
  end.

(** [validateUrl(url)]; the [catch] answers a URL that does not parse. *)
Definition validateUrl (BLOCKED_DOMAINS : option string) (url : string) : validation :=
  match Url.parse url with
  | None => Invalid "Invalid URL format"
  | Some parsedUrl =>
      if negb (existsb (String.eqb (Url.protocol parsedUrl)) ["http:"; "https:"])
      then Invalid "Only HTTP and HTTPS protocols are supported"
      else
        let hostname := toLowerCase (Url.hostname parsedUrl) in
        if existsb (String.eqb hostname) localhostPatterns
        then Invalid "Access to local addresses is not allowed"
        else if existsb (fun pattern => pattern hostname) privateIpRanges
        then Invalid "Access to private IP addresses is not allowed"
        else if existsb (fun domain => includes hostname domain)
                  (blockedDomains BLOCKED_DOMAINS)
        then Invalid "This domain has been blocked"
        else Valid
  end.

End ProxyHandler.

(** ** utils/urlValidator.js: the check made by the input form *)

Module UrlValidator.
Import Js.

Record validation := {
  isValid : bool;
  error : option string
}.

Definition invalid (message : string) : validation :=
  {| isValid := false; error := Some message |}.

(** [hostname.replace(/^\[|\]$/g, '')]: an opening bracket at the start
    and a closing bracket at the end are removed. *)
Definition strip_closing (l : chars) : chars :=
  match rev l with
  | c :: l' => if is_char "]" c then rev l' else l
  | [] => l
  end.

Definition cleanHostname (hostname : string) : string :=
  of_chars
    match to_chars hostname with
    | c :: l' => if is_char "[" c then strip_closing l' else strip_closing (c :: l')
    | [] => []
    end.

Definition is_hex (c : ascii) : bool :=
  is_digit c || ((97 <=? code c)%nat && (code c <=? 102)%nat).

(** [isPrivateIP(hostname)].  The patterns of the second list ignore the
    case: they are tested on the lower-cased text. *)
Definition isPrivateIP (hostname : string) : bool :=
  existsb (fun pattern => pattern hostname)
    [ (fun h => startsWith h "10.");
      (fun h => existsb (fun n => startsWith h ("172." ++ n ++ "."))
                  ["16"; "17"; "18"; "19"; "20"; "21"; "22"; "23"; "24"; "25"; "26";
                   "27"; "28"; "29"; "30"; "31"]);
      (fun h => startsWith h "192.168.");
      (fun h => startsWith h "169.254.") ]
  || existsb (fun pattern => pattern (toLowerCase (cleanHostname hostname)))
       [ (fun h => startsWith h "fc00:");
         (fun h => match to_chars h with
                   | f :: d :: x :: y :: colon :: _ =>
                       is_char "f" f && is_char "d" d && is_hex x && is_hex y
                       && is_char ":" colon
                   | _ => false
                   end);
         (fun h => startsWith h "fe80:");
         (fun h => String.eqb h "::1");
         (fun h => startsWith h "::") ].

Definition suspiciousPatterns : list string :=
  [ "javascript:"; "data:text/html"; "vbscript:"; "onmouseover="; "onclick=";
    "<script"; "base64," ].

(** [containsSuspiciousPatterns(url)]; every pattern ignores the case. *)
Definition containsSuspiciousPatterns (url : string) : bool :=
  existsb (fun pattern => includes (toLowerCase url) pattern) suspiciousPatterns.

(** [parseInt(port)] on the port of a parsed URL, a string of decimal
    digits: the number they write, [None] (NaN) for the empty string. *)
Definition parseInt (port : string) : option Z :=
  let digits := (span is_digit (to_chars port)).1 in
  match digits with
  | [] => None
  | _ => Some (fold_left (fun n c => 10 * n + Z.of_nat (digit_of c)) digits 0)
  end.

Definition blockedPorts : list Z := [22; 23; 25; 110; 135; 139; 445; 3389].

Definition localPatterns : list string :=
  ["localhost"; "127.0.0.1"; "0.0.0.0"; "::1"; "[::1]"].

Section WithValidator.

(** [validator.isURL(url, validatorOptions)], of the validator package. *)
Variable isURL : string -> bool.

(** [validateUrl(url)]; [None] is an argument that is not a string. *)
Definition validateUrl (url : option string) : validation :=
  match url with
  | None => invalid "Please enter a URL"
  | Some url =>
      if String.eqb url "" then invalid "Please enter a URL"
      else
        let url := of_chars (HtmlModifier.trim (to_chars url)) in
        if String.eqb url "" then invalid "Please enter a URL"
        else if (2048 <? Z.of_nat (String.length url))%Z
        then invalid "URL is too long (maximum 2048 characters)"
        else if negb (startsWith url "http://") && negb (startsWith url "https://")
        then invalid "URL must start with http:// or https://"
        else if negb (isURL url)
        then invalid "Please enter a valid URL format"
        else
          match Url.parse url with
          | None => invalid "Invalid URL format"
          | Some parsedUrl =>
              let hostname := toLowerCase (Url.hostname parsedUrl) in
              if existsb (String.eqb hostname) localPatterns
              then invalid "Local addresses are not allowed for security reasons"
              else if isPrivateIP hostname
              then invalid "Private IP addresses are not allowed for security reasons"
              else
                let port_error :=
                  if String.eqb (Url.port parsedUrl) "" then None
                  else
                    match parseInt (Url.port parsedUrl) with
                    | Some portNum =>
                        if (portNum <? 1)%Z || (65535 <? portNum)%Z
                        then Some "Invalid port number"
                        else if existsb (Z.eqb portNum) blockedPorts
                        then Some "This port is not allowed for security reasons"
                        else None
                    | None => None
                    end in
                match port_error with
                | Some message => invalid message
                | None =>
                    if containsSuspiciousPatterns url
                    then invalid "URL contains suspicious patterns"
                    else {| isValid := true; error := None |}
                end
          end
  end.

End WithValidator.

(** The three replacements of [sanitizeUrlForDisplay].  A global
    replacement by the empty string scans from the left: where the pattern
    matches, the matched text is passed over, elsewhere one character is
    kept. *)
Definition is_word (c : ascii) : bool := is_alpha c || is_digit c || is_char "_" c.

(** The length of the match of /javascript:/i at the head of [l]. *)
Definition match_javascript (l : chars) : option nat :=
  if prefix_of (to_chars "javascript:") (map lower l) then Some 11%nat else None.

(** The length of the match of /on\w+=/i at the head of [l]: the run of
    word characters is taken whole, and no shorter run can be followed by
    the equals sign. *)
Definition match_on_handler (l : chars) : option nat :=
  match l with
  | o :: n :: rest =>
      if is_char "o" (lower o) && is_char "n" (lower n) then
        let '(w, rest') := span is_word rest in
        match w, rest' with
        | _ :: _, c :: _ =>
            if is_char "=" c then Some (2 + List.length w + 1)%nat else None
        | _, _ => None
        end
      else None
  | _ => None
  end.

Fixpoint remove_matches (m : chars -> option nat) (skip : nat) (l : chars) : chars :=
  match l with
  | [] => []
  | c :: l' =>
      match skip with
      | S k => remove_matches m k l'
      | O =>
          match m l with
          | Some len => remove_matches m (len - 1) l'
          | None => c :: remove_matches m 0 l'
          end
      end
  end.

(** [sanitizeUrlForDisplay(url)]; [None] is [null] or [undefined]. *)
Definition sanitizeUrlForDisplay (url : option string) : string :=
  match url with
  | None => ""
  | Some url =>
      if String.eqb url "" then ""
      else
        let l := filter (fun c => negb (is_char "<" c || is_char ">" c)) (to_chars url) in
        let l := remove_matches match_javascript 0 l in
        of_chars (remove_matches match_on_handler 0 l)
  end.

(** [extractDomain(url)]. *)
Definition extractDomain (url : string) : string :=
  match Url.parse url with
  | Some parsedUrl => Url.hostname parsedUrl
  | None => ""
  end.

End UrlValidator.

(** ** The route handler beside the limiter class, and the inputs used in
    the examples of the further properties *)

Module Inline.

(** A record of the handler's own map, read as a record of the class. *)
Definition as_client (e : Proxy.clientRequests) : RateLimiter.client :=
  {| RateLimiter.count := Proxy.count e; RateLimiter.resetTime := Proxy.resetTime e |}.

(** The request as the class reads it; the handler's requests are taken
    without an x-real-ip header, which the handler does not read. *)
Definition as_req (req : Proxy.request) : RateLimiter.req :=
  {| RateLimiter.x_forwarded_for := Proxy.x_forwarded_for req;
     RateLimiter.x_real_ip := None;
     RateLimiter.remoteAddress := Proxy.remoteAddress req |}.

(** Every stored window ends at most one window after [t]. *)
Definition windows_end_by (t : Z) (requestCounts : gmap string Proxy.clientRequests)
  : Prop :=
  forall k e, requestCounts !! k = Some e ->
              Proxy.resetTime e <= t + Proxy.RATE_WINDOW.

(** The record the handler stores for a client whose previous record is
    [prev], at a request made at [now]. *)
Definition counted (now : Z) (prev : option Proxy.clientRequests)
  : Proxy.clientRequests :=
  let fresh := {| Proxy.count := 0; Proxy.resetTime := now + Proxy.RATE_WINDOW |} in
  let base :=
    match prev with
    | Some e => if now >? Proxy.resetTime e then fresh else e
    | None => fresh
    end in
  {| Proxy.count := Proxy.count base + 1; Proxy.resetTime := Proxy.resetTime base |}.

(** A GET request of the client 198.51.100.4, with or without [test]. *)
Definition get (url : string) (test : option string) : Proxy.request :=
  {| Proxy.method := "GET";
     Proxy.query_url := Some url;
     Proxy.query_test := test;
     Proxy.x_forwarded_for := Some "198.51.100.4";
     Proxy.remoteAddress := None;
     Proxy.x_forwarded_proto := None;
     Proxy.host_header := None |}.

Definition cfg : Proxy.config :=
  {| Proxy.RATE_LIMIT := 2; Proxy.development := false |}.

(** A target that ends with a line feed: the URL parser drops the line
    feed, [res.setHeader] does not. *)
Definition target_with_line_feed : string :=
  "https://example.com/" ++ String (ascii_of_nat 10) "".

(** An upstream that answers every call with the given status, content
    type and body. *)
Definition upstream (status : Z) (contentType : option string) (data : string)
    (c : Proxy.call) : Proxy.outcome :=
  Proxy.Responds {| Proxy.up_status := status;
                    Proxy.up_content_type := contentType;
                    Proxy.up_data := data |}.

End Inline.

(** * Theorems *)

Ltac gtb_false t :=
  let E := fresh "E" in
  assert (E : t = false) by (rewrite Z.gtb_ltb; apply Z.ltb_ge; lia);
  rewrite E; clear E.

Ltac gtb_true t :=
  let E := fresh "E" in
  assert (E : t = true) by (rewrite Z.gtb_ltb; apply Z.ltb_lt; lia);
  rewrite E; clear E.

Section RateLimiterFacts.
Import RateLimiter.
Variable o : options.

Lemma getClient_step now key (requests : gmap string client) :
  let base :=
    match requests !! key with
    | Some c =>
        if now >? resetTime c
        then {| count := 0; resetTime := now + windowMs o |}
        else c
    | None => {| count := 0; resetTime := now + windowMs o |}
    end in
  (getClient o now key requests).1 = base /\
  <[key := base]> (getClient o now key requests).2 = <[key := base]> requests.
Proof.
  unfold getClient. destruct (requests !! key) as [c|] eqn:E; cbn.
  - destruct (now >? resetTime c); cbn; [|done].
    split; [done|]. by rewrite insert_insert_eq.
  - destruct (now >? now + windowMs o); cbn;
      split; try done; by rewrite !insert_insert_eq.
Qed.

Lemma check_step now now' r (requests : gmap string client) :
  skip o r = false ->
  let key := keyGenerator o r in
  let c' := spec_window_step (windowMs o) now (requests !! key) in
  check o now now' r requests = (Checked (outcome o c' now'), <[key := c']> requests).
Proof.
  intros Hs key c'. unfold check. rewrite Hs. fold key.
  destruct (getClient_step now key requests) as [H1 H2].
  destruct (getClient o now key requests) as [c rq] eqn:E. cbn in H1, H2.
  subst c. f_equal.
  unfold c', spec_window_step.
  set (base := match requests !! key with Some c => _ | None => _ end) in *.
  cbn [resetTime count].
  rewrite <- (insert_insert_eq rq key _ base), H2. by rewrite insert_insert_eq.
Qed.

Lemma check_new now now' r (requests : gmap string client) :
  skip o r = false -> requests !! keyGenerator o r = None ->
  let c' := {| count := 1; resetTime := now + windowMs o |} in
  check o now now' r requests =
    (Checked (outcome o c' now'), <[keyGenerator o r := c']> requests).
Proof.
  intros Hs Hn. rewrite (check_step _ _ _ _ Hs), Hn. reflexivity.
Qed.

Lemma check_same_window now now' r c (requests : gmap string client) :
  skip o r = false -> requests !! keyGenerator o r = Some c ->
  now <= resetTime c ->
  let c' := {| count := count c + 1; resetTime := resetTime c |} in
  check o now now' r requests =
    (Checked (outcome o c' now'), <[keyGenerator o r := c']> requests).
Proof.
  intros Hs Hn Hle. rewrite (check_step _ _ _ _ Hs), Hn.
  unfold spec_window_step. gtb_false (now >? resetTime c). reflexivity.
Qed.

Lemma check_next_window now now' r c (requests : gmap string client) :
  skip o r = false -> requests !! keyGenerator o r = Some c ->
  resetTime c < now ->
  let c' := {| count := 1; resetTime := now + windowMs o |} in
  check o now now' r requests =
    (Checked (outcome o c' now'), <[keyGenerator o r := c']> requests).
Proof.
  intros Hs Hn Hlt. rewrite (check_step _ _ _ _ Hs), Hn.
  unfold spec_window_step. gtb_true (now >? resetTime c). reflexivity.
Qed.

End RateLimiterFacts.

(** C7. The limiter counts in fixed windows.  For a request that is not
    skipped, [check] stores for its key exactly the record of the
    specification's rule (restart from 0 with a new window end when the clock
    is past the window end, then increment) and reports [limited = false]
    exactly when the incremented count is at most [max].  With [max = 3] and
    a window of 60000 ms, four checks of a new key at times inside the first
    window give three admissions and then a rejection whose [retryAfter] is
    positive, and a fifth check after the window has elapsed is admitted and
    leaves the counter at 1. *)
Theorem rate_limiter_fixed_window
    (o : RateLimiter.options) (r : RateLimiter.req)
    (requests : gmap string RateLimiter.client) :
  RateLimiter.skip o r = false ->
  let key := RateLimiter.keyGenerator o r in
  (forall now now',
      let c' := RateLimiter.spec_window_step (RateLimiter.windowMs o) now (requests !! key) in
      exists s,
        RateLimiter.check o now now' r requests = (RateLimiter.Checked s, <[key := c']> requests) /\
        (RateLimiter.limited s = false <-> RateLimiter.count c' <= RateLimiter.max o)) /\
  (RateLimiter.max o = 3 -> RateLimiter.windowMs o = 60000 ->
   requests !! key = None ->
   forall a1 b1 a2 b2 a3 b3 a4 b4 a5 b5,
     a1 <= a2 -> a2 <= a3 -> a3 <= a4 -> a4 <= b4 -> b4 < a1 + 60000 ->
     a1 + 60000 < a5 ->
     exists r1 r2 r3 r4 r5 requests',
       RateLimiter.checks o [(a1, b1); (a2, b2); (a3, b3); (a4, b4); (a5, b5)] r requests
         = ([r1; r2; r3; r4; r5], requests') /\
       RateLimiter.admitted_with r1 /\ RateLimiter.admitted_with r2 /\
       RateLimiter.admitted_with r3 /\
       RateLimiter.rejected_with_positive_retry r4 /\
       RateLimiter.admitted_with r5 /\
       requests' !! key =
         Some {| RateLimiter.count := 1; RateLimiter.resetTime := a5 + 60000 |}).
Proof.
  intros Hs key. split.
  - intros now now' c'. eexists. split.
    + apply (check_step o now now' r requests Hs).
    + cbn. rewrite Z.gtb_ltb, Z.ltb_ge. done.
  - intros Hmax Hwin Hnone a1 b1 a2 b2 a3 b3 a4 b4 a5 b5 H12 H23 H34 H4b Hb4 H5.
    cbn [RateLimiter.checks].
    rewrite (check_new o a1 b1 r requests Hs Hnone).
    erewrite (check_same_window o a2 b2 r _ _ Hs);
      [|apply lookup_insert_eq|cbn; lia].
    erewrite (check_same_window o a3 b3 r _ _ Hs);
      [|apply lookup_insert_eq|cbn; lia].
    erewrite (check_same_window o a4 b4 r _ _ Hs);
      [|apply lookup_insert_eq|cbn; lia].
    erewrite (check_next_window o a5 b5 r _ _ Hs);
      [|apply lookup_insert_eq|cbn; lia].
    do 6 eexists. split; [reflexivity|].
    unfold RateLimiter.admitted_with, RateLimiter.rejected_with_positive_retry.
    rewrite Hwin. fold key.
    repeat split.
    + eexists; split; [reflexivity|]. cbn. rewrite Hmax. reflexivity.
    + eexists; split; [reflexivity|]. cbn. rewrite Hmax. reflexivity.
    + eexists; split; [reflexivity|]. cbn. rewrite Hmax. reflexivity.
    + eexists; split; [reflexivity|]. cbn. rewrite Hmax. split; [reflexivity|].
      unfold Js.ceil_div1000.
      assert ((- (a1 + 60000 - b4)) / 1000 < 0); [|lia].
      apply Z.div_lt_upper_bound; lia.
    + eexists; split; [reflexivity|]. cbn. rewrite Hmax. reflexivity.
    + by rewrite lookup_insert_eq.
Qed.

(** ** Facts about the header sanitizer *)

Section HeaderProcessorFacts.
Import Js HeaderProcessor.

Lemma includes_In l k : includes l k = true <-> In k l.
Proof.
  unfold includes. rewrite existsb_exists. split.
  - intros (x & Hx & E). apply String.eqb_eq in E. by subst.
  - intros H. exists k. split; [done|]. apply String.eqb_refl.
Qed.

(** A removed name is neither modified nor preserved, and the names of
    the three tables are apart. *)
Lemma removed_not_modified k :
  includes headersToRemove k = true ->
  headersToModify k = None /\ includes headersToPreserve k = false.
Proof.
  intros H. apply includes_In in H. cbn in H.
  repeat (destruct H as [<-|H]; [split; reflexivity|]). destruct H.
Qed.

Lemma preserved_not_modified k :
  includes headersToPreserve k = true ->
  headersToModify k = None /\ includes headersToRemove k = false.
Proof.
  intros H. apply includes_In in H. cbn in H.
  repeat (destruct H as [<-|H]; [split; reflexivity|]). destruct H.
Qed.

Lemma processLocation_some v : exists v', processLocation v = Some v'.
Proof.
  unfold processLocation. destruct v as [s|l|s]; [|by eexists|].
  - destruct (String.eqb s ""); [by eexists|].
    destruct (_ || _); by eexists.
  - destruct (_ || _); by eexists.
Qed.

(** What one entry does to the output: either nothing, or one write
    under the entry's own key. *)
Lemma process_entry_cases m key v :
  process_entry m (key, v) = Ok m \/
  (exists v', process_entry m (key, v) = Ok (<[key := v']> m)) \/
  (exists e, process_entry m (key, v) = Throw e).
Proof.
  unfold process_entry.
  destruct (includes headersToRemove (toLowerCase key)); [by left|].
  destruct (headersToModify (toLowerCase key)) as [[]|]; cbn.
  - by left.
  - right; left. destruct (processLocation_some v) as [v' ->]. by eexists.
  - right; left. by eexists.
  - right; right. by eexists.
  - destruct (includes headersToPreserve (toLowerCase key)); [|by left].
    right; left. by eexists.
Qed.

Lemma process_entry_other m m' key v k :
  process_entry m (key, v) = Ok m' -> k <> key -> m' !! k = m !! k.
Proof.
  intros H Hne.
  destruct (process_entry_cases m key v) as [E|[[v' E]|[e E]]];
    rewrite E in H; inversion H; subst; [done|].
  by rewrite lookup_insert_ne.
Qed.

Lemma forEach_other entries : forall m m' k,
  forEach entries m = Ok m' -> k ∉ entries.*1 -> m' !! k = m !! k.
Proof.
  induction entries as [|[key v] entries IH]; intros m m' k H Hk; cbn in *.
  - by inversion H.
  - destruct (process_entry m (key, v)) as [m1|] eqn:E; cbn in H; [|done].
    apply not_elem_of_cons in Hk as [Hne Hk].
    rewrite (IH _ _ _ H Hk). eapply process_entry_other; eauto.
Qed.

(** A denied name is never written. *)
Lemma process_entry_denied m m' key v k :
  process_entry m (key, v) = Ok m' -> denied k = true -> m' !! k = m !! k.
Proof.
  intros H Hd. destruct (decide (k = key)) as [->|Hne];
    [|eapply process_entry_other; eauto].
  unfold process_entry in H. unfold denied in Hd.
  destruct (includes headersToRemove (toLowerCase key)) eqn:Er;
    [by inversion H|].
  cbn in Hd. apply String.eqb_eq in Hd. rewrite Hd in H. cbn in H.
  by inversion H.
Qed.

Lemma forEach_denied entries : forall m m' k,
  forEach entries m = Ok m' -> denied k = true -> m' !! k = m !! k.
Proof.
  induction entries as [|[key v] entries IH]; intros m m' k H Hd; cbn in *.
  - by inversion H.
  - destruct (process_entry m (key, v)) as [m1|] eqn:E; cbn in H; [|done].
    rewrite (IH _ _ _ H Hd). eapply process_entry_denied; eauto.
Qed.

(** A preserved name is written with the upstream value. *)
Lemma process_entry_preserved m key v :
  preserved key = true -> process_entry m (key, v) = Ok (<[key := v]> m).
Proof.
  unfold preserved, process_entry. intros H.
  destruct (preserved_not_modified _ H) as [-> ->]. by rewrite H.
Qed.

Lemma forEach_preserved entries : forall m m' key v,
  NoDup entries.*1 -> forEach entries m = Ok m' ->
  (key, v) ∈ entries -> preserved key = true -> m' !! key = Some v.
Proof.
  induction entries as [|[key0 v0] entries IH];
    intros m m' key v Hnd H Hin Hp; cbn in *.
  - by apply elem_of_nil in Hin.
  - apply NoDup_cons in Hnd as [Hfresh Hnd].
    destruct (process_entry m (key0, v0)) as [m1|] eqn:E; cbn in H; [|done].
    apply elem_of_cons in Hin as [Heq|Hin].
    + inversion Heq; subst key0 v0.
      rewrite (process_entry_preserved m key v Hp) in E. inversion E; subst m1.
      rewrite (forEach_other _ _ _ _ H Hfresh). apply lookup_insert_eq.
    + eapply IH; eauto.
Qed.

Lemma process_entry_total m key v :
  inherited key = false -> exists m', process_entry m (key, v) = Ok m'.
Proof.
  intros Hi. destruct (process_entry_cases m key v) as [E|[[v' E]|[e E]]];
    eauto. exfalso.
  unfold process_entry, headersToModify, inherited in *.
  apply orb_false_iff in Hi as [H1 H2].
  destruct (includes headersToRemove (toLowerCase key)); [done|].
  rewrite H1, H2 in E.
  repeat case_match; simplify_eq.
  unfold bind, call in E. by destruct (processLocation v).
Qed.

Lemma forEach_total entries : forall m,
  (forall key, key ∈ entries.*1 -> inherited key = false) ->
  exists m', forEach entries m = Ok m'.
Proof.
  induction entries as [|[key v] entries IH]; intros m Hi; cbn.
  - by eexists.
  - destruct (process_entry_total m key v) as [m1 E].
    { apply Hi. set_solver. }
    rewrite E. cbn. apply IH. intros k Hk. apply Hi. set_solver.
Qed.

(** A name outside the three tables is written only if it reaches an
    inherited property. *)
Lemma process_entry_unlisted m m' key v k :
  process_entry m (key, v) = Ok m' -> inherited key = false ->
  preserved k = false -> transformed k = false ->
  m' !! k = m !! k.
Proof.
  intros H Hi Hp Ht. destruct (decide (k = key)) as [->|Hne];
    [|eapply process_entry_other; eauto].
  unfold process_entry, headersToModify, inherited, preserved, transformed in *.
  apply orb_false_iff in Hi as [H1 H2].
  apply orb_false_iff in Ht as [H3 H4].
  rewrite H1, H2, H3, H4, Hp in H.
  destruct (includes headersToRemove (toLowerCase key)); by inversion H.
Qed.

Lemma forEach_unlisted entries : forall m m' k,
  forEach entries m = Ok m' ->
  (forall key, key ∈ entries.*1 -> inherited key = false) ->
  preserved k = false -> transformed k = false ->
  m' !! k = m !! k.
Proof.
  induction entries as [|[key v] entries IH]; intros m m' k H Hi Hp Ht; cbn in *.
  - by inversion H.
  - destruct (process_entry m (key, v)) as [m1|] eqn:E; cbn in H; [|done].
    rewrite (IH _ _ _ H); [|set_solver|done|done].
    eapply process_entry_unlisted; eauto. apply Hi. set_solver.
Qed.

Lemma add_custom_in m kv :
  kv ∈ custom_headers -> add_custom m !! kv.1 = Some kv.2.
Proof.
  unfold add_custom, custom_headers. intros Hin. cbn [fold_left fst snd].
  repeat (apply elem_of_cons in Hin as [->|Hin];
          [cbn [fst snd]; repeat (rewrite lookup_insert_ne by done);
           apply lookup_insert_eq|]).
  by apply elem_of_nil in Hin.
Qed.

Lemma add_custom_other m k :
  is_custom k = false -> add_custom m !! k = m !! k.
Proof.
  unfold add_custom, is_custom. cbn. intros H.
  repeat (apply orb_false_iff in H as [?%String.eqb_neq H]).
  by rewrite !lookup_insert_ne.
Qed.

Lemma denied_not_custom k : denied k = true -> is_custom k = false.
Proof.
  intros Hd. unfold is_custom. cbn.
  repeat match goal with
         | |- context [String.eqb k ?s] =>
             destruct (String.eqb_spec k s) as [->|_]; [by vm_compute in Hd|]
         end.
  done.
Qed.

Lemma preserved_not_custom k : preserved k = true -> is_custom k = false.
Proof.
  intros Hd. unfold is_custom. cbn.
  repeat match goal with
         | |- context [String.eqb k ?s] =>
             destruct (String.eqb_spec k s) as [->|_]; [by vm_compute in Hd|]
         end.
  done.
Qed.

(** The policy of the specification holds of every upstream map none of
    whose names reaches an inherited property of the modifier table. *)
Lemma sanitizer_policy entries :
  NoDup entries.*1 ->
  (forall key, key ∈ entries.*1 -> inherited key = false) ->
  exists out, processResponseHeaders entries = Ok out /\ spec_policy entries out.
Proof.
  intros Hnd Hi. unfold processResponseHeaders.
  destruct (forEach_total entries ∅ Hi) as [m E]. rewrite E. cbn [bind].
  eexists. split; [reflexivity|]. repeat split.
  - intros key Hd. rewrite (add_custom_other _ _ (denied_not_custom _ Hd)).
    by rewrite (forEach_denied _ _ _ _ E Hd).
  - intros key v Hin Hp.
    rewrite (add_custom_other _ _ (preserved_not_custom _ Hp)).
    eapply forEach_preserved; eauto.
  - intros key Hp Ht _ Hc. rewrite (add_custom_other _ _ Hc).
    by rewrite (forEach_unlisted _ _ _ _ E Hi Hp Ht).
  - intros kv Hin. by apply add_custom_in.
Qed.

End HeaderProcessorFacts.

(** C3. The sanitizer drops a header outside its preserve, transform and
    deny lists only when the lower-cased name misses every property of the
    modifier table, inherited ones included.  An upstream header named
    [constructor] reaches [Object.prototype.constructor]: the sanitizer
    calls [Object] on the value and forwards the result, so the policy of
    the specification fails on this map. *)
Theorem sanitizer_forwards_inherited_name :
  let entries := [("constructor", HeaderProcessor.Str "x")] in
  exists out,
    HeaderProcessor.processResponseHeaders entries = Js.Ok out /\
    out !! "constructor" = Some (HeaderProcessor.Boxed "x") /\
    ~ HeaderProcessor.spec_policy entries out.
Proof.
  cbn zeta.
  exists (HeaderProcessor.add_custom
            (<["constructor" := HeaderProcessor.Boxed "x"]> ∅)).
  split; [reflexivity|].
  assert (L : HeaderProcessor.add_custom
                (<["constructor" := HeaderProcessor.Boxed "x"]> ∅) !! "constructor"
              = Some (HeaderProcessor.Boxed "x")).
  { rewrite add_custom_other by reflexivity. apply lookup_insert_eq. }
  split; [exact L|].
  intros (_ & _ & H & _).
  specialize (H "constructor" eq_refl eq_refl eq_refl eq_refl).
  rewrite L in H. discriminate.
Qed.

(** A header named [__proto__] reaches the prototype object itself, which
    is not callable: the sanitizer throws. *)
Lemma sanitizer_throws_on_proto :
  exists e, HeaderProcessor.processResponseHeaders
              [("__proto__", HeaderProcessor.Str "x")] = Js.Throw e.
Proof. by eexists. Qed.

(** The scenario of the specification: deny-listed headers and cookies are
    withheld, preserved ones are forwarded unchanged. *)
Lemma sanitizer_scenario :
  exists out,
    HeaderProcessor.processResponseHeaders
      [ ("X-Frame-Options", HeaderProcessor.Str "DENY");
        ("Set-Cookie", HeaderProcessor.Str "a=b");
        ("Content-Type", HeaderProcessor.Str "text/css");
        ("ETag", HeaderProcessor.Str "v1") ] = Js.Ok out /\
    out !! "X-Frame-Options" = None /\
    out !! "Set-Cookie" = None /\
    out !! "Content-Type" = Some (HeaderProcessor.Str "text/css") /\
    out !! "ETag" = Some (HeaderProcessor.Str "v1").
Proof.
  edestruct (sanitizer_policy
    [ ("X-Frame-Options", HeaderProcessor.Str "DENY");
      ("Set-Cookie", HeaderProcessor.Str "a=b");
      ("Content-Type", HeaderProcessor.Str "text/css");
      ("ETag", HeaderProcessor.Str "v1") ]) as (out & E & Hd & Hp & _).
  - cbn. repeat (apply NoDup_cons; split; [set_solver|]). apply NoDup_nil_2.
  - intros key Hk. cbn in Hk.
    repeat (apply elem_of_cons in Hk as [->|Hk]; [reflexivity|]).
    by apply elem_of_nil in Hk.
  - exists out. split; [exact E|]. repeat split.
    + by apply Hd.
    + by apply Hd.
    + apply Hp; [set_solver|done].
    + apply Hp; [set_solver|done].
Qed.

(** ** Facts about the document rewriter *)

Section HtmlModifierFacts.
Import Js HtmlModifier.

(** Induction on a document tree, with the hypothesis for every child. *)
Lemma node_induction (P : node -> Prop) :
  (forall data, P (Text data)) ->
  (forall data, P (Comment data)) ->
  (forall tag attrs children, Forall P children -> P (Element tag attrs children)) ->
  forall n, P n.
Proof.
  intros HT HC HE. fix IH 1. intros [data|data|tag attrs children].
  - apply HT.
  - apply HC.
  - apply HE. induction children as [|c children IHc]; constructor.
    + apply IH.
    + exact IHc.
Qed.

(** *** Appending and the count of injected scripts *)

Lemma count_children_append tag new (children : list node) :
  Forall (fun n => count_injected_in (append_to tag new n)
                   = (count_injected_in n + count_tag tag n * count_injected new)%nat)
         children ->
  list_sum (map count_injected_in (map (append_to tag new) children))
  = (list_sum (map count_injected_in children)
     + list_sum (map (count_tag tag) children) * count_injected new)%nat.
Proof.
  induction 1 as [|c children Hc _ IH]; [done|].
  unfold list_sum in *. cbn [map fold_right]. rewrite Hc, IH. lia.
Qed.

Lemma count_injected_append_to tag new n :
  count_injected_in (append_to tag new n)
  = (count_injected_in n + count_tag tag n * count_injected new)%nat.
Proof.
  induction n as [data|data|t attrs children IH] using node_induction;
    [done|done|].
  cbn [append_to count_injected_in count_tag].
  pose proof (count_children_append tag new children IH) as Hsum.
  destruct (String.eqb t tag).
  - rewrite map_app, list_sum_app, Hsum. unfold count_injected. lia.
  - rewrite Hsum. lia.
Qed.

Lemma count_injected_append_all tag new (doc : document) :
  count_injected (map (append_to tag new) doc)
  = (count_injected doc + length_of tag doc * count_injected new)%nat.
Proof.
  unfold count_injected, length_of. apply count_children_append.
  apply Forall_forall. intros n _. apply count_injected_append_to.
Qed.

(** Every application of [injectWidget] adds injected scripts: one for
    every body, failing that one for every html element, failing that
    one at the end of the document. *)
Lemma injectWidget_count (doc : document) :
  count_injected (injectWidget doc)
  = (count_injected doc
     + (if (0 <? length_of "body" doc)%nat then length_of "body" doc
        else if (0 <? length_of "html" doc)%nat then length_of "html" doc
        else 1))%nat.
Proof.
  unfold injectWidget. rewrite count_injected_append_all.
  change (count_injected navigationHandler) with 0%nat.
  destruct (0 <? length_of "body" doc)%nat.
  - rewrite count_injected_append_all.
    change (count_injected widgetScript) with 1%nat. lia.
  - destruct (0 <? length_of "html" doc)%nat.
    + rewrite count_injected_append_all.
      change (count_injected widgetScript) with 1%nat. lia.
    + unfold count_injected. rewrite map_app, list_sum_app.
      change (list_sum (map count_injected_in widgetScript)) with 1%nat. lia.
Qed.

(** *** Attributes *)

Lemma attr_get_set_eq attrs name value :
  attr_get (attr_set attrs name value) name = Some value.
Proof.
  induction attrs as [|[n v] attrs IH]; cbn.
  - by rewrite String.eqb_refl.
  - destruct (String.eqb n name) eqn:E; cbn; by rewrite E.
Qed.

Lemma attr_get_set_ne attrs name value name' :
  name <> name' ->
  attr_get (attr_set attrs name value) name' = attr_get attrs name'.
Proof.
  intros Hne. induction attrs as [|[n v] attrs IH]; cbn.
  - by apply String.eqb_neq in Hne as ->.
  - destruct (String.eqb_spec n name) as [->|Hn]; cbn.
    + by apply String.eqb_neq in Hne as ->.
    + by rewrite IH.
Qed.

Lemma protocol_relative_is_absolute url :
  startsWith url "//" = true -> isAbsoluteUrl url = true.
Proof. unfold isAbsoluteUrl. intros ->. apply orb_true_r. Qed.

(** The callback of the table loop leaves an absolute value alone,
    whichever attribute the pass is about. *)
Lemma fix_attr_keeps_absolute baseUrl parsedUrl attr attrs name value :
  attr_get attrs name = Some value -> isAbsoluteUrl value = true ->
  attr_get (fix_attr baseUrl parsedUrl attr attrs) name = Some value.
Proof.
  intros Hget Habs. unfold fix_attr.
  destruct (attr_get attrs attr) as [v|] eqn:E; [|done].
  destruct (String.eqb_spec attr name) as [->|Hne].
  - rewrite Hget in E. inversion E; subst v. rewrite Habs.
    by rewrite !andb_false_r.
  - destruct (_ && _); [|done]. by rewrite attr_get_set_ne.
Qed.

(** The callback writes the resolved URL over a value that is present,
    not empty, not a data URI and not absolute. *)
Lemma fix_attr_resolves baseUrl parsedUrl attr attrs value :
  attr_get attrs attr = Some value ->
  value <> "" -> isDataUri value = false -> isAbsoluteUrl value = false ->
  attr_get (fix_attr baseUrl parsedUrl attr attrs) attr
  = Some (if String.eqb attr "srcset"
          then fixSrcset value baseUrl parsedUrl
          else resolveUrl value baseUrl parsedUrl).
Proof.
  intros Hget Hne Hd Ha. unfold fix_attr. rewrite Hget, Hd, Ha.
  apply String.eqb_neq in Hne as ->. cbn. apply attr_get_set_eq.
Qed.

(** *** The table loop visits every element *)

Lemma map_elements_id n : map_elements (fun _ attrs => attrs) n = n.
Proof.
  induction n as [data|data|t attrs children IH] using node_induction;
    [done|done|].
  cbn. f_equal. induction IH as [|c children Hc _ IHc]; cbn; [done|].
  by rewrite Hc, IHc.
Qed.

Lemma map_elements_compose f g n :
  map_elements g (map_elements f n)
  = map_elements (fun t attrs => g t (f t attrs)) n.
Proof.
  induction n as [data|data|t attrs children IH] using node_induction;
    [done|done|].
  cbn. f_equal. induction IH as [|c children Hc _ IHc]; cbn; [done|].
  by rewrite Hc, IHc.
Qed.

Lemma run_passes_elementwise baseUrl parsedUrl ps : forall doc,
  run_passes baseUrl parsedUrl ps doc
  = map (map_elements (run_on_element baseUrl parsedUrl ps)) doc.
Proof.
  induction ps as [|[attr tag] ps IH]; intros doc.
  - cbn. induction doc as [|n doc IHd]; cbn; [done|].
    rewrite <- IHd at 1. f_equal. symmetry. apply map_elements_id.
  - change (run_passes baseUrl parsedUrl ((attr, tag) :: ps) doc)
      with (run_passes baseUrl parsedUrl ps
              (fix_tag_attr baseUrl parsedUrl attr tag doc)).
    rewrite IH. unfold fix_tag_attr. rewrite map_map.
    apply map_ext. intros n. by rewrite map_elements_compose.
Qed.

(** The document after the table loop is the document in which every
    element, at any depth, went through the passes for its tag. *)
Lemma fix_table_elementwise baseUrl parsedUrl doc :
  fix_table baseUrl parsedUrl doc
  = map (map_elements (fix_element baseUrl parsedUrl)) doc.
Proof. apply (run_passes_elementwise baseUrl parsedUrl passes). Qed.

Lemma element_at_map_elements f : forall path (doc : list node),
  element_at (map (map_elements f) doc) path
  = (fun '(t, attrs) => (t, f t attrs)) <$> element_at doc path.
Proof.
  induction path as [|i path IH]; intros doc; [done|].
  cbn [element_at]. rewrite nth_error_map.
  destruct (nth_error doc i) as [[data|data|t attrs children]|]; cbn; try done.
  destruct path as [|j path]; [done|]. apply IH.
Qed.

Lemma fix_element_keeps_absolute baseUrl parsedUrl t attrs name value :
  attr_get attrs name = Some value -> isAbsoluteUrl value = true ->
  attr_get (fix_element baseUrl parsedUrl t attrs) name = Some value.
Proof.
  intros Hget Habs.
  change (fix_element baseUrl parsedUrl t attrs)
    with (run_on_element baseUrl parsedUrl passes t attrs).
  generalize passes. intros ps. revert attrs Hget.
  induction ps as [|[attr tag] ps IH]; intros attrs Hget; [done|].
  cbn. apply IH. destruct (String.eqb t tag); [|done].
  by apply fix_attr_keeps_absolute.
Qed.

(** An attribute with an absolute value keeps it through the table
    loop, at the same place of the document. *)
Lemma fix_table_keeps_absolute baseUrl parsedUrl doc path t attrs name value :
  element_at doc path = Some (t, attrs) ->
  attr_get attrs name = Some value -> isAbsoluteUrl value = true ->
  exists attrs',
    element_at (fix_table baseUrl parsedUrl doc) path = Some (t, attrs') /\
    attr_get attrs' name = Some value.
Proof.
  intros Hat Hget Habs. rewrite fix_table_elementwise, element_at_map_elements, Hat.
  eexists. split; [reflexivity|]. by apply fix_element_keeps_absolute.
Qed.

(** A pass about another attribute leaves this one as it is. *)
Lemma fix_attr_other baseUrl parsedUrl attr attrs name :
  attr <> name ->
  attr_get (fix_attr baseUrl parsedUrl attr attrs) name = attr_get attrs name.
Proof.
  intros Hne. unfold fix_attr. destruct (attr_get attrs attr); [|done].
  destruct (_ && _); [|done]. by rewrite attr_get_set_ne.
Qed.

Lemma run_on_element_untouched baseUrl parsedUrl t name ps : forall attrs,
  (name, t) ∉ ps ->
  attr_get (run_on_element baseUrl parsedUrl ps t attrs) name = attr_get attrs name.
Proof.
  induction ps as [|[attr tag] ps IH]; intros attrs Hnin; [done|].
  apply not_elem_of_cons in Hnin as [Hne Hnin].
  change (run_on_element baseUrl parsedUrl ((attr, tag) :: ps) t attrs)
    with (run_on_element baseUrl parsedUrl ps t
            (if String.eqb t tag then fix_attr baseUrl parsedUrl attr attrs else attrs)).
  rewrite IH by done.
  destruct (String.eqb_spec t tag) as [->|]; [|done].
  apply fix_attr_other. congruence.
Qed.

Lemma run_on_element_resolves baseUrl parsedUrl t attr value ps : forall attrs,
  NoDup ps -> (attr, t) ∈ ps ->
  attr_get attrs attr = Some value ->
  value <> "" -> isDataUri value = false -> isAbsoluteUrl value = false ->
  attr_get (run_on_element baseUrl parsedUrl ps t attrs) attr
  = Some (if String.eqb attr "srcset"
          then fixSrcset value baseUrl parsedUrl
          else resolveUrl value baseUrl parsedUrl).
Proof.
  induction ps as [|[a tag] ps IH]; intros attrs Hnd Hin Hget Hne Hd Ha.
  - by apply elem_of_nil in Hin.
  - apply NoDup_cons in Hnd as [Hfresh Hnd].
    change (run_on_element baseUrl parsedUrl ((a, tag) :: ps) t attrs)
      with (run_on_element baseUrl parsedUrl ps t
              (if String.eqb t tag then fix_attr baseUrl parsedUrl a attrs else attrs)).
    apply elem_of_cons in Hin as [Heq|Hin].
    + inversion Heq; subst a tag. rewrite String.eqb_refl.
      rewrite run_on_element_untouched by done.
      by apply fix_attr_resolves.
    + apply IH; try done.
      destruct (String.eqb_spec t tag) as [->|]; [|done].
      rewrite fix_attr_other; [done|]. intros ->. by apply Hfresh.
Qed.

Lemma passes_NoDup : NoDup passes.
Proof. apply (bool_decide_unpack _). vm_compute. reflexivity. Qed.

Lemma passes_elem attr tags t :
  (attr, tags) ∈ urlAttributes -> t ∈ tags -> (attr, t) ∈ passes.
Proof.
  intros H1 H2. unfold passes. apply list_elem_of_In, in_flat_map.
  exists (attr, tags). split; [by apply list_elem_of_In|].
  apply in_map. by apply list_elem_of_In.
Qed.

(** The table loop rewrites every occurrence: wherever in the document an
    element of the table carries the attribute with a value that is not
    empty, not a data URI and not absolute, the attribute holds the
    resolved URL afterwards. *)
Lemma fix_table_rewrites_every_occurrence baseUrl parsedUrl doc path t attrs
    attr tags value :
  (attr, tags) ∈ urlAttributes -> t ∈ tags ->
  element_at doc path = Some (t, attrs) ->
  attr_get attrs attr = Some value ->
  value <> "" -> isDataUri value = false -> isAbsoluteUrl value = false ->
  exists attrs',
    element_at (fix_table baseUrl parsedUrl doc) path = Some (t, attrs') /\
    attr_get attrs' attr
    = Some (if String.eqb attr "srcset"
            then fixSrcset value baseUrl parsedUrl
            else resolveUrl value baseUrl parsedUrl).
Proof.
  intros Htab Htag Hat Hget Hne Hd Ha.
  rewrite fix_table_elementwise, element_at_map_elements, Hat.
  eexists. split; [reflexivity|].
  change (fix_element baseUrl parsedUrl t attrs)
    with (run_on_element baseUrl parsedUrl passes t attrs).
  apply run_on_element_resolves; try done.
  - apply passes_NoDup.
  - by eapply passes_elem.
Qed.

(** [modifyForms] leaves an absolute action alone. *)
Lemma modify_form_keeps_absolute targetUrl attrs value :
  attr_get attrs "action" = Some value -> isAbsoluteUrl value = true ->
  exists attrs',
    modify_form targetUrl attrs = Ok attrs' /\
    attr_get attrs' "action" = Some value.
Proof.
  intros Hget Habs. unfold modify_form.
  rewrite attr_get_set_ne by done. rewrite Hget, Habs, andb_false_r.
  eexists. split; [reflexivity|]. by rewrite attr_get_set_ne.
Qed.

(** *** What can throw inside [modifyHtml] *)

Lemma modify_form_total targetUrl parsedUrl attrs :
  Url.parse targetUrl = Some parsedUrl ->
  exists attrs', modify_form targetUrl attrs = Ok attrs'.
Proof.
  intros Hp. unfold modify_form. rewrite Hp.
  repeat case_match; by eexists.
Qed.

Lemma collect_total {A} (f : node -> result A) (l : list node) :
  Forall (fun n => exists a, f n = Ok a) l ->
  exists l', collect (map f l) = Ok l'.
Proof.
  induction 1 as [|n l [a Ha] _ [l' IH]]; cbn; [by eexists|].
  rewrite Ha, IH. by eexists.
Qed.

Lemma modify_forms_in_total targetUrl parsedUrl n :
  Url.parse targetUrl = Some parsedUrl ->
  exists n', modify_forms_in targetUrl n = Ok n'.
Proof.
  intros Hp.
  induction n as [data|data|t attrs children IH] using node_induction;
    [by eexists|by eexists|].
  cbn [modify_forms_in].
  destruct (modify_form_total targetUrl parsedUrl attrs Hp) as [attrs' Ha].
  destruct (collect_total _ _ IH) as [children' Hc].
  rewrite Ha, Hc. destruct (String.eqb t "form"); by eexists.
Qed.

Lemma modifyForms_total targetUrl parsedUrl doc :
  Url.parse targetUrl = Some parsedUrl ->
  exists doc', modifyForms targetUrl doc = Ok doc'.
Proof.
  intros Hp. apply collect_total. apply Forall_forall. intros n _.
  by eapply modify_forms_in_total.
Qed.

(** The [try] block throws only when the loader throws or the target is
    not a URL. *)
Lemma modify_throws load html_of html targetUrl error :
  modify load html_of html targetUrl = Throw error ->
  load html = Throw error \/ Url.parse targetUrl = None.
Proof.
  unfold modify. destruct (load html) as [doc|e]; cbn; [|by left; congruence].
  destruct (Url.parse targetUrl) as [parsedUrl|] eqn:Hp; [|by right].
  unfold modify_document.
  destruct (modifyForms_total targetUrl parsedUrl
              (addBaseTag targetUrl
                 (fixUrls html_of
                    (Url.protocol parsedUrl ++ "//" ++ Url.host_port parsedUrl)
                    parsedUrl (injectWidget doc))) Hp) as [doc' ->].
  discriminate.
Qed.

End HtmlModifierFacts.

(** ** Facts about the route handler *)

Section ProxyFacts.
Import Js Proxy.

Lemma validate_target_status req rejection :
  validate_target req = inl rejection ->
  status rejection = 400 \/ status rejection = 403.
Proof.
  unfold validate_target. intros H.
  destruct (negb (truthy (query_url req))); [inversion H; by left|].
  destruct (Url.parse _) as [parsedUrl|]; [|inversion H; by left].
  destruct (existsb _ blockedHosts); [inversion H; by right|].
  destruct (privateIPRegex _); [inversion H; by right|]. discriminate.
Qed.

(** A rejected target is answered before the rate-limit block: the map
    is left as it was and nothing is fetched. *)
Lemma handler_rejected_target cfg network now req requestCounts rejection :
  method req = "GET" -> validate_target req = inl rejection ->
  handler cfg network now req requestCounts = (rejection, requestCounts, []).
Proof. intros Hm Hv. unfold handler. by rewrite Hm, Hv. Qed.

Lemma rate_limit_over cfg now req requestCounts entry :
  requestCounts !! clientIP req = Some entry ->
  now <= resetTime entry -> RATE_LIMIT cfg <= count entry ->
  exists rejection requestCounts',
    rate_limit cfg now req requestCounts = (Some rejection, requestCounts') /\
    status rejection = 429 /\
    requestCounts' !! clientIP req
      = Some {| count := count entry + 1; resetTime := resetTime entry |}.
Proof.
  intros Hl Hw Hc. unfold rate_limit. rewrite Hl. cbn [default from_option id].
  gtb_false (now >? resetTime entry). cbn [count resetTime].
  gtb_true (count entry + 1 >? RATE_LIMIT cfg).
  do 2 eexists. split; [reflexivity|]. split; [done|]. apply lookup_insert_eq.
Qed.

Lemma rate_limit_new cfg now req requestCounts :
  requestCounts !! clientIP req = None -> 1 <= RATE_LIMIT cfg ->
  rate_limit cfg now req requestCounts
  = (None, <[clientIP req := {| count := 1; resetTime := now + RATE_WINDOW |}]>
             requestCounts).
Proof.
  intros Hl Hc. unfold rate_limit. rewrite Hl.
  cbn [default from_option id resetTime count].
  unfold RATE_WINDOW. gtb_false (now >? now + 60 * 1000). cbn [count resetTime].
  gtb_false (0 + 1 >? RATE_LIMIT cfg). reflexivity.
Qed.

(** A GET request whose target passes the checks, within the limit and
    without [test=true], is fetched. *)
Lemma handler_full_fetch cfg network now req requestCounts targetUrl parsedUrl
    requestCounts' :
  method req = "GET" ->
  validate_target req = inr (targetUrl, parsedUrl) ->
  rate_limit cfg now req requestCounts = (None, requestCounts') ->
  query_test req <> Some "true" ->
  handler cfg network now req requestCounts
  = (fetch cfg network req targetUrl parsedUrl, requestCounts', [Get targetUrl]).
Proof.
  intros Hm Hv Hr Ht. unfold handler. rewrite Hm, Hv, Hr. cbn [negb String.eqb].
  destruct (query_test req) as [t|]; [|done].
  by destruct (String.eqb_spec t "true") as [->|].
Qed.

(** The statuses the [catch] block can answer with. *)
Lemma on_error_status cfg error :
  status (on_error cfg error) ∈ [408; 404; 403; 502; 500].
Proof.
  unfold on_error. repeat case_match; cbn; set_solver.
Qed.

Lemma fetch_status cfg network req targetUrl parsedUrl :
  status (fetch cfg network req targetUrl parsedUrl) ∈ [200; 408; 404; 403; 502; 500].
Proof.
  unfold fetch. destruct (settle _ _) as [r|error]; cbn [status].
  - destruct (negb (valid_header_value _)).
    { pose proof (on_error_status cfg (invalid_char "Content-Type")). set_solver. }
    destruct (negb (valid_header_value _)).
    { pose proof (on_error_status cfg (invalid_char "X-Proxied-URL")). set_solver. }
    cbn [status]. set_solver.
  - pose proof (on_error_status cfg error). set_solver.
Qed.

(** An upstream status of 500 or more reaches the client as 502. *)
Lemma fetch_upstream_5xx cfg network req targetUrl parsedUrl r :
  network (Get targetUrl) = Responds r -> 500 <= up_status r ->
  fetch cfg network req targetUrl parsedUrl
  = json 502 "Target website server error".
Proof.
  intros Hn Hs. unfold fetch, settle. rewrite Hn.
  assert ((up_status r =? 0)%Z = false) as -> by lia.
  assert (validateStatus (up_status r) = false) as ->
    by (unfold validateStatus; lia).
  cbn [orb]. unfold on_error. cbn [code err_response up_status].
  assert ((up_status r =? 404)%Z = false) as -> by lia.
  assert ((up_status r =? 403)%Z = false) as -> by lia.
  assert ((up_status r >=? 500)%Z = true) as -> by lia.
  repeat case_match; try done.
  all: repeat match goal with
              | H : (_ || _) = true |- _ => apply orb_true_iff in H as [H|H]
              | H : String.eqb _ _ = true |- _ => apply String.eqb_eq in H
              end; simplify_eq.
Qed.

(** An upstream status below 500 is accepted and sent on with status
    200, when the two header values are accepted. *)
Lemma fetch_upstream_below_500 cfg network req targetUrl parsedUrl r :
  network (Get targetUrl) = Responds r -> up_status r < 500 ->
  valid_header_value (or_default (up_content_type r) "text/html") = true ->
  valid_header_value targetUrl = true ->
  status (fetch cfg network req targetUrl parsedUrl) = 200.
Proof.
  intros Hn Hs Hct Hu. unfold fetch, settle. rewrite Hn.
  assert (validateStatus (up_status r) = true) as ->
    by (unfold validateStatus; lia).
  rewrite orb_true_r. cbv zeta. by rewrite Hct, Hu.
Qed.

End ProxyFacts.

(** * The properties of the specification *)

(** C7, at an instance: a limiter of 3 requests per minute, a new client
    checked at 0 s, 1 s, 2 s and 59.999 s, and again at 60.001 s. *)
Lemma rate_limiter_fixed_window_witness :
  let o := RateLimiter.constructor
             {| RateLimiter.u_windowMs := Some 60000; RateLimiter.u_max := Some 3;
                RateLimiter.u_keyGenerator := None; RateLimiter.u_skip := None |} in
  let r := {| RateLimiter.x_forwarded_for := Some "203.0.113.7";
              RateLimiter.x_real_ip := None; RateLimiter.remoteAddress := None |} in
  exists r1 r2 r3 r4 r5 requests',
    RateLimiter.checks o
      [(0, 0); (1000, 1000); (2000, 2000); (59999, 59999); (60001, 60001)] r ∅
      = ([r1; r2; r3; r4; r5], requests') /\
    RateLimiter.admitted_with r1 /\ RateLimiter.admitted_with r2 /\
    RateLimiter.admitted_with r3 /\
    RateLimiter.rejected_with_positive_retry r4 /\
    RateLimiter.admitted_with r5 /\
    requests' !! "203.0.113.7"
      = Some {| RateLimiter.count := 1; RateLimiter.resetTime := 60001 + 60000 |}.
Proof.
  intros o r.
  destruct (rate_limiter_fixed_window o r ∅ eq_refl) as [_ H].
  apply (H eq_refl eq_refl (lookup_empty _)); lia.
Defined.

(** C1. The handler has no scheme check: the target [javascript:alert(1)]
    parses as a URL with an empty host, passes the two host checks and is
    handed to the outbound client.  Whatever the network then does, the
    handler made one FULL fetch call and the status it answers with is not
    400. *)
Theorem handler_fetches_javascript_url :
  forall network now,
    let result :=
      Proxy.handler Scenario.cfg network now (Scenario.get "javascript:alert(1)") ∅ in
    result.2 = [Proxy.Get "javascript:alert(1)"] /\
    Proxy.status result.1.1 <> 400.
Proof.
  intros network now result. subst result.
  erewrite handler_full_fetch;
    [|reflexivity|vm_compute; reflexivity|by apply rate_limit_new|done].
  split; [done|]. cbn [fst snd].
  match goal with
  | |- Proxy.status (Proxy.fetch ?c ?n ?r ?t ?p) <> _ =>
      pose proof (fetch_status c n r t p) as H
  end.
  intros E. rewrite E in H. set_solver.
Qed.

(** C2, as stated, fails: a client over its limit that asks for
    [http://localhost/] is answered 403 by the target checks, not 429. *)
Lemma admission_does_not_precede_validation :
  ~ Scenario.admission_precedes_validation.
Proof.
  intros H.
  specialize (H Scenario.cfg (Scenario.answers 200 "") 1000
                (Scenario.get "http://localhost/") Scenario.exhausted eq_refl).
  assert (Hover : Scenario.over_limit Scenario.cfg 1000
                    (Scenario.get "http://localhost/") Scenario.exhausted).
  { eexists. split; [apply lookup_singleton_eq|]. cbn. lia. }
  specialize (H Hover).
  erewrite handler_rejected_target in H; [|reflexivity|vm_compute; reflexivity].
  discriminate H.
Qed.

(** C2, amended.  The handler checks the target before it counts the
    request.  A GET request whose target fails the checks is answered 400
    or 403 whatever the state of the client's window, the rate-limit map is
    left untouched and nothing is fetched.  A GET request whose target
    passes the checks and whose client is over its limit is answered 429,
    is counted, and nothing is fetched. *)
Theorem validation_precedes_admission
    (cfg : Proxy.config) (network : Proxy.call -> Proxy.outcome) (now : Z)
    (req : Proxy.request) (requestCounts : gmap string Proxy.clientRequests) :
  Proxy.method req = "GET" ->
  (forall rejection,
      Proxy.validate_target req = inl rejection ->
      Proxy.handler cfg network now req requestCounts = (rejection, requestCounts, []) /\
      (Proxy.status rejection = 400 \/ Proxy.status rejection = 403)) /\
  (forall target,
      Proxy.validate_target req = inr target ->
      Scenario.over_limit cfg now req requestCounts ->
      exists rejection requestCounts',
        Proxy.handler cfg network now req requestCounts = (rejection, requestCounts', []) /\
        Proxy.status rejection = 429 /\
        exists entry,
          requestCounts !! Proxy.clientIP req = Some entry /\
          requestCounts' !! Proxy.clientIP req
            = Some {| Proxy.count := Proxy.count entry + 1;
                      Proxy.resetTime := Proxy.resetTime entry |}).
Proof.
  intros Hm. split.
  - intros rejection Hv. split.
    + by apply handler_rejected_target.
    + by eapply validate_target_status.
  - intros [targetUrl parsedUrl] Hv (entry & Hl & Hw & Hc).
    destruct (rate_limit_over cfg now req requestCounts entry Hl Hw Hc)
      as (rejection & requestCounts' & Hr & Hs & Hl').
    exists rejection, requestCounts'. split; [|split; [done|by exists entry]].
    unfold Proxy.handler. by rewrite Hm, Hv, Hr.
Qed.

(** C2 amended, at two requests of the client that used up its window:
    one for [http://localhost/], one for [https://example.com]. *)
Lemma validation_precedes_admission_witness :
  (Proxy.handler Scenario.cfg (Scenario.answers 200 "") 1000
     (Scenario.get "http://localhost/") Scenario.exhausted
   = (Proxy.json 403 "Access to local addresses is not allowed",
      Scenario.exhausted, [])) /\
  (exists rejection requestCounts',
      Proxy.handler Scenario.cfg (Scenario.answers 200 "") 1000
        (Scenario.get "https://example.com") Scenario.exhausted
      = (rejection, requestCounts', []) /\
      Proxy.status rejection = 429).
Proof.
  split.
  - apply (validation_precedes_admission Scenario.cfg (Scenario.answers 200 "") 1000
             (Scenario.get "http://localhost/") Scenario.exhausted eq_refl).
    vm_compute. reflexivity.
  - destruct (validation_precedes_admission Scenario.cfg (Scenario.answers 200 "") 1000
                (Scenario.get "https://example.com") Scenario.exhausted eq_refl)
      as [_ H].
    edestruct H as (rejection & requestCounts' & Hh & Hs & _).
    + vm_compute. reflexivity.
    + eexists. split; [apply lookup_singleton_eq|]. cbn. lia.
    + by exists rejection, requestCounts'.
Defined.

(** C5. The fetch accepts every upstream status below 500, and the handler
    sends what it got with status 200: an upstream 404 reaches the client
    as 200 with the upstream body, not as 404. *)
Theorem upstream_404_answered_with_200 :
  forall now data,
    let result :=
      Proxy.handler Scenario.cfg (Scenario.answers 404 data) now
        (Scenario.get "https://example.com") ∅ in
    Proxy.status result.1.1 = 200 /\
    Proxy.content result.1.1 = Proxy.Send data /\
    result.2 = [Proxy.Get "https://example.com"].
Proof.
  intros now data result. subst result.
  erewrite handler_full_fetch;
    [|reflexivity|vm_compute; reflexivity|by apply rate_limit_new|done].
  cbn [fst snd]. repeat split.
Qed.

(** C6. The handler's own rewriting of relative links uses a regular
    expression without the global flag: of two links with absolute paths
    only the first is rewritten. *)
Theorem fallback_rewrites_first_link_only :
  Proxy.fix_relative_links "https://example.com" Scenario.two_links
  = Scenario.two_links_rewritten.
Proof. vm_compute. reflexivity. Qed.

(** C8. An absolute path is appended to the origin, the path of the
    document being ignored; a relative reference is resolved against the
    directory of the document. *)
Theorem resolveUrl_examples :
  (exists parsedUrl,
      Url.parse "https://example.com/x/" = Some parsedUrl /\
      HtmlModifier.resolveUrl "/a/b" "https://example.com" parsedUrl
      = "https://example.com/a/b") /\
  (exists parsedUrl,
      Url.parse "https://example.com/x/y" = Some parsedUrl /\
      Url.protocol parsedUrl ++ "//" ++ Url.host_port parsedUrl = "https://example.com" /\
      HtmlModifier.resolveUrl "c.css" "https://example.com" parsedUrl
      = "https://example.com/x/c.css").
Proof.
  split; eexists; (split; [reflexivity|]); vm_compute; auto.
Qed.

Lemma passes_inv attr t :
  (attr, t) ∈ HtmlModifier.passes ->
  exists tags, (attr, tags) ∈ HtmlModifier.urlAttributes /\ t ∈ tags.
Proof.
  unfold HtmlModifier.passes. intros H.
  apply list_elem_of_In, in_flat_map in H as ([a tags] & Hin & H).
  apply in_map_iff in H as (t' & [= <- <-] & Ht).
  exists tags. split; by apply list_elem_of_In.
Qed.

Lemma prefix_of_app (pre l : Js.chars) :
  Js.prefix_of pre l = true -> exists rest, l = (pre ++ rest)%list.
Proof.
  revert l. induction pre as [|a pre IH]; intros l H; [by exists l|].
  destruct l as [|b l]; [done|]. cbn in H.
  apply andb_true_iff in H as [Hab Hl]. apply Ascii.eqb_eq in Hab as ->.
  destruct (IH l Hl) as [rest ->]. by exists rest.
Qed.

Lemma startsWith_app (s pre : string) :
  Js.startsWith s pre = true -> exists rest, s = pre ++ rest.
Proof.
  unfold Js.startsWith, Js.to_chars. intros H.
  destruct (prefix_of_app _ _ H) as [rest Hr]. exists (string_of_list_ascii rest).
  rewrite <- (string_of_list_ascii_of_string s), Hr.
  rewrite <- (string_of_list_ascii_of_string pre) at 2.
  generalize (list_ascii_of_string pre). intros l.
  induction l as [|a l IH]; [done|]. cbn. by rewrite IH.
Qed.

Lemma string_length_app (s t : string) :
  String.length (s ++ t) = (String.length s + String.length t)%nat.
Proof.
  induction s as [|c s IH]; [done|].
  cbn [String.length Nat.add]. rewrite <- IH. reflexivity.
Qed.

Lemma to_chars_app (s t : string) :
  Js.to_chars (s ++ t) = (Js.to_chars s ++ Js.to_chars t)%list.
Proof.
  unfold Js.to_chars. induction s as [|c s IH]; [done|].
  change (list_ascii_of_string (String c s +:+ t))
    with (c :: list_ascii_of_string (s +:+ t)).
  by rewrite IH.
Qed.

Lemma of_chars_app (l k : Js.chars) :
  Js.of_chars (l ++ k)%list = Js.of_chars l ++ Js.of_chars k.
Proof.
  unfold Js.of_chars. induction l as [|c l IH]; [done|].
  cbn [app string_of_list_ascii]. rewrite IH. reflexivity.
Qed.

Lemma of_to_chars (s : string) : Js.of_chars (Js.to_chars s) = s.
Proof. apply string_of_list_ascii_of_string. Qed.

Lemma to_chars_inj (s t : string) : Js.to_chars s = Js.to_chars t -> s = t.
Proof. intros H. by rewrite <- (of_to_chars s), <- (of_to_chars t), H. Qed.

(** *** The replacement text without substitution patterns *)

Lemma substitute_plain matched before after captures : forall tpl,
  existsb (Js.is_char "$") tpl = false ->
  Js.substitute tpl matched before after captures = tpl.
Proof.
  induction tpl as [|c tl IH]; intros H; [done|].
  cbn [existsb] in H. apply orb_false_iff in H as [Hc Htl].
  cbn [Js.substitute]. rewrite Hc. by rewrite IH.
Qed.

Lemma prefix_of_drop (pat l : Js.chars) :
  Js.prefix_of pat l = true -> l = (pat ++ skipn (List.length pat) l)%list.
Proof.
  intros H. destruct (prefix_of_app pat l H) as [rest ->].
  by rewrite drop_app_length.
Qed.

Lemma find_sub_spec (pat : Js.chars) : forall l before after,
  Js.find_sub pat l = Some (before, after) -> l = (before ++ pat ++ after)%list.
Proof.
  induction l as [|c l IH]; intros before after H.
  - cbn [Js.find_sub] in H. destruct (Js.prefix_of pat []) eqn:Hp; [|done].
    injection H as <- <-. by apply prefix_of_drop.
  - cbn [Js.find_sub] in H. destruct (Js.prefix_of pat (c :: l)) eqn:Hp.
    + injection H as <- <-. by apply prefix_of_drop.
    + destruct (Js.find_sub pat l) as [[b a]|] eqn:E; [|done].
      injection H as <- <-. cbn [app]. f_equal. by apply IH.
Qed.

(** A replacement that puts a text without dollar signs before the first
    occurrence of a pattern inserts that text, whole, at one place. *)
Lemma replace_inserts (html pattern inserted : string) :
  Js.has_dollar inserted = false -> Js.has_dollar pattern = false ->
  Js.includes html pattern = true ->
  exists before after,
    html = before ++ after /\
    Js.replace html pattern (inserted ++ pattern) = before ++ inserted ++ after.
Proof.
  unfold Js.has_dollar, Js.includes, Js.replace. intros Hi Hp Hinc.
  destruct (Js.find_sub (Js.to_chars pattern) (Js.to_chars html)) as [[b a]|] eqn:E;
    [|done].
  apply find_sub_spec in E.
  exists (Js.of_chars b), (pattern ++ Js.of_chars a). split.
  - apply to_chars_inj. rewrite E, !to_chars_app.
    unfold Js.to_chars, Js.of_chars. by rewrite !list_ascii_of_string_of_list_ascii.
  - rewrite substitute_plain
      by (rewrite to_chars_app, existsb_app, Hi, Hp; reflexivity).
    apply to_chars_inj. rewrite !to_chars_app.
    unfold Js.to_chars, Js.of_chars. rewrite !list_ascii_of_string_of_list_ascii.
    by rewrite <- !app_assoc.
Qed.

Lemma widgetScript_has_no_dollar protocol host :
  Js.has_dollar protocol = false -> Js.has_dollar host = false ->
  Js.has_dollar (Proxy.widgetScript protocol host) = false.
Proof.
  unfold Js.has_dollar, Proxy.widgetScript. intros Hp Hh.
  rewrite !to_chars_app, !existsb_app, Hp, Hh. reflexivity.
Qed.

Lemma inject_widget_inserts (script html : string) :
  Js.has_dollar script = false ->
  exists before after,
    html = before ++ after /\
    Proxy.inject_widget script html = before ++ script ++ after.
Proof.
  intros Hs. unfold Proxy.inject_widget.
  destruct (Js.includes html "</head>") eqn:Hhead.
  { by apply replace_inserts. }
  destruct (Js.includes html "</body>") eqn:Hbody.
  { by apply replace_inserts. }
  exists html, "". split; apply to_chars_inj; rewrite !to_chars_app;
    by rewrite ?app_nil_r.
Qed.

(** *** The steps of [modifyHtml] and the count of injected scripts *)

Lemma count_injected_map_elements f n :
  (forall t attrs, HtmlModifier.is_injected t (f t attrs)
                   = HtmlModifier.is_injected t attrs) ->
  HtmlModifier.count_injected_in (HtmlModifier.map_elements f n)
  = HtmlModifier.count_injected_in n.
Proof.
  intros Hf.
  induction n as [data|data|t attrs children IH] using node_induction; [done|done|].
  cbn [HtmlModifier.map_elements HtmlModifier.count_injected_in]. rewrite Hf.
  f_equal. unfold list_sum. induction IH as [|c cs Hc _ IHcs]; [done|].
  cbn [map fold_right]. by rewrite Hc, IHcs.
Qed.

Lemma count_injected_map_all f (doc : HtmlModifier.document) :
  (forall t attrs, HtmlModifier.is_injected t (f t attrs)
                   = HtmlModifier.is_injected t attrs) ->
  HtmlModifier.count_injected (map (HtmlModifier.map_elements f) doc)
  = HtmlModifier.count_injected doc.
Proof.
  intros Hf. unfold HtmlModifier.count_injected, list_sum.
  induction doc as [|n doc IH]; [done|].
  cbn [map fold_right]. by rewrite count_injected_map_elements, IH.
Qed.

Lemma count_injected_fix_table baseUrl parsedUrl doc :
  HtmlModifier.count_injected (HtmlModifier.fix_table baseUrl parsedUrl doc)
  = HtmlModifier.count_injected doc.
Proof.
  rewrite fix_table_elementwise. apply count_injected_map_all.
  intros t attrs. unfold HtmlModifier.is_injected. f_equal.
  change (HtmlModifier.fix_element baseUrl parsedUrl t attrs)
    with (HtmlModifier.run_on_element baseUrl parsedUrl HtmlModifier.passes t attrs).
  rewrite run_on_element_untouched; [done|].
  intros Hin. apply passes_inv in Hin as (tags & Hin & _).
  unfold HtmlModifier.urlAttributes in Hin. set_unfold in Hin. naive_solver.
Qed.

Lemma count_injected_fix_style_attrs baseUrl parsedUrl doc :
  HtmlModifier.count_injected (HtmlModifier.fix_style_attrs baseUrl parsedUrl doc)
  = HtmlModifier.count_injected doc.
Proof.
  apply count_injected_map_all. intros t attrs.
  unfold HtmlModifier.is_injected. f_equal.
  destruct (HtmlModifier.attr_get attrs "style") as [style|]; [|done].
  destruct (String.eqb style ""); [done|].
  by rewrite attr_get_set_ne.
Qed.

Lemma text_nodes_hold_no_script (l : list HtmlModifier.node) :
  forallb HtmlModifier.is_text l = true ->
  list_sum (map HtmlModifier.count_injected_in l) = 0%nat.
Proof.
  unfold list_sum. induction l as [|n l IH]; [done|]. cbn [forallb map fold_right].
  intros H. apply andb_true_iff in H as [Hn Hl]. rewrite (IH Hl).
  by destruct n.
Qed.

Lemma text_nodes_map_content tag g (l : list HtmlModifier.node) :
  forallb HtmlModifier.is_text l = true ->
  map (HtmlModifier.map_content tag g) l = l.
Proof.
  induction l as [|n l IH]; [done|]. cbn [forallb map].
  intros H. apply andb_true_iff in H as [Hn Hl]. rewrite (IH Hl).
  by destruct n.
Qed.

Lemma count_injected_style_content (html_of : HtmlModifier.document -> string)
    (rewrite : string -> string) n :
  HtmlModifier.style_holds_text_in n = true ->
  HtmlModifier.count_injected_in
    (HtmlModifier.map_content "style"
       (fun children =>
          if String.eqb (html_of children) "" then children
          else [HtmlModifier.Text (rewrite (html_of children))]) n)
  = HtmlModifier.count_injected_in n.
Proof.
  induction n as [data|data|t attrs children IH] using node_induction; [done|done|].
  cbn [HtmlModifier.style_holds_text_in HtmlModifier.map_content
       HtmlModifier.count_injected_in].
  intros H. apply andb_true_iff in H as [Hstyle Hch]. f_equal.
  destruct (String.eqb t "style").
  - rewrite (text_nodes_map_content _ _ _ Hstyle).
    rewrite (text_nodes_hold_no_script _ Hstyle).
    destruct (String.eqb (html_of children) ""); [|done].
    by apply text_nodes_hold_no_script.
  - unfold list_sum. induction IH as [|c cs Hc _ IHcs]; [done|].
    cbn [forallb] in Hch. apply andb_true_iff in Hch as [H1 H2].
    cbn [map fold_right]. by rewrite Hc, IHcs.
Qed.

Lemma count_injected_fix_style_elements html_of baseUrl parsedUrl doc :
  HtmlModifier.style_holds_text doc = true ->
  HtmlModifier.count_injected
    (HtmlModifier.fix_style_elements html_of baseUrl parsedUrl doc)
  = HtmlModifier.count_injected doc.
Proof.
  unfold HtmlModifier.style_holds_text, HtmlModifier.fix_style_elements,
    HtmlModifier.count_injected, list_sum.
  induction doc as [|n doc IH]; [done|]. cbn [forallb map fold_right].
  intros H. apply andb_true_iff in H as [Hn Hdoc]. rewrite (IH Hdoc). f_equal.
  by apply (count_injected_style_content html_of
              (fun css => HtmlModifier.fixCssUrls css baseUrl parsedUrl)).
Qed.

Lemma is_text_map_elements f n :
  HtmlModifier.is_text (HtmlModifier.map_elements f n) = HtmlModifier.is_text n.
Proof. by destruct n. Qed.

Lemma style_holds_text_map_elements f n :
  HtmlModifier.style_holds_text_in (HtmlModifier.map_elements f n)
  = HtmlModifier.style_holds_text_in n.
Proof.
  induction n as [data|data|t attrs children IH] using node_induction; [done|done|].
  cbn [HtmlModifier.map_elements HtmlModifier.style_holds_text_in].
  f_equal.
  - destruct (String.eqb t "style"); [|done].
    induction children as [|c cs IHcs]; [done|]. cbn [map forallb].
    rewrite is_text_map_elements, IHcs; [done|]. by inversion IH.
  - induction IH as [|c cs Hc _ IHcs]; [done|]. cbn [map forallb].
    by rewrite Hc, IHcs.
Qed.

Lemma style_holds_text_map_all f (doc : HtmlModifier.document) :
  HtmlModifier.style_holds_text (map (HtmlModifier.map_elements f) doc)
  = HtmlModifier.style_holds_text doc.
Proof.
  unfold HtmlModifier.style_holds_text.
  induction doc as [|n doc IH]; [done|]. cbn [map forallb].
  by rewrite style_holds_text_map_elements, IH.
Qed.

Lemma is_text_append_to tag new n :
  HtmlModifier.is_text (HtmlModifier.append_to tag new n) = HtmlModifier.is_text n.
Proof. by destruct n. Qed.

Lemma style_holds_text_append_to tag new n :
  String.eqb tag "style" = false ->
  forallb HtmlModifier.style_holds_text_in new = true ->
  HtmlModifier.style_holds_text_in (HtmlModifier.append_to tag new n)
  = HtmlModifier.style_holds_text_in n.
Proof.
  intros Htag Hnew.
  induction n as [data|data|t attrs children IH] using node_induction; [done|done|].
  cbn [HtmlModifier.append_to HtmlModifier.style_holds_text_in].
  assert (forallb HtmlModifier.style_holds_text_in
            (map (HtmlModifier.append_to tag new) children)
          = forallb HtmlModifier.style_holds_text_in children) as Hch.
  { induction IH as [|c cs Hc _ IHcs]; [done|]. cbn [map forallb].
    by rewrite Hc, IHcs. }
  assert (forallb HtmlModifier.is_text (map (HtmlModifier.append_to tag new) children)
          = forallb HtmlModifier.is_text children) as Htext.
  { clear. induction children as [|c cs IHcs]; [done|]. cbn [map forallb].
    by rewrite is_text_append_to, IHcs. }
  destruct (String.eqb_spec t tag) as [->|Hne].
  - rewrite Htag, forallb_app, Hch, Hnew. by rewrite andb_true_r.
  - by rewrite Hch, Htext.
Qed.

Lemma style_holds_text_append_all tag new (doc : HtmlModifier.document) :
  String.eqb tag "style" = false ->
  forallb HtmlModifier.style_holds_text_in new = true ->
  HtmlModifier.style_holds_text (map (HtmlModifier.append_to tag new) doc)
  = HtmlModifier.style_holds_text doc.
Proof.
  intros Htag Hnew. unfold HtmlModifier.style_holds_text.
  induction doc as [|n doc IH]; [done|]. cbn [map forallb].
  by rewrite style_holds_text_append_to, IH.
Qed.

Lemma style_holds_text_injectWidget (doc : HtmlModifier.document) :
  HtmlModifier.style_holds_text (HtmlModifier.injectWidget doc)
  = HtmlModifier.style_holds_text doc.
Proof.
  unfold HtmlModifier.injectWidget.
  rewrite style_holds_text_append_all by reflexivity.
  destruct (0 <? HtmlModifier.length_of "body" doc)%nat.
  { by apply style_holds_text_append_all. }
  destruct (0 <? HtmlModifier.length_of "html" doc)%nat.
  { by apply style_holds_text_append_all. }
  unfold HtmlModifier.style_holds_text. rewrite forallb_app.
  change (forallb HtmlModifier.style_holds_text_in HtmlModifier.widgetScript)
    with true.
  by rewrite andb_true_r.
Qed.

Lemma count_injected_prepend_to tag new n :
  HtmlModifier.count_injected_in (HtmlModifier.prepend_to tag new n)
  = (HtmlModifier.count_injected_in n
     + HtmlModifier.count_tag tag n * HtmlModifier.count_injected new)%nat.
Proof.
  induction n as [data|data|t attrs children IH] using node_induction; [done|done|].
  cbn [HtmlModifier.prepend_to HtmlModifier.count_injected_in HtmlModifier.count_tag].
  assert (list_sum (map HtmlModifier.count_injected_in
                      (map (HtmlModifier.prepend_to tag new) children))
          = (list_sum (map HtmlModifier.count_injected_in children)
             + list_sum (map (HtmlModifier.count_tag tag) children)
               * HtmlModifier.count_injected new)%nat) as Hch.
  { unfold list_sum. induction IH as [|c cs Hc _ IHcs]; [done|].
    cbn [map fold_right]. rewrite Hc, IHcs. lia. }
  destruct (String.eqb t tag).
  - rewrite map_app, list_sum_app, Hch. unfold HtmlModifier.count_injected. lia.
  - rewrite Hch. lia.
Qed.

Lemma count_injected_addBaseTag targetUrl (doc : HtmlModifier.document) :
  HtmlModifier.count_injected (HtmlModifier.addBaseTag targetUrl doc)
  = HtmlModifier.count_injected doc.
Proof.
  unfold HtmlModifier.addBaseTag.
  destruct (HtmlModifier.length_of "base" doc =? 0)%nat; [|done].
  unfold HtmlModifier.count_injected at 1 2. unfold list_sum.
  induction doc as [|n doc IH]; [done|]. cbn [map fold_right].
  rewrite count_injected_prepend_to, IH.
  change (HtmlModifier.count_injected (HtmlModifier.base_tag targetUrl)) with 0%nat.
  lia.
Qed.

Lemma collect_sum {A} (f : HtmlModifier.node -> Js.result A)
    (before : HtmlModifier.node -> nat) (after : A -> nat) :
  forall (l : list HtmlModifier.node) l',
    Forall (fun n => forall a, f n = Js.Ok a -> after a = before n) l ->
    HtmlModifier.collect (map f l) = Js.Ok l' ->
    list_sum (map after l') = list_sum (map before l).
Proof.
  unfold list_sum.
  induction l as [|n l IH]; intros l' Hall Hc.
  - by injection Hc as <-.
  - cbn [map HtmlModifier.collect] in Hc.
    destruct (f n) as [a|e] eqn:Ef; [|done]. cbn [Js.bind] in Hc.
    destruct (HtmlModifier.collect (map f l)) as [l''|e] eqn:El; [|done].
    cbn [Js.bind] in Hc. injection Hc as <-.
    inversion Hall as [|? ? Hn Hl]; subst.
    cbn [map fold_right]. by rewrite (Hn a Ef), (IH l'' Hl eq_refl).
Qed.

Lemma count_injected_modify_forms_in targetUrl n :
  forall n', HtmlModifier.modify_forms_in targetUrl n = Js.Ok n' ->
             HtmlModifier.count_injected_in n' = HtmlModifier.count_injected_in n.
Proof.
  induction n as [data|data|t attrs children IH] using node_induction;
    intros n' H; [by injection H as <-|by injection H as <-|].
  cbn [HtmlModifier.modify_forms_in] in H.
  destruct (if String.eqb t "form" then _ else _) as [attrs'|e] eqn:Ea; [|done].
  cbn [Js.bind] in H.
  destruct (HtmlModifier.collect _) as [children'|e] eqn:Ec; [|done].
  cbn [Js.bind] in H. injection H as <-.
  cbn [HtmlModifier.count_injected_in].
  rewrite (collect_sum _ HtmlModifier.count_injected_in HtmlModifier.count_injected_in
             children children' IH Ec).
  f_equal. unfold HtmlModifier.is_injected.
  destruct (String.eqb_spec t "form") as [->|_]; [done|].
  by injection Ea as <-.
Qed.

Lemma count_injected_modifyForms targetUrl (doc doc' : HtmlModifier.document) :
  HtmlModifier.modifyForms targetUrl doc = Js.Ok doc' ->
  HtmlModifier.count_injected doc' = HtmlModifier.count_injected doc.
Proof.
  unfold HtmlModifier.modifyForms, HtmlModifier.count_injected. intros H.
  apply (collect_sum (HtmlModifier.modify_forms_in targetUrl)
           HtmlModifier.count_injected_in HtmlModifier.count_injected_in
           doc doc'); [|done].
  apply Forall_forall. intros n _ n'. apply count_injected_modify_forms_in.
Qed.

(** C4, as stated, fails.  In the document rewriter a second application
    of [injectWidget] to the page of the specification's scenario leaves
    two injected scripts where the first left one; the handler's own
    injection behaves alike on the markup of the same page. *)
Lemma second_rewrite_duplicates_script :
  ~ Scenario.injection_idempotent /\
  (exists parsedUrl,
      Url.parse "https://example.com" = Some parsedUrl /\
      let rewrite :=
        Proxy.rewrite_html (Scenario.get "https://example.com")
          "https://example.com" parsedUrl in
      let script := Js.to_chars (Proxy.widgetScript "https" "replicator.example") in
      Js.count_sub script (Js.to_chars (rewrite Scenario.page_markup)) = 1%nat /\
      Js.count_sub script (Js.to_chars (rewrite (rewrite Scenario.page_markup))) = 2%nat).
Proof.
  split.
  - intros H. specialize (H Scenario.page). vm_compute in H. discriminate H.
  - eexists. split; [reflexivity|]. vm_compute. auto.
Qed.

(** C4, amended.  Neither injection looks for a script that is already
    there, and the marker attribute is written but never read.
    [injectWidget] adds at least one injected script to every document
    tree, whatever the tree holds already.  So do the four steps of
    [modifyHtml] together: when they return, for a tree in which style
    elements hold only text and a target that the markup of the base tag
    holds as it stands, the document has more injected scripts than the
    tree had.  The injection of the handler inserts its script tag, whole
    and at one place, into every markup, for a forwarded protocol and host
    without dollar sign: each application makes the markup longer by the
    length of the tag, and a second application never returns what the
    first returned.  URLs that are already absolute are not prefixed
    again: an attribute whose value is absolute has the same value after
    the table loop of [fixUrls]. *)
Theorem injection_repeats_and_absolute_urls_stay :
  (forall doc,
      (HtmlModifier.count_injected doc
       < HtmlModifier.count_injected (HtmlModifier.injectWidget doc))%nat) /\
  (forall html_of targetUrl parsedUrl doc doc',
      HtmlModifier.style_holds_text doc = true ->
      HtmlModifier.attribute_safe targetUrl = true ->
      HtmlModifier.modify_document html_of targetUrl parsedUrl doc = Js.Ok doc' ->
      (HtmlModifier.count_injected doc < HtmlModifier.count_injected doc')%nat) /\
  (forall protocol host html,
      Js.has_dollar protocol = false -> Js.has_dollar host = false ->
      let script := Proxy.widgetScript protocol host in
      (exists before after,
          html = before ++ after /\
          Proxy.inject_widget script html = before ++ script ++ after) /\
      String.length (Proxy.inject_widget script html)
      = (String.length html + String.length script)%nat /\
      Proxy.inject_widget script (Proxy.inject_widget script html)
      <> Proxy.inject_widget script html) /\
  (forall baseUrl parsedUrl doc path t attrs name value,
      HtmlModifier.element_at doc path = Some (t, attrs) ->
      HtmlModifier.attr_get attrs name = Some value ->
      HtmlModifier.isAbsoluteUrl value = true ->
      exists attrs',
        HtmlModifier.element_at (HtmlModifier.fix_table baseUrl parsedUrl doc) path
          = Some (t, attrs') /\
        HtmlModifier.attr_get attrs' name = Some value).
Proof.
  assert (Hgrow : forall doc,
             (HtmlModifier.count_injected doc
              < HtmlModifier.count_injected (HtmlModifier.injectWidget doc))%nat).
  { intros doc. rewrite injectWidget_count.
    destruct (0 <? HtmlModifier.length_of "body" doc)%nat eqn:Hb;
      [apply Nat.ltb_lt in Hb; lia|].
    destruct (0 <? HtmlModifier.length_of "html" doc)%nat eqn:Hh;
      [apply Nat.ltb_lt in Hh; lia|]. lia. }
  split; [exact Hgrow|]. split; [|split].
  - intros html_of targetUrl parsedUrl doc doc' Hstyle _ Hm.
    unfold HtmlModifier.modify_document in Hm. cbv zeta in Hm.
    apply count_injected_modifyForms in Hm. rewrite Hm.
    rewrite count_injected_addBaseTag. unfold HtmlModifier.fixUrls.
    rewrite count_injected_fix_style_elements.
    + rewrite count_injected_fix_style_attrs, count_injected_fix_table.
      apply Hgrow.
    + unfold HtmlModifier.fix_style_attrs.
      rewrite style_holds_text_map_all, fix_table_elementwise,
        style_holds_text_map_all, style_holds_text_injectWidget.
      exact Hstyle.
  - intros protocol host html Hp Hh script.
    pose proof (widgetScript_has_no_dollar protocol host Hp Hh) as Hs.
    fold script in Hs.
    assert (Hlen : forall h,
               String.length (Proxy.inject_widget script h)
               = (String.length h + String.length script)%nat).
    { intros h. destruct (inject_widget_inserts script h Hs) as (b & a & -> & ->).
      rewrite !string_length_app. lia. }
    split; [by apply inject_widget_inserts|]. split; [apply Hlen|].
    intros Heq. apply (f_equal String.length) in Heq. rewrite Hlen in Heq.
    assert (0 < String.length script)%nat; [|lia].
    unfold script, Proxy.widgetScript. rewrite string_length_app.
    cbn [String.length]. lia.
  - intros. by eapply fix_table_keeps_absolute.
Qed.

(** C4 amended, at the page of the scenario: the four steps of
    [modifyHtml] on its tree, the injection of the handler on its markup,
    and a link that is already absolute. *)
Lemma injection_repeats_and_absolute_urls_stay_witness :
  (exists parsedUrl doc',
      Url.parse "https://example.com/" = Some parsedUrl /\
      HtmlModifier.modify_document Scenario.html_of "https://example.com/" parsedUrl
        Scenario.page = Js.Ok doc' /\
      (HtmlModifier.count_injected Scenario.page
       < HtmlModifier.count_injected doc')%nat) /\
  (let script := Proxy.widgetScript "https" "replicator.example" in
   String.length (Proxy.inject_widget script
                    (Proxy.inject_widget script Scenario.page_markup))
   = (String.length Scenario.page_markup + String.length script
      + String.length script)%nat) /\
  (exists parsedUrl attrs',
      Url.parse "https://example.com/x/y" = Some parsedUrl /\
      HtmlModifier.element_at
        (HtmlModifier.fix_table "https://example.com" parsedUrl
           [ HtmlModifier.Element "body" []
               [ HtmlModifier.Element "a" [("href", "https://example.com/a")] [] ] ])
        [0; 0]%nat
      = Some ("a", attrs') /\
      HtmlModifier.attr_get attrs' "href" = Some "https://example.com/a").
Proof.
  destruct injection_repeats_and_absolute_urls_stay as (_ & Hsteps & Hinline & Habs).
  split; [|split].
  - destruct (Url.parse "https://example.com/") as [p|] eqn:Hp;
      [|by vm_compute in Hp].
    destruct (HtmlModifier.modify_document Scenario.html_of "https://example.com/" p
                Scenario.page) as [doc'|e] eqn:Hm.
    + exists p, doc'. split; [done|]. split; [done|].
      by apply (Hsteps Scenario.html_of "https://example.com/" p Scenario.page doc').
    + vm_compute in Hp. injection Hp as <-. by vm_compute in Hm.
  - intros script.
    destruct (Hinline "https" "replicator.example" Scenario.page_markup eq_refl eq_refl)
      as (_ & Hlen1 & _).
    destruct (Hinline "https" "replicator.example"
                (Proxy.inject_widget script Scenario.page_markup) eq_refl eq_refl)
      as (_ & Hlen2 & _).
    fold script in Hlen1, Hlen2. by rewrite Hlen2, Hlen1.
  - eexists.
    edestruct (Habs "https://example.com"
                 {| Url.scheme := "https"; Url.username := ""; Url.password := "";
                    Url.host := Some "example.com"; Url.port := "";
                    Url.path := ["x"; "y"]; Url.opaque := None; Url.query := None;
                    Url.fragment := None |}
                 [ HtmlModifier.Element "body" []
                     [ HtmlModifier.Element "a" [("href", "https://example.com/a")] [] ] ]
                 [0; 0]%nat "a" [("href", "https://example.com/a")] "href"
                 "https://example.com/a" eq_refl eq_refl eq_refl)
      as (attrs' & Hat & Hget).
    exists attrs'. split; [reflexivity|]. split; [exact Hat|exact Hget].
Defined.

(** C9. Whenever the body of the [try] block of [modifyHtml] throws, the
    result is the input markup itself; that is the case when the loader
    throws on the markup and when the target is not a URL. *)
Theorem modifyHtml_returns_original_on_exception
    (load : string -> Js.result HtmlModifier.document)
    (html_of : HtmlModifier.document -> string) (html targetUrl : string) :
  (forall error,
      HtmlModifier.modify load html_of html targetUrl = Js.Throw error ->
      HtmlModifier.modifyHtml load html_of html targetUrl = html) /\
  (forall error,
      load html = Js.Throw error ->
      HtmlModifier.modifyHtml load html_of html targetUrl = html) /\
  (Url.parse targetUrl = None ->
   HtmlModifier.modifyHtml load html_of html targetUrl = html).
Proof.
  unfold HtmlModifier.modifyHtml. repeat split.
  - by intros error ->.
  - intros error E. unfold HtmlModifier.modify. by rewrite E.
  - intros E. unfold HtmlModifier.modify. rewrite E.
    by destruct (load html).
Qed.

(** C9, at a target that is not a URL. *)
Lemma modifyHtml_returns_original_on_exception_witness :
  HtmlModifier.modify Scenario.load_text Scenario.html_of "Hi" "not a url"
    = Js.Throw "TypeError: Invalid URL" /\
  HtmlModifier.modifyHtml Scenario.load_text Scenario.html_of "Hi" "not a url" = "Hi".
Proof.
  split; [reflexivity|].
  destruct (modifyHtml_returns_original_on_exception
              Scenario.load_text Scenario.html_of "Hi" "not a url") as (H & _ & _).
  apply (H "TypeError: Invalid URL"). reflexivity.
Defined.

(** C10. A value that begins with two slashes counts as absolute, and the
    rewriter leaves it as it is: after the table loop of [fixUrls] the
    attribute has the same value at the same place of the document, and
    [modifyForms] keeps such an action. *)
Theorem protocol_relative_left_unchanged (value : string) :
  Js.startsWith value "//" = true ->
  HtmlModifier.isAbsoluteUrl value = true /\
  (forall baseUrl parsedUrl doc path t attrs name,
      HtmlModifier.element_at doc path = Some (t, attrs) ->
      HtmlModifier.attr_get attrs name = Some value ->
      exists attrs',
        HtmlModifier.element_at (HtmlModifier.fix_table baseUrl parsedUrl doc) path
          = Some (t, attrs') /\
        HtmlModifier.attr_get attrs' name = Some value) /\
  (forall targetUrl attrs,
      HtmlModifier.attr_get attrs "action" = Some value ->
      exists attrs',
        HtmlModifier.modify_form targetUrl attrs = Js.Ok attrs' /\
        HtmlModifier.attr_get attrs' "action" = Some value).
Proof.
  intros Hpr. pose proof (protocol_relative_is_absolute value Hpr) as Habs.
  split; [exact Habs|]. split.
  - intros. by eapply fix_table_keeps_absolute.
  - intros. by apply modify_form_keeps_absolute.
Qed.

(** C10, at an image served from a CDN. *)
Lemma protocol_relative_left_unchanged_witness :
  exists parsedUrl attrs',
    Url.parse "https://example.com/x/y" = Some parsedUrl /\
    HtmlModifier.element_at
      (HtmlModifier.fix_table "https://example.com" parsedUrl
         Scenario.page_with_cdn_image) [0; 1; 0]%nat
    = Some ("img", attrs') /\
    HtmlModifier.attr_get attrs' "src" = Some "//cdn.example.com/x.png".
Proof.
  eexists.
  destruct (protocol_relative_left_unchanged "//cdn.example.com/x.png" eq_refl)
    as (_ & H & _).
  edestruct (H "https://example.com"
               {| Url.scheme := "https"; Url.username := ""; Url.password := "";
                  Url.host := Some "example.com"; Url.port := "";
                  Url.path := ["x"; "y"]; Url.opaque := None; Url.query := None;
                  Url.fragment := None |}
               Scenario.page_with_cdn_image [0; 1; 0]%nat "img"
               [("src", "//cdn.example.com/x.png"); ("alt", "x")] "src"
               eq_refl eq_refl) as (attrs' & Hat & Hget).
  exists attrs'. split; [reflexivity|]. split; [exact Hat|exact Hget].
Defined.


(** * Further properties of the code *)

(** ** The rate limiter *)

Lemma checks_in_open_window o r clock : forall (requests : gmap string RateLimiter.client) c i res,
  RateLimiter.skip o r = false ->
  requests !! RateLimiter.keyGenerator o r = Some c ->
  Forall (fun reading => reading.1 <= RateLimiter.resetTime c) clock ->
  (RateLimiter.checks o clock r requests).1 !! i = Some res ->
  RateLimiter.is_limited res
  = (RateLimiter.max o <? RateLimiter.count c + Z.of_nat i + 1)%Z.
Proof.
  induction clock as [|[a b] clock IH]; intros requests c i res Hs Hl Hall Hi.
  - discriminate Hi.
  - apply Forall_cons in Hall as [Ha Hall]. cbn [RateLimiter.checks] in Hi.
    rewrite (check_same_window o a b r c requests Hs Hl Ha) in Hi.
    destruct (RateLimiter.checks o clock r _) as [rest requests2] eqn:E.
    destruct i as [|i]; cbn in Hi.
    + inversion Hi; subst res. cbn. rewrite Z.gtb_ltb. f_equal. lia.
    + set (c' := {| RateLimiter.count := RateLimiter.count c + 1;
                    RateLimiter.resetTime := RateLimiter.resetTime c |}) in *.
      specialize (IH (<[RateLimiter.keyGenerator o r := c']> requests) c' i res Hs
                     (lookup_insert_eq _ _ _) Hall).
      rewrite E in IH. rewrite (IH Hi). cbn. f_equal. lia.
Qed.

(** X1. Of any number of checks of a new key, none of them made after the
    end of the window that the first one opens, the i-th is admitted
    exactly when i is at most [max]: the limiter lets the first [max]
    requests of a window through and no other. *)
Theorem rate_limiter_admits_first_max
    (o : RateLimiter.options) (r : RateLimiter.req)
    (requests : gmap string RateLimiter.client) (a0 b0 : Z) (clock : list (Z * Z))
    (i : nat) (res : RateLimiter.check_result) :
  RateLimiter.skip o r = false ->
  requests !! RateLimiter.keyGenerator o r = None ->
  Forall (fun reading => reading.1 <= a0 + RateLimiter.windowMs o) clock ->
  (RateLimiter.checks o ((a0, b0) :: clock) r requests).1 !! i = Some res ->
  RateLimiter.is_limited res = (RateLimiter.max o <? Z.of_nat i + 1)%Z.
Proof.
  intros Hs Hn Hall Hi. cbn [RateLimiter.checks] in Hi.
  rewrite (check_new o a0 b0 r requests Hs Hn) in Hi.
  destruct (RateLimiter.checks o clock r _) as [rest requests2] eqn:E.
  destruct i as [|i]; cbn in Hi.
  - inversion Hi; subst res. cbn. by rewrite Z.gtb_ltb.
  - set (c' := {| RateLimiter.count := 1;
                  RateLimiter.resetTime := a0 + RateLimiter.windowMs o |}) in *.
    pose proof (checks_in_open_window o r clock
                  (<[RateLimiter.keyGenerator o r := c']> requests) c'
                  i res Hs (lookup_insert_eq _ _ _) Hall) as H.
    rewrite E in H. rewrite (H Hi). cbn. f_equal. lia.
Qed.

(** X1, at a limiter of 2 requests per minute and three checks of one
    client: the third is the first one limited. *)
Lemma rate_limiter_admits_first_max_witness :
  let o := RateLimiter.constructor
             {| RateLimiter.u_windowMs := Some 60000; RateLimiter.u_max := Some 2;
                RateLimiter.u_keyGenerator := None; RateLimiter.u_skip := None |} in
  let r := {| RateLimiter.x_forwarded_for := Some "203.0.113.7";
              RateLimiter.x_real_ip := None; RateLimiter.remoteAddress := None |} in
  exists res,
    (RateLimiter.checks o [(5, 5); (700, 700); (60005, 60005)] r ∅).1 !! 2%nat = Some res /\
    RateLimiter.is_limited res = true.
Proof.
  intros o r.
  destruct ((RateLimiter.checks o [(5, 5); (700, 700); (60005, 60005)] r ∅).1 !! 2%nat)
    as [res|] eqn:H; [|by vm_compute in H].
  exists res. split; [done|].
  apply (rate_limiter_admits_first_max o r ∅ 5 5 [(700, 700); (60005, 60005)] 2 res
           eq_refl (lookup_empty _)); [|exact H].
  repeat constructor; cbn; lia.
Defined.

(** X2. The state of one key never affects another: a check leaves the
    record of every other key as it was, and its outcome depends on the
    record of its own key only. *)
Theorem rate_limiter_keys_independent
    (o : RateLimiter.options) (now now' : Z) (r : RateLimiter.req)
    (requests requests2 : gmap string RateLimiter.client) (k : string) :
  (k <> RateLimiter.keyGenerator o r ->
   (RateLimiter.check o now now' r requests).2 !! k = requests !! k) /\
  (requests2 !! RateLimiter.keyGenerator o r = requests !! RateLimiter.keyGenerator o r ->
   (RateLimiter.check o now now' r requests2).1
   = (RateLimiter.check o now now' r requests).1).
Proof.
  destruct (RateLimiter.skip o r) eqn:Hs.
  - unfold RateLimiter.check. rewrite Hs. by split.
  - rewrite !(check_step o now now' r _ Hs). cbn [fst snd]. split.
    + intros Hne. by rewrite lookup_insert_ne.
    + by intros ->.
Qed.

(** X2, at two clients of one limiter. *)
Lemma rate_limiter_keys_independent_witness :
  let o := RateLimiter.constructor
             {| RateLimiter.u_windowMs := None; RateLimiter.u_max := None;
                RateLimiter.u_keyGenerator := None; RateLimiter.u_skip := None |} in
  let r := {| RateLimiter.x_forwarded_for := Some "203.0.113.7";
              RateLimiter.x_real_ip := None; RateLimiter.remoteAddress := None |} in
  let requests : gmap string RateLimiter.client :=
    {[ "198.51.100.1" := {| RateLimiter.count := 100; RateLimiter.resetTime := 60000 |} ]} in
  (RateLimiter.check o 1000 1000 r requests).2 !! "198.51.100.1" = requests !! "198.51.100.1" /\
  (RateLimiter.check o 1000 1000 r ∅).1 = (RateLimiter.check o 1000 1000 r requests).1.
Proof.
  intros o r requests. split.
  - by apply (rate_limiter_keys_independent o 1000 1000 r requests ∅ "198.51.100.1").
  - apply (rate_limiter_keys_independent o 1000 1000 r requests ∅ "198.51.100.1").
    reflexivity.
Defined.

Lemma cleanup_lookup o swept (requests : gmap string RateLimiter.client) k c :
  RateLimiter.cleanup o swept requests !! k = Some c <->
  requests !! k = Some c /\
  swept <= RateLimiter.resetTime c + RateLimiter.windowMs o.
Proof.
  unfold RateLimiter.cleanup. rewrite map_lookup_filter_Some. cbn.
  split; intros [H1 H2]; (split; [done|lia]).
Qed.

Lemma cleanup_same_step o swept late (requests : gmap string RateLimiter.client) k :
  0 <= RateLimiter.windowMs o -> swept <= late ->
  RateLimiter.spec_window_step (RateLimiter.windowMs o) late
    (RateLimiter.cleanup o swept requests !! k)
  = RateLimiter.spec_window_step (RateLimiter.windowMs o) late (requests !! k).
Proof.
  intros Hw Hlate.
  destruct (RateLimiter.cleanup o swept requests !! k) as [c|] eqn:E.
  - apply cleanup_lookup in E as [-> _]. done.
  - destruct (requests !! k) as [c|] eqn:E'; [|done].
    destruct (decide (swept <= RateLimiter.resetTime c + RateLimiter.windowMs o))
      as [Hk|Hk].
    + assert (RateLimiter.cleanup o swept requests !! k = Some c) as E2
        by by apply cleanup_lookup.
      congruence.
    + unfold RateLimiter.spec_window_step.
      gtb_true (late >? RateLimiter.resetTime c). done.
Qed.

(** X3. The sweep is invisible to the checks.  [cleanup] keeps exactly the
    records whose window ended no more than one window ago, and a check
    made at or after the time of a sweep gives the same result, and
    stores the same record for its key, as it would have without the
    sweep. *)
Theorem cleanup_is_transparent
    (o : RateLimiter.options) (swept late now' : Z) (r : RateLimiter.req)
    (requests : gmap string RateLimiter.client) :
  0 <= RateLimiter.windowMs o -> swept <= late ->
  (forall k c,
      RateLimiter.cleanup o swept requests !! k = Some c <->
      requests !! k = Some c /\
      swept <= RateLimiter.resetTime c + RateLimiter.windowMs o) /\
  (RateLimiter.check o late now' r (RateLimiter.cleanup o swept requests)).1
  = (RateLimiter.check o late now' r requests).1 /\
  (RateLimiter.skip o r = false ->
   (RateLimiter.check o late now' r (RateLimiter.cleanup o swept requests)).2
     !! RateLimiter.keyGenerator o r
   = (RateLimiter.check o late now' r requests).2 !! RateLimiter.keyGenerator o r).
Proof.
  intros Hw Hlate. split; [intros k c; apply cleanup_lookup|].
  destruct (RateLimiter.skip o r) eqn:Hs.
  - unfold RateLimiter.check. rewrite Hs. by split.
  - rewrite !(check_step o late now' r _ Hs). cbn [fst snd].
    rewrite (cleanup_same_step o swept late requests _ Hw Hlate).
    split; [done|]. intros _. by rewrite !lookup_insert_eq.
Qed.

(** X3, at a sweep that removes the stale record of a client before the
    client comes back. *)
Lemma cleanup_is_transparent_witness :
  let o := RateLimiter.constructor
             {| RateLimiter.u_windowMs := Some 60000; RateLimiter.u_max := Some 3;
                RateLimiter.u_keyGenerator := None; RateLimiter.u_skip := None |} in
  let r := {| RateLimiter.x_forwarded_for := Some "203.0.113.7";
              RateLimiter.x_real_ip := None; RateLimiter.remoteAddress := None |} in
  let requests : gmap string RateLimiter.client :=
    {[ "203.0.113.7" := {| RateLimiter.count := 9; RateLimiter.resetTime := 60000 |} ]} in
  RateLimiter.cleanup o 180000 requests !! "203.0.113.7" = None /\
  (RateLimiter.check o 200000 200000 r (RateLimiter.cleanup o 180000 requests)).1
  = (RateLimiter.check o 200000 200000 r requests).1.
Proof.
  intros o r requests.
  destruct (cleanup_is_transparent o 180000 200000 200000 r requests)
    as (Hkeep & Hres & _); [done|done|].
  split; [|exact Hres].
  destruct (RateLimiter.cleanup o 180000 requests !! "203.0.113.7") as [c|] eqn:E;
    [|done].
  apply Hkeep in E as [E Hc]. apply lookup_singleton_Some in E as [_ <-].
  cbn in Hc. lia.
Defined.

(** X4. [getStatus] reads back what [check] wrote: after a check that was
    not skipped it reports the stored count, the [remaining] and the window
    end that the check returned; [remaining] is never negative and is 0 for
    a limited request; after [reset] the key is reported as never seen. *)
Theorem getStatus_after_check
    (toISOString : Z -> string) (o : RateLimiter.options) (now now' : Z)
    (r : RateLimiter.req) (requests : gmap string RateLimiter.client) :
  RateLimiter.skip o r = false ->
  let key := RateLimiter.keyGenerator o r in
  exists s requests' c,
    RateLimiter.check o now now' r requests = (RateLimiter.Checked s, requests') /\
    requests' !! key = Some c /\
    RateLimiter.getStatus toISOString o key requests'
    = {| RateLimiter.cs_count := RateLimiter.count c;
         RateLimiter.cs_remaining := RateLimiter.remaining s;
         RateLimiter.cs_resetTime :=
           Some (toISOString (RateLimiter.st_resetTime s)) |} /\
    RateLimiter.limited s = (RateLimiter.max o <? RateLimiter.count c)%Z /\
    0 <= RateLimiter.remaining s /\
    (RateLimiter.limited s = true -> RateLimiter.remaining s = 0) /\
    (RateLimiter.limited s = false ->
     RateLimiter.remaining s = RateLimiter.max o - RateLimiter.count c) /\
    RateLimiter.getStatus toISOString o key (RateLimiter.reset key requests')
    = {| RateLimiter.cs_count := 0; RateLimiter.cs_remaining := RateLimiter.max o;
         RateLimiter.cs_resetTime := None |}.
Proof.
  intros Hs key. rewrite (check_step o now now' r requests Hs). fold key.
  set (c := RateLimiter.spec_window_step _ _ _).
  exists (RateLimiter.outcome o c now'), (<[key := c]> requests), c.
  split; [done|]. split; [apply lookup_insert_eq|].
  unfold RateLimiter.getStatus, RateLimiter.reset.
  rewrite lookup_insert_eq, lookup_delete_eq.
  cbn [RateLimiter.outcome RateLimiter.limited RateLimiter.remaining
       RateLimiter.st_resetTime].
  unfold Js.max0. rewrite Z.gtb_ltb.
  repeat split; try done; lia.
Qed.

(** X4, at the first request of a client. *)
Lemma getStatus_after_check_witness :
  let o := RateLimiter.constructor
             {| RateLimiter.u_windowMs := Some 60000; RateLimiter.u_max := Some 3;
                RateLimiter.u_keyGenerator := None; RateLimiter.u_skip := None |} in
  let r := {| RateLimiter.x_forwarded_for := Some "203.0.113.7";
              RateLimiter.x_real_ip := None; RateLimiter.remoteAddress := None |} in
  exists s requests' c,
    RateLimiter.check o 1000 1000 r ∅ = (RateLimiter.Checked s, requests') /\
    requests' !! "203.0.113.7" = Some c /\
    RateLimiter.cs_remaining
      (RateLimiter.getStatus (fun _ => "1970-01-01T00:01:01.000Z") o "203.0.113.7" requests')
    = RateLimiter.remaining s.
Proof.
  intros o r.
  destruct (getStatus_after_check (fun _ => "1970-01-01T00:01:01.000Z") o 1000 1000 r ∅
              eq_refl) as (s & requests' & c & Hc & Hl & Hg & _).
  exists s, requests', c. split; [exact Hc|]. split; [exact Hl|].
  cbn in Hg. by rewrite Hg.
Defined.

(** X5. [withRateLimit] calls the wrapped handler exactly when the check
    admits the request.  A limited request is answered with the configured
    status and the [retryAfter] of the check, also sent as [Retry-After]
    when the headers are enabled; an admitted request gets no
    [Retry-After]. *)
Theorem withRateLimit_calls_handler_iff_admitted {A : Type}
    (toISOString : Z -> string) (o : RateLimiter.options)
    (m : RateLimiter.response_options) (handler : RateLimiter.req -> A)
    (now now' : Z) (r : RateLimiter.req) (requests : gmap string RateLimiter.client) :
  RateLimiter.skip o r = false ->
  exists s requests' hs out,
    RateLimiter.check o now now' r requests = (RateLimiter.Checked s, requests') /\
    RateLimiter.withRateLimit toISOString o m handler now now' r requests
    = (Js.Ok (hs, out), requests') /\
    (RateLimiter.limited s = false ->
     out = RateLimiter.Handled (handler r) /\ "Retry-After" ∉ hs.*1) /\
    (RateLimiter.limited s = true ->
     out = RateLimiter.Limited (RateLimiter.statusCode m) (RateLimiter.message m)
             (RateLimiter.retryAfter s) /\
     (RateLimiter.headers m = true ->
      ("Retry-After", RateLimiter.Num (RateLimiter.retryAfter s)) ∈ hs)).
Proof.
  intros Hs. unfold RateLimiter.withRateLimit.
  rewrite (check_step o now now' r requests Hs).
  do 4 eexists. split; [reflexivity|]. split; [reflexivity|].
  unfold RateLimiter.rate_limit_headers. split; intros ->.
  - split; [done|]. destruct (RateLimiter.headers m); cbn; set_solver.
  - split; [done|]. intros ->. cbn. set_solver.
Qed.

(** X5, at the first request of a client: the handler runs. *)
Lemma withRateLimit_calls_handler_iff_admitted_witness :
  let o := RateLimiter.constructor
             {| RateLimiter.u_windowMs := Some 60000; RateLimiter.u_max := Some 3;
                RateLimiter.u_keyGenerator := None; RateLimiter.u_skip := None |} in
  let m := {| RateLimiter.message := "Too many requests, please try again later.";
              RateLimiter.statusCode := 429; RateLimiter.headers := true |} in
  let r := {| RateLimiter.x_forwarded_for := Some "203.0.113.7";
              RateLimiter.x_real_ip := None; RateLimiter.remoteAddress := None |} in
  exists hs requests',
    RateLimiter.withRateLimit (fun _ => "1970-01-01T00:01:01.000Z") o m
      (fun _ => "handled") 1000 1000 r ∅
    = (Js.Ok (hs, RateLimiter.Handled "handled"), requests').
Proof.
  intros o m r.
  destruct (withRateLimit_calls_handler_iff_admitted
              (fun _ => "1970-01-01T00:01:01.000Z") o m (fun _ => "handled")
              1000 1000 r ∅ eq_refl)
    as (s & requests' & hs & out & Hc & Hw & Hadm & _).
  exists hs, requests'. rewrite Hw.
  assert (RateLimiter.limited s = false) as Hl.
  { vm_compute in Hc. by inversion Hc. }
  by destruct (Hadm Hl) as [-> _].
Defined.

(** X6. A request that [skip] exempts never reaches the wrapped handler
    when the rate-limit headers are enabled: the result of [check] has no
    fields to put into them and the middleware throws. *)
Theorem withRateLimit_throws_on_skipped {A : Type}
    (toISOString : Z -> string) (o : RateLimiter.options)
    (m : RateLimiter.response_options) (handler : RateLimiter.req -> A)
    (now now' : Z) (r : RateLimiter.req) (requests : gmap string RateLimiter.client) :
  RateLimiter.skip o r = true ->
  (RateLimiter.headers m = true ->
   exists error,
     RateLimiter.withRateLimit toISOString o m handler now now' r requests
     = (Js.Throw error, requests)) /\
  (RateLimiter.headers m = false ->
   RateLimiter.withRateLimit toISOString o m handler now now' r requests
   = (Js.Ok ([], RateLimiter.Handled (handler r)), requests)).
Proof.
  intros Hs. unfold RateLimiter.withRateLimit, RateLimiter.check. rewrite Hs.
  split; intros ->; [by eexists|done].
Qed.

(** X6, at a limiter that exempts every request. *)
Lemma withRateLimit_throws_on_skipped_witness :
  let o := RateLimiter.constructor
             {| RateLimiter.u_windowMs := None; RateLimiter.u_max := None;
                RateLimiter.u_keyGenerator := None;
                RateLimiter.u_skip := Some (fun _ => true) |} in
  let m := {| RateLimiter.message := "Too many requests, please try again later.";
              RateLimiter.statusCode := 429; RateLimiter.headers := true |} in
  let r := {| RateLimiter.x_forwarded_for := Some "203.0.113.7";
              RateLimiter.x_real_ip := None; RateLimiter.remoteAddress := None |} in
  exists error,
    RateLimiter.withRateLimit (fun _ => "1970-01-01T00:01:01.000Z") o m
      (fun _ => "handled") 1000 1000 r ∅
    = (Js.Throw error, ∅).
Proof.
  intros o m r.
  by apply (withRateLimit_throws_on_skipped
              (fun _ => "1970-01-01T00:01:01.000Z") o m (fun _ => "handled")
              1000 1000 r ∅ eq_refl).
Defined.

(** ** The route handler *)

Lemma validate_target_inr req u p :
  Proxy.validate_target req = inr (u, p) ->
  Proxy.query_url req = Some u /\ Url.parse u = Some p /\
  existsb (String.eqb (Url.hostname p)) Proxy.blockedHosts = false /\
  Proxy.privateIPRegex (Url.hostname p) = false.
Proof.
  unfold Proxy.validate_target. intros H.
  destruct (Proxy.query_url req) as [t|]; [|done]. cbn [default from_option id] in H.
  destruct (negb (Js.truthy (Some t))); [done|].
  destruct (Url.parse t) as [q|] eqn:Hp; [|done].
  destruct (existsb _ Proxy.blockedHosts) eqn:Hb; [done|].
  destruct (Proxy.privateIPRegex _) eqn:Hr; [done|].
  by simplify_eq.
Qed.

Lemma validate_target_parsed req u p :
  Proxy.query_url req = Some u -> Url.parse u = Some p ->
  Proxy.validate_target req
  = if existsb (String.eqb (Url.hostname p)) Proxy.blockedHosts
    then inl (Proxy.json 403 "Access to local addresses is not allowed")
    else if Proxy.privateIPRegex (Url.hostname p)
    then inl (Proxy.json 403 "Access to private IP addresses is not allowed")
    else inr (u, p).
Proof.
  intros Hq Hp. unfold Proxy.validate_target. rewrite Hq.
  cbn [default from_option id Js.truthy].
  destruct (String.eqb_spec u "") as [->|_]; [by vm_compute in Hp|].
  cbn [negb]. by rewrite Hp.
Qed.

Lemma rate_limit_step cfg now req requestCounts :
  let e := Inline.counted now (requestCounts !! Proxy.clientIP req) in
  Proxy.rate_limit cfg now req requestCounts
  = (if Proxy.count e >? Proxy.RATE_LIMIT cfg
     then Some {| Proxy.status := 429; Proxy.headers := [];
                  Proxy.content :=
                    Proxy.JsonError "Too many requests. Please try again later."
                      (Some (Js.ceil_div1000 (Proxy.resetTime e - now))) None |}
     else None,
     <[Proxy.clientIP req := e]> requestCounts).
Proof.
  cbv zeta. unfold Proxy.rate_limit, Inline.counted.
  destruct (requestCounts !! Proxy.clientIP req) as [e0|];
    cbn [default from_option id].
  - destruct (now >? Proxy.resetTime e0); cbn [Proxy.count Proxy.resetTime];
      by destruct (_ >? Proxy.RATE_LIMIT cfg).
  - cbn [Proxy.resetTime]. unfold Proxy.RATE_WINDOW.
    gtb_false (now >? now + 60 * 1000). cbn [Proxy.count Proxy.resetTime].
    by destruct (0 + 1 >? Proxy.RATE_LIMIT cfg).
Qed.

Lemma counted_window now prev :
  (forall e, prev = Some e -> Proxy.resetTime e <= now + Proxy.RATE_WINDOW) ->
  now <= Proxy.resetTime (Inline.counted now prev) <= now + Proxy.RATE_WINDOW.
Proof.
  intros H. unfold Inline.counted. destruct prev as [e|].
  - specialize (H e eq_refl).
    destruct (now >? Proxy.resetTime e) eqn:E; cbn [Proxy.resetTime];
      unfold Proxy.RATE_WINDOW in *; lia.
  - cbn [Proxy.resetTime]. unfold Proxy.RATE_WINDOW. lia.
Qed.

Lemma handler_admitted cfg network now req requestCounts u p :
  Proxy.method req = "GET" ->
  Proxy.validate_target req = inr (u, p) ->
  let e := Inline.counted now (requestCounts !! Proxy.clientIP req) in
  Proxy.handler cfg network now req requestCounts
  = if Proxy.count e >? Proxy.RATE_LIMIT cfg
    then ({| Proxy.status := 429; Proxy.headers := [];
             Proxy.content :=
               Proxy.JsonError "Too many requests. Please try again later."
                 (Some (Js.ceil_div1000 (Proxy.resetTime e - now))) None |},
          <[Proxy.clientIP req := e]> requestCounts, [])
    else if match Proxy.query_test req with
            | Some t => String.eqb t "true"
            | None => false
            end
    then (Proxy.probe network u, <[Proxy.clientIP req := e]> requestCounts,
          [Proxy.Head u])
    else (Proxy.fetch cfg network req u p, <[Proxy.clientIP req := e]> requestCounts,
          [Proxy.Get u]).
Proof.
  intros Hm Hv e. unfold Proxy.handler.
  rewrite Hm, Hv, rate_limit_step. fold e. cbn [negb String.eqb Ascii.eqb Bool.eqb].
  by destruct (Proxy.count e >? Proxy.RATE_LIMIT cfg).
Qed.

(** X7. The handler makes at most one outbound call.  A request that is
    not fetched is answered 405, 400, 403 or 429.  A call is made only for
    a GET request whose [url] parameter parses, whose host is neither in
    the blocked list nor in a private range, and whose client is within its
    limit; the call goes to exactly the URL of the request, as a HEAD when
    [test] is the string true and as a GET otherwise. *)
Theorem handler_calls_only_the_admitted_target
    (cfg : Proxy.config) (network : Proxy.call -> Proxy.outcome) (now : Z)
    (req : Proxy.request) (requestCounts : gmap string Proxy.clientRequests) :
  let result := Proxy.handler cfg network now req requestCounts in
  (result.2 = [] /\ Proxy.status result.1.1 ∈ [405; 400; 403; 429]) \/
  (exists u p e,
      Proxy.method req = "GET" /\
      Proxy.query_url req = Some u /\ Url.parse u = Some p /\
      ~ In (Url.hostname p) Proxy.blockedHosts /\
      Proxy.privateIPRegex (Url.hostname p) = false /\
      result.1.2 !! Proxy.clientIP req = Some e /\
      Proxy.count e <= Proxy.RATE_LIMIT cfg /\
      result.2 = [if bool_decide (Proxy.query_test req = Some "true")
                  then Proxy.Head u else Proxy.Get u]).
Proof.
  intros result. subst result.
  destruct (String.eqb_spec (Proxy.method req) "GET") as [Hm|Hm].
  2: { left. unfold Proxy.handler.
       destruct (String.eqb_spec (Proxy.method req) "GET"); [done|].
       cbn. set_solver. }
  destruct (Proxy.validate_target req) as [rejection|[u p]] eqn:Hv.
  { left. rewrite (handler_rejected_target _ _ _ _ _ _ Hm Hv). cbn [fst snd].
    split; [done|]. destruct (validate_target_status _ _ Hv) as [-> | ->]; set_solver. }
  rewrite (handler_admitted _ _ _ _ _ _ _ Hm Hv).
  destruct (validate_target_inr _ _ _ Hv) as (Hq & Hp & Hb & Hr).
  destruct (_ >? _) eqn:Hc.
  { left. cbn. set_solver. }
  right. exists u, p, (Inline.counted now (requestCounts !! Proxy.clientIP req)).
  split; [done|]. split; [done|]. split; [done|].
  split.
  { intros Hin. apply not_true_iff_false in Hb. apply Hb.
    apply existsb_exists. exists (Url.hostname p). split; [done|].
    apply String.eqb_refl. }
  split; [done|].
  assert (forall (A : Type) (x y : A) (b : bool) (l : list Proxy.call)
                 (rc : gmap string Proxy.clientRequests),
             (if b then (x, rc, l) else (y, rc, l)).1.2 = rc) as Hrc
    by (by intros ? ? ? []).
  split.
  { destruct (match Proxy.query_test req with Some _ => _ | None => _ end);
      cbn [fst snd]; apply lookup_insert_eq. }
  split; [rewrite Z.gtb_ltb in Hc; lia|].
  destruct (Proxy.query_test req) as [t|].
  - destruct (String.eqb_spec t "true") as [->|Hne].
    + by rewrite bool_decide_true.
    + rewrite bool_decide_false; [done|congruence].
  - by rewrite bool_decide_false.
Qed.

(** X8. A target whose host is in the blocked list, or begins with 10., with
    192.168. or with 172.16. to 172.31., is refused with 403 whatever the
    state of the client's window: nothing is fetched and the request is
    not counted. *)
Theorem handler_refuses_local_targets
    (cfg : Proxy.config) (network : Proxy.call -> Proxy.outcome) (now : Z)
    (req : Proxy.request) (requestCounts : gmap string Proxy.clientRequests)
    (u : string) (p : Url.t) :
  Proxy.method req = "GET" ->
  Proxy.query_url req = Some u -> Url.parse u = Some p ->
  In (Url.hostname p) Proxy.blockedHosts \/
  Js.startsWith (Url.hostname p) "10." = true \/
  Js.startsWith (Url.hostname p) "192.168." = true \/
  (exists n, 16 <= n <= 31 /\
     Js.startsWith (Url.hostname p) ("172." ++ Proxy.show_status n ++ ".") = true) ->
  exists rejection,
    Proxy.handler cfg network now req requestCounts = (rejection, requestCounts, []) /\
    Proxy.status rejection = 403.
Proof.
  intros Hm Hq Hp Hh.
  pose proof (validate_target_parsed req u p Hq Hp) as Hv.
  destruct (existsb _ Proxy.blockedHosts) eqn:Hb.
  { eexists. split; [by apply handler_rejected_target|done]. }
  destruct Hh as [Hin|Hpriv].
  { exfalso. apply not_true_iff_false in Hb. apply Hb, existsb_exists.
    exists (Url.hostname p). split; [done|apply String.eqb_refl]. }
  assert (Proxy.privateIPRegex (Url.hostname p) = true) as Hr.
  { unfold Proxy.privateIPRegex.
    destruct Hpriv as [-> | [-> | (n & Hn & Hs)]]; [done|by rewrite orb_true_r|].
    apply orb_true_iff. left. apply orb_true_iff. right.
    apply existsb_exists. exists (Proxy.show_status n). split; [|done].
    assert (n ∈ (Z.of_nat <$> seq 16 16)) as Hin.
    { apply list_elem_of_fmap. exists (Z.to_nat n). split; [lia|].
      apply list_elem_of_In, in_seq. lia. }
    cbn in Hin. set_unfold in Hin.
    repeat destruct Hin as [-> | Hin]; cbn; tauto. }
  rewrite Hr in Hv.
  eexists. split; [by apply handler_rejected_target|done].
Qed.

(** X8, at a router address requested by a client that was never seen. *)
Lemma handler_refuses_local_targets_witness :
  exists rejection,
    Proxy.handler Inline.cfg (Inline.upstream 200 None "") 1000
      (Inline.get "http://192.168.1.1/admin" None) ∅
    = (rejection, ∅, []) /\
    Proxy.status rejection = 403.
Proof.
  eapply (handler_refuses_local_targets Inline.cfg (Inline.upstream 200 None "") 1000
            (Inline.get "http://192.168.1.1/admin" None) ∅
            "http://192.168.1.1/admin").
  - reflexivity.
  - reflexivity.
  - vm_compute. reflexivity.
  - right. right. left. vm_compute. reflexivity.
Defined.

(** X9. The checks on the target are made on the host name as it is
    written.  A host in the bracketed form of an IPv6 literal (the
    loopback address is written with its brackets in a parsed URL, so the
    entry ::1 of the blocked list is not met by it) or in the link-local
    range 169.254. passes them, and the target is fetched. *)
Theorem handler_fetches_bracketed_and_link_local_hosts
    (cfg : Proxy.config) (network : Proxy.call -> Proxy.outcome) (now : Z)
    (req : Proxy.request) (requestCounts : gmap string Proxy.clientRequests)
    (u : string) (p : Url.t) :
  Proxy.method req = "GET" ->
  Proxy.query_url req = Some u -> Url.parse u = Some p ->
  Js.startsWith (Url.hostname p) "[" = true \/
  Js.startsWith (Url.hostname p) "169.254." = true ->
  requestCounts !! Proxy.clientIP req = None -> 1 <= Proxy.RATE_LIMIT cfg ->
  Proxy.query_test req <> Some "true" ->
  Proxy.validate_target req = inr (u, p) /\
  (Proxy.handler cfg network now req requestCounts).2 = [Proxy.Get u].
Proof.
  intros Hm Hq Hp Hh Hnew Hlim Ht.
  assert (Proxy.validate_target req = inr (u, p)) as Hv.
  { rewrite (validate_target_parsed req u p Hq Hp).
    destruct Hh as [Hh|Hh]; apply startsWith_app in Hh as [rest ->]; reflexivity. }
  split; [done|].
  by rewrite (handler_full_fetch cfg network now req requestCounts u p _ Hm Hv
                (rate_limit_new cfg now req requestCounts Hnew Hlim) Ht).
Qed.

(** X9, at the IPv6 loopback address. *)
Lemma handler_fetches_bracketed_and_link_local_hosts_witness :
  (Proxy.handler Inline.cfg (Inline.upstream 200 None "") 1000
     (Inline.get "http://[::1]:8080/" None) ∅).2
  = [Proxy.Get "http://[::1]:8080/"].
Proof.
  eapply (handler_fetches_bracketed_and_link_local_hosts Inline.cfg
            (Inline.upstream 200 None "") 1000
            (Inline.get "http://[::1]:8080/" None) ∅ "http://[::1]:8080/").
  - reflexivity.
  - reflexivity.
  - vm_compute. reflexivity.
  - left. vm_compute. reflexivity.
  - apply lookup_empty.
  - vm_compute. discriminate.
  - discriminate.
Defined.

Lemma counted_as_client now prev :
  Inline.as_client (Inline.counted now prev)
  = RateLimiter.spec_window_step Proxy.RATE_WINDOW now (Inline.as_client <$> prev).
Proof.
  unfold Inline.counted, RateLimiter.spec_window_step, Inline.as_client.
  destruct prev as [e|]; cbn; [|done].
  by destruct (now >? Proxy.resetTime e).
Qed.

(** X10. The rate-limiting block of the handler makes the decisions of the
    class: on requests without an x-real-ip header and with a limit other
    than 0, it stores the record, takes the decision and reports the
    [retryAfter] that [apiRateLimiter.check] does on the same map.  (With
    the limit 0 the constructor of the class falls back to 100.) *)
Theorem inline_limiter_agrees_with_apiRateLimiter
    (cfg : Proxy.config) (now : Z) (req : Proxy.request)
    (requestCounts : gmap string Proxy.clientRequests) :
  Proxy.RATE_LIMIT cfg <> 0 ->
  let result := Proxy.rate_limit cfg now req requestCounts in
  exists s,
    RateLimiter.check (RateLimiter.apiRateLimiter (Proxy.RATE_LIMIT cfg)) now now
      (Inline.as_req req) (Inline.as_client <$> requestCounts)
    = (RateLimiter.Checked s, Inline.as_client <$> result.2) /\
    (RateLimiter.limited s = true <-> is_Some result.1) /\
    (forall rejection,
        result.1 = Some rejection ->
        Proxy.status rejection = 429 /\
        Proxy.content rejection
        = Proxy.JsonError "Too many requests. Please try again later."
            (Some (RateLimiter.retryAfter s)) None).
Proof.
  intros Hl result. subst result. rewrite rate_limit_step. cbn [fst snd].
  set (o := RateLimiter.apiRateLimiter (Proxy.RATE_LIMIT cfg)).
  assert (RateLimiter.max o = Proxy.RATE_LIMIT cfg) as Hmax.
  { cbn. unfold Js.num_or. by destruct (Z.eqb_spec (Proxy.RATE_LIMIT cfg) 0). }
  assert (RateLimiter.keyGenerator o (Inline.as_req req) = Proxy.clientIP req) as Hkey
    by reflexivity.
  rewrite (check_step o now now (Inline.as_req req) _ eq_refl).
  rewrite Hkey, lookup_fmap.
  change (RateLimiter.windowMs o) with Proxy.RATE_WINDOW.
  rewrite <- counted_as_client.
  set (e := Inline.counted now (requestCounts !! Proxy.clientIP req)).
  eexists. split; [by rewrite fmap_insert|].
  cbn [RateLimiter.outcome RateLimiter.limited RateLimiter.retryAfter].
  rewrite Hmax. cbn [Inline.as_client RateLimiter.count RateLimiter.resetTime].
  destruct (Proxy.count e >? Proxy.RATE_LIMIT cfg).
  - split; [by split|]. intros rejection [= <-]. by split.
  - split; [|done]. split; [done|]. by intros [? ?].
Qed.

(** X10, at the third request of a client whose limit is 2. *)
Lemma inline_limiter_agrees_with_apiRateLimiter_witness :
  let requestCounts : gmap string Proxy.clientRequests :=
    {[ "198.51.100.4" := {| Proxy.count := 2; Proxy.resetTime := 60000 |} ]} in
  let result :=
    Proxy.rate_limit Inline.cfg 1000 (Inline.get "https://example.com" None)
      requestCounts in
  exists s,
    RateLimiter.check (RateLimiter.apiRateLimiter 2) 1000 1000
      (Inline.as_req (Inline.get "https://example.com" None))
      (Inline.as_client <$> requestCounts)
    = (RateLimiter.Checked s, Inline.as_client <$> result.2) /\
    (RateLimiter.limited s = true <-> is_Some result.1).
Proof.
  intros requestCounts result.
  destruct (inline_limiter_agrees_with_apiRateLimiter Inline.cfg 1000
              (Inline.get "https://example.com" None) requestCounts)
    as (s & Hc & Hl & _); [vm_compute; discriminate|].
  by exists s.
Defined.

(** X11. The windows the handler stores stay within bounds: when every
    stored window ends at most one minute after the time of the request,
    this still holds afterwards and at every later time, the records of
    the other clients are not touched, and the [retryAfter] of a 429
    answer is between 0 and 60 seconds. *)
Theorem rate_limit_keeps_windows_bounded
    (cfg : Proxy.config) (now : Z) (req : Proxy.request)
    (requestCounts : gmap string Proxy.clientRequests) :
  Inline.windows_end_by now requestCounts ->
  let result := Proxy.rate_limit cfg now req requestCounts in
  (forall later, now <= later -> Inline.windows_end_by later result.2) /\
  (forall k, k <> Proxy.clientIP req -> result.2 !! k = requestCounts !! k) /\
  (forall rejection,
      result.1 = Some rejection ->
      exists n,
        Proxy.content rejection
        = Proxy.JsonError "Too many requests. Please try again later." (Some n) None /\
        0 <= n <= 60).
Proof.
  intros Hinv result. subst result. rewrite rate_limit_step. cbn [fst snd].
  pose proof (counted_window now (requestCounts !! Proxy.clientIP req)
                (fun e He => Hinv _ e He)) as Hw.
  set (e := Inline.counted now (requestCounts !! Proxy.clientIP req)) in *.
  unfold Proxy.RATE_WINDOW in Hw.
  split; [|split].
  - intros later Hlater k e' Hk. unfold Proxy.RATE_WINDOW.
    destruct (decide (k = Proxy.clientIP req)) as [->|Hne].
    + rewrite lookup_insert_eq in Hk. simplify_eq. lia.
    + rewrite lookup_insert_ne in Hk by done.
      specialize (Hinv k e' Hk). unfold Proxy.RATE_WINDOW in Hinv. lia.
  - intros k Hne. by rewrite lookup_insert_ne.
  - intros rejection Hr. destruct (_ >? _); [|done]. simplify_eq.
    eexists. split; [reflexivity|]. unfold Js.ceil_div1000.
    split.
    + assert ((- (Proxy.resetTime e - now)) / 1000 <= 0); [|lia].
      apply Z.div_le_upper_bound; lia.
    + assert (-60 <= (- (Proxy.resetTime e - now)) / 1000); [|lia].
      apply Z.div_le_lower_bound; lia.
Qed.

(** X11, at the third request of a client whose limit is 2. *)
Lemma rate_limit_keeps_windows_bounded_witness :
  let requestCounts : gmap string Proxy.clientRequests :=
    {[ "198.51.100.4" := {| Proxy.count := 2; Proxy.resetTime := 60000 |} ]} in
  exists rejection n,
    (Proxy.rate_limit Inline.cfg 1000 (Inline.get "https://example.com" None)
       requestCounts).1 = Some rejection /\
    Proxy.content rejection
    = Proxy.JsonError "Too many requests. Please try again later." (Some n) None /\
    0 <= n <= 60.
Proof.
  intros requestCounts.
  destruct (rate_limit_keeps_windows_bounded Inline.cfg 1000
              (Inline.get "https://example.com" None) requestCounts)
    as (_ & _ & Hr).
  { intros k e Hk. apply lookup_singleton_Some in Hk as [_ <-]. vm_compute.
    discriminate. }
  destruct (Hr _ eq_refl) as (n & Hn & Hb).
  by eexists _, n.
Defined.

(** X12. A test request ([test=true]) only probes the target: whatever the
    request, the map and the network, the handler makes no GET call and
    sends no page.  When the HEAD is answered, a status below 500 (a 404 as
    well) is reported as success with 200, a status of 500 or more as
    400. *)
Theorem test_request_only_probes
    (cfg : Proxy.config) (network : Proxy.call -> Proxy.outcome) (now : Z)
    (req : Proxy.request) (requestCounts : gmap string Proxy.clientRequests) :
  Proxy.query_test req = Some "true" ->
  let result := Proxy.handler cfg network now req requestCounts in
  (forall u, Proxy.Get u ∉ result.2) /\
  (forall data, Proxy.content result.1.1 <> Proxy.Send data) /\
  (forall u r,
      result.2 = [Proxy.Head u] -> network (Proxy.Head u) = Proxy.Responds r ->
      (Proxy.up_status r < 500 ->
       result.1.1 = {| Proxy.status := 200; Proxy.headers := [];
                       Proxy.content := Proxy.JsonSuccess |}) /\
      (500 <= Proxy.up_status r -> Proxy.status result.1.1 = 400)).
Proof.
  intros Ht result. subst result.
  destruct (String.eqb_spec (Proxy.method req) "GET") as [Hm|Hm].
  2: { unfold Proxy.handler.
       destruct (String.eqb_spec (Proxy.method req) "GET"); [done|].
       cbn. split; [set_solver|]. by split. }
  destruct (Proxy.validate_target req) as [rejection|[u p]] eqn:Hv.
  { rewrite (handler_rejected_target _ _ _ _ _ _ Hm Hv). cbn [fst snd].
    split; [set_solver|]. split; [|done].
    unfold Proxy.validate_target in Hv. repeat case_match; by simplify_eq. }
  rewrite (handler_admitted _ _ _ _ _ _ _ Hm Hv), Ht.
  destruct (_ >? _); cbn [fst snd String.eqb Ascii.eqb Bool.eqb].
  { split; [set_solver|]. by split. }
  split; [set_solver|].
  unfold Proxy.probe, Proxy.settle, Proxy.validateStatus.
  split.
  - intros data. repeat case_match; done.
  - intros u' r [= <-] ->. split; intros Hs.
    + assert ((Proxy.up_status r <? 500)%Z = true) as -> by lia.
      by rewrite orb_true_r.
    + assert ((Proxy.up_status r <? 500)%Z = false) as -> by lia.
      assert ((Proxy.up_status r =? 0)%Z = false) as -> by lia.
      done.
Qed.

(** X12, at a target that answers the HEAD with 404. *)
Lemma test_request_only_probes_witness :
  Proxy.handler Inline.cfg (Inline.upstream 404 None "") 1000
    (Inline.get "https://example.com" (Some "true")) ∅
  = ({| Proxy.status := 200; Proxy.headers := [];
        Proxy.content := Proxy.JsonSuccess |},
     {[ "198.51.100.4" := {| Proxy.count := 1; Proxy.resetTime := 61000 |} ]},
     [Proxy.Head "https://example.com"]).
Proof.
  destruct (test_request_only_probes Inline.cfg (Inline.upstream 404 None "") 1000
              (Inline.get "https://example.com" (Some "true")) ∅ eq_refl)
    as (_ & _ & H).
  destruct (H "https://example.com" _ eq_refl eq_refl) as [H200 _].
  specialize (H200 ltac:(cbn; lia)).
  destruct (Proxy.handler _ _ _ _ _) as [[res rc] calls] eqn:E.
  cbn [fst snd] in H200. subst res.
  vm_compute in E. by inversion E.
Defined.

(** X13. The status of the upstream is not passed on.  For an admitted full
    fetch that the upstream answers: a status below 500 is answered 200 with
    the proxy's headers when [res.setHeader] accepts the content type and
    the target, and 500 when it refuses one of them (a target with a
    control character, as a line feed, parses and is fetched, and is then
    refused as a header value); a status of 500 or more is answered
    502. *)
Theorem upstream_status_is_not_passed_on
    (cfg : Proxy.config) (network : Proxy.call -> Proxy.outcome) (now : Z)
    (req : Proxy.request) (requestCounts requestCounts' : gmap string Proxy.clientRequests)
    (u : string) (p : Url.t) (r : Proxy.upstream) :
  Proxy.method req = "GET" ->
  Proxy.validate_target req = inr (u, p) ->
  Proxy.rate_limit cfg now req requestCounts = (None, requestCounts') ->
  Proxy.query_test req <> Some "true" ->
  network (Proxy.Get u) = Proxy.Responds r ->
  let response := (Proxy.handler cfg network now req requestCounts).1.1 in
  let contentType := Js.or_default (Proxy.up_content_type r) "text/html" in
  (Proxy.up_status r < 500 ->
   Proxy.valid_header_value contentType = true ->
   Proxy.valid_header_value u = true ->
   Proxy.status response = 200 /\
   Proxy.headers response
   = [ ("Content-Type", contentType);
       ("X-Proxied-URL", u);
       ("Access-Control-Allow-Origin", "*");
       ("Access-Control-Allow-Methods", "GET, POST, PUT, DELETE, OPTIONS");
       ("Access-Control-Allow-Headers", "Content-Type, Authorization") ]) /\
  (Proxy.up_status r < 500 ->
   Proxy.valid_header_value contentType = false \/
   Proxy.valid_header_value u = false ->
   Proxy.status response = 500 /\
   exists details,
     Proxy.content response
     = Proxy.JsonError "An unexpected error occurred while processing your request"
         None details) /\
  (500 <= Proxy.up_status r ->
   response = Proxy.json 502 "Target website server error").
Proof.
  intros Hm Hv Hr Ht Hn response contentType. subst response.
  rewrite (handler_full_fetch _ _ _ _ _ _ _ _ Hm Hv Hr Ht). cbn [fst].
  assert (Proxy.up_status r < 500 ->
          Proxy.fetch cfg network req u p
          = if negb (Proxy.valid_header_value contentType)
            then Proxy.on_error cfg (Proxy.invalid_char "Content-Type")
            else if negb (Proxy.valid_header_value u)
            then Proxy.on_error cfg (Proxy.invalid_char "X-Proxied-URL")
            else
              {| Proxy.status := 200;
                 Proxy.headers :=
                   [ ("Content-Type", contentType);
                     ("X-Proxied-URL", u);
                     ("Access-Control-Allow-Origin", "*");
                     ("Access-Control-Allow-Methods", "GET, POST, PUT, DELETE, OPTIONS");
                     ("Access-Control-Allow-Headers", "Content-Type, Authorization") ];
                 Proxy.content :=
                   Proxy.Send
                     (if Js.includes contentType "text/html"
                      then Proxy.rewrite_html req u p (Proxy.up_data r)
                      else Proxy.up_data r) |}) as Hfetch.
  { intros Hs. unfold Proxy.fetch, Proxy.settle. rewrite Hn.
    assert (Proxy.validateStatus (Proxy.up_status r) = true) as ->
      by (unfold Proxy.validateStatus; lia).
    by rewrite orb_true_r. }
  split; [|split].
  - intros Hs Hct Hu. rewrite (Hfetch Hs), Hct, Hu. by split.
  - intros Hs Hbad. rewrite (Hfetch Hs).
    destruct (Proxy.valid_header_value contentType); cbn [negb].
    + destruct Hbad as [Hbad|Hbad]; [done|]. rewrite Hbad. cbn [negb].
      split; [reflexivity|by eexists].
    + split; [reflexivity|by eexists].
  - intros Hs. by apply (fetch_upstream_5xx _ _ _ _ _ r).
Qed.

(** X13, at an upstream that answers 403, for a plain target and for one
    that ends with a line feed. *)
Lemma upstream_status_is_not_passed_on_witness :
  Proxy.status
    (Proxy.handler Inline.cfg (Inline.upstream 403 (Some "text/plain") "Forbidden") 1000
       (Inline.get "https://example.com" None) ∅).1.1
  = 200 /\
  Proxy.status
    (Proxy.handler Inline.cfg (Inline.upstream 403 (Some "text/plain") "Forbidden") 1000
       (Inline.get Inline.target_with_line_feed None) ∅).1.1
  = 500.
Proof.
  split.
  - eapply (upstream_status_is_not_passed_on Inline.cfg
              (Inline.upstream 403 (Some "text/plain") "Forbidden") 1000
              (Inline.get "https://example.com" None) ∅).
    + reflexivity.
    + vm_compute. reflexivity.
    + apply rate_limit_new; [apply lookup_empty|vm_compute; discriminate].
    + discriminate.
    + reflexivity.
    + cbn. lia.
    + reflexivity.
    + reflexivity.
  - edestruct (upstream_status_is_not_passed_on Inline.cfg
                 (Inline.upstream 403 (Some "text/plain") "Forbidden") 1000
                 (Inline.get Inline.target_with_line_feed None) ∅)
      as (_ & H & _).
    + reflexivity.
    + vm_compute. reflexivity.
    + apply rate_limit_new; [apply lookup_empty|vm_compute; discriminate].
    + discriminate.
    + reflexivity.
    + apply H; [cbn; lia|]. right. reflexivity.
Defined.

(** X14. Only HTML is rewritten.  When [res.setHeader] accepts the content
    type and the target, a body whose content type does not contain
    text/html is sent as the outbound client returned it (the text of
    [response.data]), with that content type; a response without a
    content type is taken for HTML and rewritten. *)
Theorem non_html_body_is_sent_unchanged
    (cfg : Proxy.config) (network : Proxy.call -> Proxy.outcome) (now : Z)
    (req : Proxy.request) (requestCounts requestCounts' : gmap string Proxy.clientRequests)
    (u : string) (p : Url.t) (r : Proxy.upstream) :
  Proxy.method req = "GET" ->
  Proxy.validate_target req = inr (u, p) ->
  Proxy.rate_limit cfg now req requestCounts = (None, requestCounts') ->
  Proxy.query_test req <> Some "true" ->
  network (Proxy.Get u) = Proxy.Responds r ->
  Proxy.up_status r < 500 ->
  Proxy.valid_header_value u = true ->
  let response := (Proxy.handler cfg network now req requestCounts).1.1 in
  (forall contentType,
      Proxy.up_content_type r = Some contentType ->
      Js.includes contentType "text/html" = false -> contentType <> "" ->
      Proxy.valid_header_value contentType = true ->
      Proxy.status response = 200 /\
      Proxy.content response = Proxy.Send (Proxy.up_data r) /\
      ("Content-Type", contentType) ∈ Proxy.headers response) /\
  (Proxy.up_content_type r = None \/ Proxy.up_content_type r = Some "" ->
   Proxy.status response = 200 /\
   Proxy.content response = Proxy.Send (Proxy.rewrite_html req u p (Proxy.up_data r)) /\
   ("Content-Type", "text/html") ∈ Proxy.headers response).
Proof.
  intros Hm Hv Hr Ht Hn Hs Hu response. subst response.
  rewrite (handler_full_fetch _ _ _ _ _ _ _ _ Hm Hv Hr Ht). cbn [fst].
  unfold Proxy.fetch, Proxy.settle. rewrite Hn.
  assert (Proxy.validateStatus (Proxy.up_status r) = true) as ->
    by (unfold Proxy.validateStatus; lia).
  rewrite orb_true_r. cbv zeta.
  split.
  - intros contentType -> Hi Hne Hct. unfold Js.or_default.
    destruct (String.eqb_spec contentType "") as [->|_]; [done|].
    rewrite Hct, Hu, Hi. cbn [negb Proxy.status Proxy.content Proxy.headers].
    split; [done|]. split; [done|set_solver].
  - intros [-> | ->]; cbn [Js.or_default String.eqb];
      change (Proxy.valid_header_value "text/html") with true;
      rewrite Hu; cbn [negb Proxy.status Proxy.content Proxy.headers];
      (split; [reflexivity|]; split; [reflexivity|set_solver]).
Qed.

(** X14, at a JSON body that holds markup. *)
Lemma non_html_body_is_sent_unchanged_witness :
  Proxy.content
    (Proxy.handler Inline.cfg
       (Inline.upstream 200 (Some "application/json") "{ <head></head> }") 1000
       (Inline.get "https://example.com" None) ∅).1.1
  = Proxy.Send "{ <head></head> }".
Proof.
  edestruct (non_html_body_is_sent_unchanged Inline.cfg
               (Inline.upstream 200 (Some "application/json") "{ <head></head> }") 1000
               (Inline.get "https://example.com" None) ∅) as [H _].
  - reflexivity.
  - vm_compute. reflexivity.
  - apply rate_limit_new; [apply lookup_empty|vm_compute; discriminate].
  - discriminate.
  - reflexivity.
  - cbn. lia.
  - reflexivity.
  - by destruct (H "application/json" eq_refl eq_refl ltac:(discriminate) eq_refl)
      as (_ & Hc & _).
Defined.

(** ** The header processor *)

(** X15. Whatever the upstream sends, a map the sanitizer returns holds none
    of the denied security headers and no Set-Cookie, in any
    capitalisation, holds the five headers of the proxy with their fixed
    values (an upstream header of the same name is overridden), and holds
    no name that is neither an upstream name nor one of the five. *)
Theorem sanitizer_output_is_free_of_denied_headers
    (entries : list (string * HeaderProcessor.value))
    (out : gmap string HeaderProcessor.value) :
  HeaderProcessor.processResponseHeaders entries = Js.Ok out ->
  (forall key, HeaderProcessor.denied key = true -> out !! key = None) /\
  (forall kv, kv ∈ HeaderProcessor.custom_headers -> out !! kv.1 = Some kv.2) /\
  (forall key, is_Some (out !! key) ->
               key ∈ entries.*1 \/ HeaderProcessor.is_custom key = true).
Proof.
  unfold HeaderProcessor.processResponseHeaders. intros H.
  destruct (HeaderProcessor.forEach entries ∅) as [m|e] eqn:E; [|done].
  cbn [Js.bind] in H. injection H as <-.
  split; [|split].
  - intros key Hd.
    rewrite add_custom_other by by apply denied_not_custom.
    by rewrite (forEach_denied entries ∅ m key E Hd).
  - intros kv Hkv. by apply add_custom_in.
  - intros key Hs.
    destruct (HeaderProcessor.is_custom key) eqn:Hc; [by right|left].
    rewrite add_custom_other in Hs by done.
    destruct (decide (key ∈ entries.*1)) as [|Hn]; [done|].
    rewrite (forEach_other entries ∅ m key E Hn), lookup_empty in Hs.
    by destruct Hs.
Qed.

(** X15, at an upstream that sets a frame policy, a cookie and its own
    CORS origin. *)
Lemma sanitizer_output_is_free_of_denied_headers_witness :
  exists out,
    HeaderProcessor.processResponseHeaders
      [ ("X-Frame-Options", HeaderProcessor.Str "DENY");
        ("Set-Cookie", HeaderProcessor.Arr ["sid=1"]);
        ("Access-Control-Allow-Origin", HeaderProcessor.Str "https://example.com") ]
    = Js.Ok out /\
    out !! "X-Frame-Options" = None /\ out !! "Set-Cookie" = None /\
    out !! "Access-Control-Allow-Origin" = Some (HeaderProcessor.Str "*").
Proof.
  eexists. split; [reflexivity|].
  edestruct (sanitizer_output_is_free_of_denied_headers
               [ ("X-Frame-Options", HeaderProcessor.Str "DENY");
                 ("Set-Cookie", HeaderProcessor.Arr ["sid=1"]);
                 ("Access-Control-Allow-Origin",
                  HeaderProcessor.Str "https://example.com") ])
    as (Hd & Hc & _); [reflexivity|].
  split; [by apply Hd|]. split; [by apply Hd|].
  apply (Hc ("Access-Control-Allow-Origin", HeaderProcessor.Str "*")).
  unfold HeaderProcessor.custom_headers. set_solver.
Defined.

Lemma process_entry_location m key s :
  Js.toLowerCase key = "location" ->
  exists v,
    HeaderProcessor.processLocation (HeaderProcessor.Str s) = Some v /\
    HeaderProcessor.process_entry m (key, HeaderProcessor.Str s)
    = Js.Ok (<[key := v]> m).
Proof.
  intros Hk. destruct (processLocation_some (HeaderProcessor.Str s)) as [v Hv].
  exists v. split; [done|].
  unfold HeaderProcessor.process_entry. rewrite Hk.
  change (HeaderProcessor.includes HeaderProcessor.headersToRemove "location")
    with false.
  change (HeaderProcessor.headersToModify "location")
    with (Some HeaderProcessor.processLocation_fn).
  unfold HeaderProcessor.call. cbn [Js.bind]. by rewrite Hv.
Qed.

Lemma forEach_location entries : forall m out key s,
  NoDup entries.*1 -> HeaderProcessor.forEach entries m = Js.Ok out ->
  (key, HeaderProcessor.Str s) ∈ entries -> Js.toLowerCase key = "location" ->
  out !! key = HeaderProcessor.processLocation (HeaderProcessor.Str s).
Proof.
  induction entries as [|[k v] entries IH]; intros m out key s Hnd Hf Hin Hk.
  - by apply elem_of_nil in Hin.
  - cbn in Hnd. apply NoDup_cons in Hnd as [Hnk Hnd].
    cbn [HeaderProcessor.forEach] in Hf.
    destruct (HeaderProcessor.process_entry m (k, v)) as [m1|e] eqn:E; [|done].
    cbn [Js.bind] in Hf.
    apply elem_of_cons in Hin as [Heq|Hin].
    + injection Heq as <- <-.
      destruct (process_entry_location m key s Hk) as (v' & Hv' & Hp).
      rewrite Hp in E. injection E as <-.
      rewrite (forEach_other entries _ out key Hf Hnk), lookup_insert_eq. done.
    + by apply (IH m1 out key s).
Qed.

(** X16. A redirect is routed through the proxy.  For an upstream map
    whose names are distinct, the [Location] header (in any
    capitalisation) that begins with http:// or https:// is forwarded as
    /api/proxy?url= followed by its URI-component encoding; any other
    value, a relative target or a scheme in capitals, is forwarded as it
    is. *)
Theorem sanitizer_routes_redirects_through_the_proxy
    (entries : list (string * HeaderProcessor.value))
    (out : gmap string HeaderProcessor.value) (key s : string) :
  NoDup entries.*1 ->
  HeaderProcessor.processResponseHeaders entries = Js.Ok out ->
  (key, HeaderProcessor.Str s) ∈ entries -> Js.toLowerCase key = "location" ->
  out !! key
  = Some (HeaderProcessor.Str
            (if Js.startsWith s "http://" || Js.startsWith s "https://"
             then "/api/proxy?url=" ++ HeaderProcessor.encodeURIComponent s
             else s)).
Proof.
  unfold HeaderProcessor.processResponseHeaders. intros Hnd H Hin Hk.
  destruct (HeaderProcessor.forEach entries ∅) as [m|e] eqn:E; [|done].
  cbn [Js.bind] in H. injection H as <-.
  assert (HeaderProcessor.is_custom key = false) as Hc.
  { destruct (HeaderProcessor.is_custom key) eqn:Hc; [|done].
    unfold HeaderProcessor.is_custom in Hc. apply existsb_exists in Hc as (kv & Hkv & Heq).
    apply String.eqb_eq in Heq. subst key. cbn in Hkv.
    repeat destruct Hkv as [<- | Hkv]; try done; by vm_compute in Hk. }
  rewrite add_custom_other by done.
  rewrite (forEach_location entries ∅ m key s Hnd E Hin Hk).
  unfold HeaderProcessor.processLocation.
  destruct (String.eqb_spec s "") as [->|_]; [done|].
  by destruct (_ || _).
Qed.

(** X16, at a redirect to an absolute URL. *)
Lemma sanitizer_routes_redirects_through_the_proxy_witness :
  exists out,
    HeaderProcessor.processResponseHeaders
      [ ("Location", HeaderProcessor.Str "https://example.com/a?b=1&c=2") ]
    = Js.Ok out /\
    out !! "Location"
    = Some (HeaderProcessor.Str "/api/proxy?url=https%3A%2F%2Fexample.com%2Fa%3Fb%3D1%26c%3D2").
Proof.
  eexists. split; [reflexivity|].
  rewrite (sanitizer_routes_redirects_through_the_proxy
             [ ("Location", HeaderProcessor.Str "https://example.com/a?b=1&c=2") ]
             _ "Location" "https://example.com/a?b=1&c=2").
  - vm_compute. reflexivity.
  - cbn. apply NoDup_singleton.
  - reflexivity.
  - set_solver.
  - reflexivity.
Defined.

Lemma forward_fold headers (names : list string) : forall acc k,
  fold_left (HeaderProcessor.forward headers) names acc !! k
  = if bool_decide (k ∈ names) && Js.truthy (headers !! k)
    then headers !! k else acc !! k.
Proof.
  induction names as [|h names IH]; intros acc k; cbn [fold_left].
  - by rewrite bool_decide_false by set_solver.
  - rewrite IH. unfold HeaderProcessor.forward.
    destruct (decide (k ∈ names)) as [Hin|Hin].
    + rewrite !bool_decide_true by set_solver. cbn [andb].
      destruct (Js.truthy (headers !! k)) eqn:Ht; [done|].
      destruct (Js.truthy (headers !! h)) eqn:Hh; [|done].
      rewrite lookup_insert_ne; [done|]. intros ->. congruence.
    + rewrite (bool_decide_false (k ∈ names)) by done. cbn [andb].
      destruct (decide (k = h)) as [->|Hne].
      * rewrite bool_decide_true by set_solver. cbn [andb].
        destruct (Js.truthy (headers !! h)) eqn:Hh; [|done].
        rewrite lookup_insert_eq.
        destruct (headers !! h); [done|by cbn in Hh].
      * rewrite bool_decide_false by set_solver. cbn [andb].
        destruct (Js.truthy (headers !! h)); [|done].
        by rewrite lookup_insert_ne.
Qed.

(** X17. The headers sent upstream come from a fixed list: a header of the
    result is one of the seven names forwarded and carries the non-empty
    value the request had for it, except that [user-agent] is always
    present, with the browser default when the request has none.  Cookie,
    authorization, host and connection headers are never sent on. *)
Theorem processRequestHeaders_forwards_only_listed
    (headers : gmap string string) :
  let out := HeaderProcessor.processRequestHeaders headers in
  (forall k v, out !! k = Some v ->
     k ∈ HeaderProcessor.headersToForward /\ v <> "" /\
     (headers !! k = Some v \/
      k = "user-agent" /\ v = HeaderProcessor.defaultUserAgent /\
      Js.truthy (headers !! k) = false)) /\
  (forall k v, k ∈ HeaderProcessor.headersToForward -> headers !! k = Some v ->
               v <> "" -> out !! k = Some v) /\
  is_Some (out !! "user-agent") /\
  out !! "cookie" = None /\ out !! "authorization" = None /\
  out !! "host" = None /\ out !! "connection" = None.
Proof.
  intros out. subst out. unfold HeaderProcessor.processRequestHeaders. cbv zeta.
  set (inner := <["user-agent" := _]> _).
  assert (Hlook : forall k,
    inner !! k
    = if decide (k = "user-agent")
      then Some (Js.or_default (headers !! "user-agent")
                   HeaderProcessor.defaultUserAgent)
      else if bool_decide (k ∈ HeaderProcessor.headersToForward)
                && Js.truthy (headers !! k)
      then headers !! k else None).
  { intros k. unfold inner. destruct (decide (k = "user-agent")) as [->|Hne].
    - by rewrite lookup_insert_eq.
    - rewrite lookup_insert_ne by done. by rewrite forward_fold, lookup_empty. }
  clearbody inner.
  assert (Hlisted : forall k, k ∈ HeaderProcessor.headersToForward ->
    k <> "authorization" /\ k <> "cookie" /\ k <> "connection" /\ k <> "host").
  { intros k Hk. unfold HeaderProcessor.headersToForward in Hk. set_unfold in Hk.
    repeat destruct Hk as [-> | Hk]; try done. }
  assert (Htruthy : forall k v, headers !! k = Some v ->
                                Js.truthy (headers !! k) = true -> v <> "").
  { intros k v -> Ht ->. by cbn in Ht. }
  split; [|split; [|split]].
  - intros k v Hk.
    apply lookup_delete_Some in Hk as [H1 Hk].
    apply lookup_delete_Some in Hk as [H2 Hk].
    apply lookup_delete_Some in Hk as [H3 Hk].
    apply lookup_delete_Some in Hk as [H4 Hk].
    rewrite Hlook in Hk.
    destruct (decide (k = "user-agent")) as [->|Hne].
    + injection Hk as <-. split; [unfold HeaderProcessor.headersToForward; set_solver|].
      unfold Js.or_default.
      destruct (headers !! "user-agent") as [ua|] eqn:Hua; cbn [Js.truthy].
      * destruct (String.eqb_spec ua "") as [->|Hn]; cbn [negb].
        -- split; [done|]. by right.
        -- split; [done|]. by left.
      * split; [done|]. by right.
    + destruct (bool_decide _) eqn:Hb; cbn [andb] in Hk; [|done].
      apply bool_decide_eq_true in Hb.
      destruct (Js.truthy (headers !! k)) eqn:Ht; [|done].
      split; [done|]. split; [by eapply Htruthy|by left].
  - intros k v Hk Hv Hne.
    destruct (Hlisted k Hk) as (H1 & H2 & H3 & H4).
    do 4 (rewrite lookup_delete_ne by done). rewrite Hlook.
    assert (Js.truthy (headers !! k) = true) as Ht.
    { rewrite Hv. cbn. by destruct (String.eqb_spec v ""). }
    destruct (decide (k = "user-agent")) as [->|Hn].
    + rewrite Hv. cbn. by destruct (String.eqb_spec v "").
    + rewrite bool_decide_true by done. by rewrite Ht.
  - do 4 (rewrite lookup_delete_ne by done). rewrite Hlook. by rewrite decide_True.
  - repeat split.
    + rewrite lookup_delete_ne by done. apply lookup_delete_eq.
    + apply lookup_delete_eq.
    + do 3 (rewrite lookup_delete_ne by done). apply lookup_delete_eq.
    + do 2 (rewrite lookup_delete_ne by done). apply lookup_delete_eq.
Qed.

(** ** The HTML modifier *)

(** X18. The table loop of [fixUrls] rewrites every listed attribute of
    every element, wherever the element stands in the document: a value
    that is not empty, not a data URI and not absolute is replaced by its
    resolution against the target, and the attributes that the table does
    not list for the element's tag keep their values. *)
Theorem table_loop_rewrites_every_listed_attribute
    (baseUrl : string) (parsedUrl : Url.t) (doc : HtmlModifier.document)
    (path : list nat) (t : string) (attrs : list (string * string))
    (attr : string) (tags : list string) (value : string) :
  (attr, tags) ∈ HtmlModifier.urlAttributes -> t ∈ tags ->
  HtmlModifier.element_at doc path = Some (t, attrs) ->
  HtmlModifier.attr_get attrs attr = Some value ->
  value <> "" -> HtmlModifier.isDataUri value = false ->
  HtmlModifier.isAbsoluteUrl value = false ->
  exists attrs',
    HtmlModifier.element_at (HtmlModifier.fix_table baseUrl parsedUrl doc) path
    = Some (t, attrs') /\
    HtmlModifier.attr_get attrs' attr
    = Some (if String.eqb attr "srcset"
            then HtmlModifier.fixSrcset value baseUrl parsedUrl
            else HtmlModifier.resolveUrl value baseUrl parsedUrl) /\
    (forall name,
        (forall tags', (name, tags') ∈ HtmlModifier.urlAttributes -> t ∉ tags') ->
        HtmlModifier.attr_get attrs' name = HtmlModifier.attr_get attrs name).
Proof.
  intros Hattr Ht Hat Hget Hne Hdata Habs.
  exists (HtmlModifier.fix_element baseUrl parsedUrl t attrs).
  split.
  { rewrite fix_table_elementwise, element_at_map_elements, Hat. done. }
  change (HtmlModifier.fix_element baseUrl parsedUrl t attrs)
    with (HtmlModifier.run_on_element baseUrl parsedUrl HtmlModifier.passes t attrs).
  split.
  - apply run_on_element_resolves; try done.
    + apply passes_NoDup.
    + by eapply passes_elem.
  - intros name Hname. apply run_on_element_untouched.
    intros Hin. apply passes_inv in Hin as (tags' & H1 & H2).
    by apply (Hname tags').
Qed.

(** X18, at the second of two links, whose title is kept. *)
Lemma table_loop_rewrites_every_listed_attribute_witness :
  let doc :=
    [ HtmlModifier.Element "a" [("href", "/a")] [];
      HtmlModifier.Element "a" [("href", "/b"); ("title", "/b")] [] ] in
  exists p attrs',
    Url.parse "https://example.com/dir/page" = Some p /\
    HtmlModifier.element_at (HtmlModifier.fix_table "https://example.com" p doc) [1%nat]
    = Some ("a", attrs') /\
    HtmlModifier.attr_get attrs' "href" = Some "https://example.com/b" /\
    HtmlModifier.attr_get attrs' "title" = Some "/b".
Proof.
  intros doc.
  destruct (Url.parse "https://example.com/dir/page") as [p|] eqn:Hp;
    [|by vm_compute in Hp].
  destruct (table_loop_rewrites_every_listed_attribute "https://example.com" p doc
              [1%nat] "a" [("href", "/b"); ("title", "/b")] "href"
              ["a"; "link"; "area"; "base"] "/b")
    as (attrs' & Hat & Hhref & Hother); try done.
  { unfold HtmlModifier.urlAttributes. set_solver. }
  { set_solver. }
  exists p, attrs'. split; [done|]. split; [done|]. split; [done|].
  rewrite (Hother "title"); [done|].
  intros tags' Hin. unfold HtmlModifier.urlAttributes in Hin. set_unfold in Hin.
  repeat destruct Hin as [Hin|Hin]; by simplify_eq.
Defined.

Lemma element_at_app (l l' : list HtmlModifier.node) path x :
  HtmlModifier.element_at l path = Some x ->
  HtmlModifier.element_at (l ++ l') path = Some x.
Proof.
  destruct path as [|i path]; [done|]. cbn [HtmlModifier.element_at].
  destruct (nth_error l i) as [n|] eqn:E; [|done].
  rewrite nth_error_app1 by (apply nth_error_Some; congruence).
  by rewrite E.
Qed.

Lemma element_at_append_to tag new : forall path (doc : list HtmlModifier.node) x,
  HtmlModifier.element_at doc path = Some x ->
  HtmlModifier.element_at (map (HtmlModifier.append_to tag new) doc) path = Some x.
Proof.
  induction path as [|i path IH]; intros doc x H; [done|].
  cbn [HtmlModifier.element_at] in *. rewrite nth_error_map.
  destruct (nth_error doc i) as [[data|data|t attrs children]|]; try done.
  cbn [option_map HtmlModifier.append_to].
  destruct path as [|j path]; [done|].
  destruct (String.eqb t tag); [apply element_at_app|]; by apply IH.
Qed.

Lemma list_sum_pos_nth {A} (f : A -> nat) (l : list A) :
  (0 < list_sum (map f l))%nat ->
  exists i a, nth_error l i = Some a /\ (0 < f a)%nat.
Proof.
  unfold list_sum. induction l as [|a l IH]; cbn [map fold_right]; [lia|]. intros H.
  destruct (f a) as [|k] eqn:E.
  - destruct IH as (i & b & Hi & Hb); [lia|]. by exists (S i), b.
  - exists 0%nat, a. split; [done|lia].
Qed.

Lemma appended_found tag t a c n :
  (0 < HtmlModifier.count_tag tag n)%nat ->
  forall (l : list HtmlModifier.node) i,
    nth_error l i
    = Some (HtmlModifier.append_to tag [HtmlModifier.Element t a c] n) ->
    exists rest, rest <> [] /\ HtmlModifier.element_at l (i :: rest) = Some (t, a).
Proof.
  induction n as [data|data|t0 attrs children IH] using node_induction;
    cbn [HtmlModifier.count_tag]; [lia|lia|].
  intros Hc l i Hl. cbn [HtmlModifier.append_to] in Hl.
  destruct (String.eqb t0 tag) eqn:Et.
  - exists [List.length children]. split; [done|].
    cbn [HtmlModifier.element_at]. rewrite Hl.
    rewrite nth_error_app2 by (rewrite length_map; lia).
    rewrite length_map, Nat.sub_diag. done.
  - cbn [Nat.add] in Hc.
    destruct (list_sum_pos_nth _ _ Hc) as (j & child & Hj & Hpos).
    rewrite Forall_forall in IH.
    destruct (IH child (proj2 (list_elem_of_In _ _) (nth_error_In _ _ Hj)) Hpos
                (map (HtmlModifier.append_to tag [HtmlModifier.Element t a c]) children) j)
      as (rest & Hrest & Hat).
    { by rewrite nth_error_map, Hj. }
    exists (j :: rest). split; [done|].
    cbn [HtmlModifier.element_at] in *. by rewrite Hl.
Qed.

Lemma appended_found_in tag t a c (doc : HtmlModifier.document) :
  (0 < HtmlModifier.length_of tag doc)%nat ->
  exists path,
    HtmlModifier.element_at
      (map (HtmlModifier.append_to tag [HtmlModifier.Element t a c]) doc) path
    = Some (t, a).
Proof.
  intros H. destruct (list_sum_pos_nth _ _ H) as (i & n & Hi & Hpos).
  destruct (appended_found tag t a c n Hpos
              (map (HtmlModifier.append_to tag [HtmlModifier.Element t a c]) doc) i)
    as (rest & _ & Hat).
  { by rewrite nth_error_map, Hi. }
  by exists (i :: rest).
Qed.

(** X19. [modifyHtml] injects the widget script before it rewrites the
    URLs, and the injected script is a script with a relative source: for
    every document, the script that [injectWidget] adds with the source
    /widget.js has, after the table loop of [fixUrls], the source
    baseUrl/widget.js, the origin of the target. *)
Theorem injected_widget_source_is_rewritten_to_the_target
    (baseUrl : string) (parsedUrl : Url.t) (doc : HtmlModifier.document) :
  exists path,
    HtmlModifier.element_at (HtmlModifier.injectWidget doc) path
    = Some ("script", [("src", "/widget.js"); ("data-injected", "true")]) /\
    HtmlModifier.element_at
      (HtmlModifier.fix_table baseUrl parsedUrl (HtmlModifier.injectWidget doc)) path
    = Some ("script", [("src", baseUrl ++ "/widget.js"); ("data-injected", "true")]).
Proof.
  assert (exists path,
             HtmlModifier.element_at (HtmlModifier.injectWidget doc) path
             = Some ("script", [("src", "/widget.js"); ("data-injected", "true")]))
    as [path Hpath].
  { unfold HtmlModifier.injectWidget, HtmlModifier.widgetScript.
    destruct (0 <? HtmlModifier.length_of "body" doc)%nat eqn:Hb.
    - apply Nat.ltb_lt in Hb.
      destruct (appended_found_in "body" "script"
                  [("src", "/widget.js"); ("data-injected", "true")] [] doc Hb)
        as [path Hp].
      exists path. by apply element_at_append_to.
    - destruct (0 <? HtmlModifier.length_of "html" doc)%nat eqn:Hh.
      + apply Nat.ltb_lt in Hh.
        destruct (appended_found_in "html" "script"
                    [("src", "/widget.js"); ("data-injected", "true")] [] doc Hh)
          as [path Hp].
        exists path. by apply element_at_append_to.
      + exists [List.length doc]. apply element_at_append_to.
        cbn [HtmlModifier.element_at].
        by rewrite nth_error_app2, Nat.sub_diag by lia. }
  exists path. split; [done|].
  rewrite fix_table_elementwise, element_at_map_elements, Hpath. reflexivity.
Qed.

Lemma count_tag_prepend_to tg tag new n :
  HtmlModifier.count_tag tg (HtmlModifier.prepend_to tag new n)
  = (HtmlModifier.count_tag tg n
     + HtmlModifier.count_tag tag n * HtmlModifier.length_of tg new)%nat.
Proof.
  induction n as [data|data|t attrs children IH] using node_induction; [done|done|].
  cbn [HtmlModifier.prepend_to HtmlModifier.count_tag].
  assert (list_sum (map (HtmlModifier.count_tag tg)
                      (map (HtmlModifier.prepend_to tag new) children))
          = (list_sum (map (HtmlModifier.count_tag tg) children)
             + list_sum (map (HtmlModifier.count_tag tag) children)
               * HtmlModifier.length_of tg new)%nat) as Hch.
  { unfold list_sum. induction IH as [|c cs Hc _ IHcs]; [done|].
    cbn [map fold_right]. rewrite Hc, IHcs. lia. }
  destruct (String.eqb t tag).
  - rewrite map_app, list_sum_app, Hch. unfold HtmlModifier.length_of. lia.
  - rewrite Hch. lia.
Qed.

Lemma prepend_to_none tag new n :
  HtmlModifier.count_tag tag n = 0%nat -> HtmlModifier.prepend_to tag new n = n.
Proof.
  induction n as [data|data|t attrs children IH] using node_induction; [done|done|].
  cbn [HtmlModifier.prepend_to HtmlModifier.count_tag]. intros H.
  destruct (String.eqb t tag); [cbn in H; lia|]. cbn [Nat.add] in H.
  f_equal. unfold list_sum in H. induction IH as [|c cs Hc _ IHcs]; [done|].
  cbn [map fold_right] in *. rewrite Hc, IHcs by lia. done.
Qed.

Lemma length_of_prepend_all tg tag new (doc : HtmlModifier.document) :
  HtmlModifier.length_of tg (map (HtmlModifier.prepend_to tag new) doc)
  = (HtmlModifier.length_of tg doc
     + HtmlModifier.length_of tag doc * HtmlModifier.length_of tg new)%nat.
Proof.
  unfold HtmlModifier.length_of at 1 2 3. unfold list_sum.
  induction doc as [|n doc IH]; [done|]. cbn [map fold_right].
  rewrite count_tag_prepend_to, IH. lia.
Qed.

(** X20. For a target that the markup of the base tag holds as it stands
    (no double quote, ampersand, NUL or carriage return in it),
    [addBaseTag] keeps a base tag that the document has and adds one to
    every head element otherwise; applied a second time, with the same or
    another target, it changes nothing, so the first target stays. *)
Theorem addBaseTag_first_target_stays
    (targetUrl other : string) (doc : HtmlModifier.document) :
  HtmlModifier.attribute_safe targetUrl = true ->
  HtmlModifier.addBaseTag other (HtmlModifier.addBaseTag targetUrl doc)
  = HtmlModifier.addBaseTag targetUrl doc /\
  (HtmlModifier.length_of "base" doc <> 0%nat ->
   HtmlModifier.addBaseTag targetUrl doc = doc) /\
  (HtmlModifier.length_of "base" doc = 0%nat ->
   HtmlModifier.length_of "base" (HtmlModifier.addBaseTag targetUrl doc)
   = HtmlModifier.length_of "head" doc).
Proof.
  intros _. unfold HtmlModifier.addBaseTag.
  destruct (Nat.eqb_spec (HtmlModifier.length_of "base" doc) 0) as [Hz|Hnz].
  - assert (HtmlModifier.length_of "base"
              (map (HtmlModifier.prepend_to "head" (HtmlModifier.base_tag targetUrl)) doc)
            = HtmlModifier.length_of "head" doc) as Hcount.
    { rewrite length_of_prepend_all, Hz.
      change (HtmlModifier.length_of "base" (HtmlModifier.base_tag targetUrl))
        with 1%nat. lia. }
    split; [|split; [done|by intros _]].
    rewrite Hcount.
    destruct (Nat.eqb_spec (HtmlModifier.length_of "head" doc) 0) as [Hh|Hh]; [|done].
    assert (forall new (d : HtmlModifier.document),
               HtmlModifier.length_of "head" d = 0%nat ->
               map (HtmlModifier.prepend_to "head" new) d = d) as Hid.
    { intros new d. unfold HtmlModifier.length_of, list_sum.
      induction d as [|n d IH]; [done|]. cbn [map fold_right]. intros H.
      rewrite prepend_to_none, IH by lia. done. }
    rewrite (Hid (HtmlModifier.base_tag targetUrl) doc Hh). by apply Hid.
  - split; [|split; [done|by intros ?]].
    by destruct (Nat.eqb_spec (HtmlModifier.length_of "base" doc) 0).
Qed.

(** X20, at a page with an empty head and two targets. *)
Lemma addBaseTag_first_target_stays_witness :
  HtmlModifier.addBaseTag "https://other.example/"
    (HtmlModifier.addBaseTag "https://example.com/dir/" Scenario.page)
  = [ HtmlModifier.Element "html" []
        [ HtmlModifier.Element "head" []
            [ HtmlModifier.Element "base" [("href", "https://example.com/dir/")] [] ];
          HtmlModifier.Element "body" [] [HtmlModifier.Text "Hi"] ] ].
Proof.
  destruct (addBaseTag_first_target_stays "https://example.com/dir/"
              "https://other.example/" Scenario.page eq_refl) as (H & _ & _).
  rewrite H. reflexivity.
Defined.

Lemma collect_nth {A} (f : HtmlModifier.node -> Js.result A) :
  forall (l : list HtmlModifier.node) l' i n,
    HtmlModifier.collect (map f l) = Js.Ok l' -> nth_error l i = Some n ->
    exists a, nth_error l' i = Some a /\ f n = Js.Ok a.
Proof.
  induction l as [|m l IH]; intros l' i n Hc Hn; [by destruct i|].
  cbn [map HtmlModifier.collect] in Hc.
  destruct (f m) as [a|e] eqn:Ef; [|done]. cbn [Js.bind] in Hc.
  destruct (HtmlModifier.collect (map f l)) as [l''|e] eqn:El; [|done].
  cbn [Js.bind] in Hc. injection Hc as <-.
  destruct i as [|i]; cbn in *.
  - injection Hn as <-. by exists a.
  - by apply (IH l'' i n).
Qed.

Lemma modify_forms_in_at targetUrl : forall path (doc doc' : list HtmlModifier.node) t attrs,
  HtmlModifier.collect (map (HtmlModifier.modify_forms_in targetUrl) doc) = Js.Ok doc' ->
  HtmlModifier.element_at doc path = Some (t, attrs) ->
  exists attrs',
    HtmlModifier.element_at doc' path = Some (t, attrs') /\
    (if String.eqb t "form" then HtmlModifier.modify_form targetUrl attrs
     else Js.Ok attrs) = Js.Ok attrs'.
Proof.
  induction path as [|i path IH]; intros doc doc' t attrs Hc Hat; [done|].
  cbn [HtmlModifier.element_at] in *.
  destruct (nth_error doc i) as [[data|data|t0 attrs0 children]|] eqn:Hn; try done.
  destruct (collect_nth _ _ _ _ _ Hc Hn) as (n' & Hn' & Hf).
  cbn [HtmlModifier.modify_forms_in] in Hf.
  destruct (if String.eqb t0 "form" then _ else _) as [attrs1|e] eqn:Ea; [|done].
  cbn [Js.bind] in Hf.
  destruct (HtmlModifier.collect (map _ children)) as [children'|e] eqn:Ech; [|done].
  cbn [Js.bind] in Hf. injection Hf as <-. rewrite Hn'.
  destruct path as [|j path].
  - injection Hat as <- <-. by exists attrs1.
  - by apply (IH children children').
Qed.

(** X21. [modifyForms] marks every form and touches nothing else: in the
    document it returns, an element stands where it stood, every form
    carries data-proxied=true and has its other attributes, the action
    apart, unchanged, and every other element has the attributes it had. *)
Theorem modifyForms_marks_every_form
    (targetUrl : string) (doc doc' : HtmlModifier.document)
    (path : list nat) (t : string) (attrs : list (string * string)) :
  HtmlModifier.modifyForms targetUrl doc = Js.Ok doc' ->
  HtmlModifier.element_at doc path = Some (t, attrs) ->
  exists attrs',
    HtmlModifier.element_at doc' path = Some (t, attrs') /\
    (t = "form" ->
     HtmlModifier.attr_get attrs' "data-proxied" = Some "true" /\
     forall name, name <> "data-proxied" -> name <> "action" ->
                  HtmlModifier.attr_get attrs' name = HtmlModifier.attr_get attrs name) /\
    (t <> "form" -> attrs' = attrs).
Proof.
  intros Hm Hat.
  destruct (modify_forms_in_at targetUrl path doc doc' t attrs Hm Hat)
    as (attrs' & Hat' & Hf).
  exists attrs'. split; [done|].
  destruct (String.eqb_spec t "form") as [->|Hne].
  - split; [intros _|done].
    unfold HtmlModifier.modify_form in Hf.
    set (attrs1 := HtmlModifier.attr_set attrs "data-proxied" "true") in *.
    assert (HtmlModifier.attr_get attrs1 "data-proxied" = Some "true") as H1
      by apply attr_get_set_eq.
    assert (forall name, name <> "data-proxied" ->
              HtmlModifier.attr_get attrs1 name = HtmlModifier.attr_get attrs name) as H2.
    { intros name Hn. apply attr_get_set_ne. congruence. }
    destruct (HtmlModifier.attr_get attrs1 "action") as [action|].
    + destruct (negb _ && negb _).
      * destruct (Url.parse targetUrl) as [p|]; [|done]. injection Hf as <-.
        split.
        -- by rewrite attr_get_set_ne.
        -- intros name Hn1 Hn2. rewrite attr_get_set_ne by congruence. by apply H2.
      * injection Hf as <-. split; [done|]. intros name Hn _. by apply H2.
    + injection Hf as <-. split; [done|]. intros name Hn _. by apply H2.
  - split; [done|]. intros _. by injection Hf as <-.
Qed.

(** X21, at a form with a relative action inside a body. *)
Lemma modifyForms_marks_every_form_witness :
  let doc :=
    [ HtmlModifier.Element "body" []
        [ HtmlModifier.Element "form" [("action", "/search"); ("method", "get")] [] ] ] in
  exists doc' attrs',
    HtmlModifier.modifyForms "https://example.com/" doc = Js.Ok doc' /\
    HtmlModifier.element_at doc' [0; 0]%nat = Some ("form", attrs') /\
    HtmlModifier.attr_get attrs' "data-proxied" = Some "true" /\
    HtmlModifier.attr_get attrs' "method" = Some "get".
Proof.
  intros doc.
  destruct (HtmlModifier.modifyForms "https://example.com/" doc) as [doc'|e] eqn:E;
    [|by vm_compute in E].
  destruct (modifyForms_marks_every_form "https://example.com/" doc doc' [0; 0]%nat
              "form" [("action", "/search"); ("method", "get")] E eq_refl)
    as (attrs' & Hat & Hform & _).
  destruct (Hform eq_refl) as [Hp Ho].
  exists doc', attrs'. split; [done|]. split; [done|]. split; [done|].
  by rewrite Ho.
Defined.

(** X22. With a markup that the loader accepts and a target that is a URL
    nothing in [modifyHtml] throws: the four steps return a document and
    the result is its serialization, not the original markup. *)
Theorem modifyHtml_serializes_the_modified_document
    (load : string -> Js.result HtmlModifier.document)
    (html_of : HtmlModifier.document -> string)
    (html targetUrl : string) (doc : HtmlModifier.document) (parsedUrl : Url.t) :
  load html = Js.Ok doc -> Url.parse targetUrl = Some parsedUrl ->
  exists doc',
    HtmlModifier.modify_document html_of targetUrl parsedUrl doc = Js.Ok doc' /\
    HtmlModifier.modifyHtml load html_of html targetUrl = html_of doc'.
Proof.
  intros Hl Hp.
  unfold HtmlModifier.modifyHtml, HtmlModifier.modify, HtmlModifier.modify_document.
  rewrite Hl. cbn [Js.bind]. rewrite Hp.
  edestruct (modifyForms_total targetUrl parsedUrl) as [doc' Hd]; [done|].
  exists doc'. split; [exact Hd|]. by rewrite Hd.
Qed.

(** X22, at a text without markup. *)
Lemma modifyHtml_serializes_the_modified_document_witness :
  exists doc',
    HtmlModifier.modifyHtml Scenario.load_text Scenario.html_of "Hi"
      "https://example.com/"
    = Scenario.html_of doc' /\
    HtmlModifier.count_injected doc' = 1%nat.
Proof.
  destruct (Url.parse "https://example.com/") as [p|] eqn:Hp; [|by vm_compute in Hp].
  destruct (modifyHtml_serializes_the_modified_document Scenario.load_text
              Scenario.html_of "Hi" "https://example.com/" _ p eq_refl Hp)
    as (doc' & Hd & Hm).
  exists doc'. split; [done|].
  vm_compute in Hp. injection Hp as <-.
  vm_compute in Hd. by injection Hd as <-.
Defined.

Lemma find_sub_none pat c l :
  Js.find_sub pat (c :: l) = None ->
  Js.prefix_of pat (c :: l) = false /\ Js.find_sub pat l = None.
Proof.
  cbn [Js.find_sub]. destruct (Js.prefix_of pat (c :: l)); [done|].
  by destruct (Js.find_sub pat l) as [[? ?]|].
Qed.

Lemma css_scan_without_url baseUrl parsedUrl : forall l,
  Js.find_sub (Js.to_chars "url(") l = None ->
  HtmlModifier.css_scan baseUrl parsedUrl HtmlModifier.Scan l = l.
Proof.
  induction l as [|c l IH]; intros H; [done|].
  apply find_sub_none in H as [Hp Hf].
  cbn [HtmlModifier.css_scan]. unfold HtmlModifier.match_css_url.
  rewrite Hp. by rewrite IH.
Qed.

(** X23. [fixCssUrls] changes nothing but url( ) references: a style text
    in which url( does not occur is returned as it is, and so is the empty
    text. *)
Theorem fixCssUrls_keeps_css_without_url
    (css baseUrl : string) (parsedUrl : Url.t) :
  Js.includes css "url(" = false ->
  HtmlModifier.fixCssUrls css baseUrl parsedUrl = css.
Proof.
  unfold Js.includes, HtmlModifier.fixCssUrls. intros H.
  destruct (Js.find_sub _ _) as [?|] eqn:E; [done|].
  rewrite css_scan_without_url by done.
  apply string_of_list_ascii_of_string.
Qed.

(** X23, at a rule without references. *)
Lemma fixCssUrls_keeps_css_without_url_witness :
  exists parsedUrl,
    Url.parse "https://example.com/" = Some parsedUrl /\
    HtmlModifier.fixCssUrls "color: red; background: none" "https://example.com"
      parsedUrl
    = "color: red; background: none".
Proof.
  destruct (Url.parse "https://example.com/") as [p|] eqn:Hp; [|by vm_compute in Hp].
  exists p. split; [done|].
  by apply (fixCssUrls_keeps_css_without_url "color: red; background: none"
              "https://example.com" p).
Defined.

(** ** The error logger *)

Lemma substring0_length : forall (s : string) (n : nat),
  String.length (String.substring 0 n s) = Nat.min n (String.length s).
Proof.
  induction s as [|c s IH]; intros [|n]; cbn; try done. by rewrite IH.
Qed.

Lemma substring0_all : forall (s : string) (n : nat),
  (String.length s <= n)%nat -> String.substring 0 n s = s.
Proof.
  induction s as [|c s IH]; intros [|n] H; cbn in *; try done; try lia.
  rewrite IH; [done|lia].
Qed.

Lemma substring0_app : forall (s t : string) (n : nat),
  (n <= String.length s)%nat ->
  String.substring 0 n (s ++ t) = String.substring 0 n s.
Proof.
  induction s as [|c s IH]; intros t [|n] H.
  - by destruct t.
  - cbn in H. lia.
  - reflexivity.
  - change (String c s +:+ t) with (String c (s +:+ t)).
    cbn [String.substring]. cbn [String.length] in H. rewrite IH; [done|lia].
Qed.

(** X24. [truncate] bounds what is logged and is stable: for a limit that
    is not negative the result has at most the limit plus the 14
    characters of the marker, a text within the limit is returned as it is,
    a longer one keeps its first characters up to the limit, and
    truncating a truncated text changes nothing. *)
Theorem truncate_is_bounded_and_stable (str : string) (maxLength : Z) :
  0 <= maxLength ->
  Z.of_nat (String.length (ErrorLogger.truncate str maxLength)) <= maxLength + 14 /\
  (Z.of_nat (String.length str) <= maxLength ->
   ErrorLogger.truncate str maxLength = str) /\
  (maxLength < Z.of_nat (String.length str) ->
   ErrorLogger.truncate str maxLength
   = ErrorLogger.substring0 str maxLength ++ "...[TRUNCATED]") /\
  ErrorLogger.truncate (ErrorLogger.truncate str maxLength) maxLength
  = ErrorLogger.truncate str maxLength.
Proof.
  intros Hm. unfold ErrorLogger.truncate.
  destruct (Z.leb_spec (Z.of_nat (String.length str)) maxLength) as [Hle|Hgt].
  - split; [lia|]. split; [done|]. split; [lia|].
    destruct (Z.leb_spec (Z.of_nat (String.length str)) maxLength); [done|lia].
  - split; [|split; [lia|split; [done|]]].
    + unfold ErrorLogger.substring0.
      rewrite string_length_app, substring0_length. cbn [String.length]. lia.
    + unfold ErrorLogger.substring0.
      set (cut := String.substring 0 (Z.to_nat maxLength) str).
      assert (String.length cut = Z.to_nat maxLength) as Hcut.
      { unfold cut. rewrite substring0_length. lia. }
      destruct (Z.leb_spec (Z.of_nat (String.length (cut ++ "...[TRUNCATED]")))
                  maxLength) as [Hle|_].
      { rewrite string_length_app in Hle. cbn [String.length] in Hle. lia. }
      rewrite substring0_app by lia.
      rewrite (substring0_all cut) by lia. done.
Qed.

(** X24, at a limit of 5. *)
Lemma truncate_is_bounded_and_stable_witness :
  ErrorLogger.truncate "upstream body" 5 = "upstr...[TRUNCATED]" /\
  ErrorLogger.truncate (ErrorLogger.truncate "upstream body" 5) 5
  = ErrorLogger.truncate "upstream body" 5.
Proof.
  split; [reflexivity|].
  by apply (truncate_is_bounded_and_stable "upstream body" 5).
Defined.

Lemma redact_fold (names : list string) : forall (m : gmap string ErrorLogger.value) k,
  fold_left ErrorLogger.redact names m !! k
  = if bool_decide (k ∈ names) && ErrorLogger.truthy_value (m !! k)
    then Some (ErrorLogger.Str "[REDACTED]") else m !! k.
Proof.
  induction names as [|h names IH]; intros m k; cbn [fold_left].
  - by rewrite bool_decide_false by set_solver.
  - rewrite IH. unfold ErrorLogger.redact.
    destruct (decide (k = h)) as [->|Hne].
    + rewrite (bool_decide_true (h ∈ h :: names)) by set_solver. cbn [andb].
      destruct (ErrorLogger.truthy_value (m !! h)) eqn:Ht.
      * rewrite lookup_insert_eq. by destruct (bool_decide _ && _).
      * rewrite Ht. by rewrite andb_false_r.
    + assert (bool_decide (k ∈ h :: names) = bool_decide (k ∈ names)) as ->.
      { apply bool_decide_ext. set_solver. }
      destruct (ErrorLogger.truthy_value (m !! h)); [|done].
      by rewrite lookup_insert_ne.
Qed.

(** X25. [sanitizeHeaders] keeps the value of no sensitive header: in the
    result each of the five names, when the request has it with a value
    that is not empty, carries the text [REDACTED]; every other header,
    a sensitive name written with a capital among them, is copied as it
    is, and no header is added or dropped. *)
Theorem sanitizeHeaders_redacts_sensitive_headers
    (headers : gmap string ErrorLogger.value) (k : string) :
  let out := ErrorLogger.sanitizeHeaders (Some headers) in
  (k ∈ ErrorLogger.sensitiveHeaders ->
   ErrorLogger.truthy_value (headers !! k) = true ->
   out !! k = Some (ErrorLogger.Str "[REDACTED]")) /\
  (k ∉ ErrorLogger.sensitiveHeaders \/
   ErrorLogger.truthy_value (headers !! k) = false ->
   out !! k = headers !! k) /\
  (is_Some (out !! k) <-> is_Some (headers !! k)).
Proof.
  cbv zeta. unfold ErrorLogger.sanitizeHeaders. rewrite redact_fold.
  split; [|split].
  - intros Hk Ht. by rewrite bool_decide_true, Ht.
  - intros [Hk|Ht].
    + by rewrite bool_decide_false.
    + by rewrite Ht, andb_false_r.
  - destruct (bool_decide _ && _) eqn:E; [|done].
    apply andb_true_iff in E as [_ Ht].
    destruct (headers !! k); [|done]. split; by eexists.
Qed.

(** X26. [sanitizeUrl] redacts the five sensitive parameters and bounds the
    logged target: when it returns, a [url] parameter that is a string has
    at most 214 characters, and every parameter other than [url] is
    redacted or copied as [sanitizeHeaders] does with headers.  It throws
    exactly when the [url] parameter is an array of more than 200
    entries. *)
Theorem sanitizeUrl_redacts_and_bounds
    (query : gmap string ErrorLogger.value) :
  (forall out,
      ErrorLogger.sanitizeUrl (Some query) = Js.Ok out ->
      (forall url, out !! "url" = Some (ErrorLogger.Str url) ->
                   (String.length url <= 214)%nat) /\
      (forall k, k <> "url" ->
         out !! k
         = if bool_decide (k ∈ ErrorLogger.sensitiveParams)
              && ErrorLogger.truthy_value (query !! k)
           then Some (ErrorLogger.Str "[REDACTED]") else query !! k)) /\
  ((exists error, ErrorLogger.sanitizeUrl (Some query) = Js.Throw error) <->
   exists urls, query !! "url" = Some (ErrorLogger.Arr urls) /\
                (200 < List.length urls)%nat).
Proof.
  unfold ErrorLogger.sanitizeUrl.
  set (sanitized := fold_left ErrorLogger.redact ErrorLogger.sensitiveParams query).
  assert (Hurl : sanitized !! "url" = query !! "url").
  { unfold sanitized. rewrite redact_fold. rewrite bool_decide_false; [done|].
    unfold ErrorLogger.sensitiveParams. set_unfold. naive_solver. }
  assert (Hother : forall k,
             sanitized !! k
             = if bool_decide (k ∈ ErrorLogger.sensitiveParams)
                  && ErrorLogger.truthy_value (query !! k)
               then Some (ErrorLogger.Str "[REDACTED]") else query !! k).
  { intros k. unfold sanitized. apply redact_fold. }
  rewrite Hurl. clearbody sanitized.
  destruct (query !! "url") as [[url|urls]|] eqn:Hq.
  - split.
    + intros out Hout.
      destruct (negb (String.eqb url "")) eqn:Hne; cbn [andb] in Hout.
      * destruct (Z.ltb_spec 200 (Z.of_nat (String.length url))) as [Hlong|Hshort];
          injection Hout as <-.
        -- split.
           ++ intros url'. rewrite lookup_insert_eq. intros [= <-].
              unfold ErrorLogger.substring0.
              rewrite string_length_app, substring0_length. cbn. lia.
           ++ intros k Hk. by rewrite lookup_insert_ne.
        -- split; [|by intros k _].
           intros url'. rewrite Hurl. intros [= <-]. lia.
      * injection Hout as <-. split; [|by intros k _].
        intros url'. rewrite Hurl. intros [= <-].
        apply negb_false_iff, String.eqb_eq in Hne. subst url. cbn. lia.
    + split.
      * intros [error H]. by destruct (_ && _).
      * by intros (urls & ? & _).
  - split.
    + intros out Hout.
      destruct (Z.ltb_spec 200 (Z.of_nat (List.length urls))); [done|].
      injection Hout as <-. split; [|by intros k _].
      intros url'. by rewrite Hurl.
    + split.
      * intros [error H]. exists urls. split; [done|].
        destruct (Z.ltb_spec 200 (Z.of_nat (List.length urls))); [lia|done].
      * intros (urls' & [= <-] & Hlen).
        destruct (Z.ltb_spec 200 (Z.of_nat (List.length urls))); [by eexists|lia].
  - split.
    + intros out [= <-]. split; [|by intros k _].
      intros url'. by rewrite Hurl.
    + split; [by intros [? ?]|by intros (? & ? & _)].
Qed.

(** ** The URL checks of the handler class and of the input form *)

Lemma prefix_of_lower (pre l : Js.chars) :
  Js.prefix_of pre l = true ->
  Js.prefix_of (map Js.lower pre) (map Js.lower l) = true.
Proof.
  revert l. induction pre as [|a pre IH]; intros l H; [done|].
  destruct l as [|b l]; [done|]. cbn in *.
  apply andb_true_iff in H as [Hab Hl]. apply Ascii.eqb_eq in Hab as ->.
  unfold Js.is_char. rewrite Ascii.eqb_refl. by apply IH.
Qed.

Lemma startsWith_lower (s pre : string) :
  Js.startsWith s pre = true -> Js.toLowerCase pre = pre ->
  Js.startsWith (Js.toLowerCase s) pre = true.
Proof.
  intros H Hpre. rewrite <- Hpre. unfold Js.startsWith, Js.toLowerCase in *.
  unfold Js.to_chars, Js.of_chars in *.
  rewrite !list_ascii_of_string_of_list_ascii. by apply prefix_of_lower.
Qed.

Lemma blocked_host_lower (h : string) (l : list string) :
  existsb (String.eqb h) Proxy.blockedHosts = true ->
  (forall b, In b Proxy.blockedHosts -> In b l) ->
  existsb (String.eqb (Js.toLowerCase h)) l = true.
Proof.
  intros H Hl. apply existsb_exists in H as (b & Hb & Heq).
  apply String.eqb_eq in Heq. subst h.
  apply existsb_exists. exists b. split; [by apply Hl|].
  cbn in Hb. repeat destruct Hb as [<- | Hb]; try done.
Qed.

Lemma private_range_lower (h : string) :
  Proxy.privateIPRegex h = true ->
  Js.startsWith (Js.toLowerCase h) "10." = true \/
  existsb (fun n => Js.startsWith (Js.toLowerCase h) ("172." ++ n ++ "."))
    ["16"; "17"; "18"; "19"; "20"; "21"; "22"; "23"; "24"; "25"; "26";
     "27"; "28"; "29"; "30"; "31"] = true \/
  Js.startsWith (Js.toLowerCase h) "192.168." = true.
Proof.
  unfold Proxy.privateIPRegex. intros H.
  apply orb_true_iff in H as [H|H]; [apply orb_true_iff in H as [H|H]|].
  - left. by apply startsWith_lower.
  - right. left. apply existsb_exists in H as (n & Hn & Hs).
    apply existsb_exists. exists n. split; [done|].
    apply startsWith_lower; [done|].
    cbn in Hn. repeat destruct Hn as [<- | Hn]; try done.
  - right. right. by apply startsWith_lower.
Qed.

(** X27. The URL check of the handler class is at least as strict as the
    checks of the route handler: a URL it accepts parses, has the scheme
    http or https, and passes the handler's checks on the target.  (The
    handler itself is not that strict: it does not look at the scheme.) *)
Theorem proxyHandler_validateUrl_implies_handler_checks
    (BLOCKED_DOMAINS : option string) (url : string) (req : Proxy.request) :
  ProxyHandler.validateUrl BLOCKED_DOMAINS url = ProxyHandler.Valid ->
  Proxy.query_url req = Some url ->
  exists parsedUrl,
    Url.parse url = Some parsedUrl /\
    (Url.protocol parsedUrl = "http:" \/ Url.protocol parsedUrl = "https:") /\
    Proxy.validate_target req = inr (url, parsedUrl).
Proof.
  unfold ProxyHandler.validateUrl. intros Hv Hq.
  destruct (Url.parse url) as [p|] eqn:Hp; [|done]. exists p. split; [done|].
  destruct (existsb (String.eqb (Url.protocol p)) ["http:"; "https:"]) eqn:Hproto;
    [|done].
  cbn [negb] in Hv. cbv zeta in Hv.
  destruct (existsb _ ProxyHandler.localhostPatterns) eqn:Hlocal; [done|].
  destruct (existsb _ ProxyHandler.privateIpRanges) eqn:Hpriv; [done|].
  split.
  - apply existsb_exists in Hproto as (x & Hx & Heq).
    apply String.eqb_eq in Heq. rewrite Heq.
    cbn in Hx. destruct Hx as [<- | [<- | []]]; [by left|by right].
  - rewrite (validate_target_parsed req url p Hq Hp).
    destruct (existsb _ Proxy.blockedHosts) eqn:Hb.
    { rewrite (blocked_host_lower _ ProxyHandler.localhostPatterns Hb) in Hlocal;
        [done|]. by intros b Hin. }
    destruct (Proxy.privateIPRegex _) eqn:Hr; [|done].
    apply private_range_lower in Hr.
    assert (existsb (fun pattern => pattern (Js.toLowerCase (Url.hostname p)))
              ProxyHandler.privateIpRanges = true) as Hex; [|congruence].
    apply existsb_exists. unfold ProxyHandler.privateIpRanges.
    destruct Hr as [Hr|[Hr|Hr]]; eexists.
    + split; [left; reflexivity|exact Hr].
    + split; [right; left; reflexivity|exact Hr].
    + split; [right; right; left; reflexivity|exact Hr].
Qed.

(** X27, at a public site. *)
Lemma proxyHandler_validateUrl_implies_handler_checks_witness :
  exists parsedUrl,
    Url.parse "https://example.com/docs" = Some parsedUrl /\
    Proxy.validate_target (Inline.get "https://example.com/docs" None)
    = inr ("https://example.com/docs", parsedUrl).
Proof.
  destruct (proxyHandler_validateUrl_implies_handler_checks None
              "https://example.com/docs" (Inline.get "https://example.com/docs" None))
    as (p & Hp & _ & Hv).
  - vm_compute. reflexivity.
  - reflexivity.
  - by exists p.
Defined.

Lemma includes_empty (s : string) : Js.includes s "" = true.
Proof. unfold Js.includes. by destruct (Js.to_chars s). Qed.

(** X28. An empty entry in BLOCKED_DOMAINS blocks every URL: the variable
    set to the empty text, or a list with a comma at its end, makes
    the check of the handler class refuse whatever it is given, since
    every host name contains the empty text. *)
Theorem proxyHandler_empty_blocked_domain_blocks_all
    (BLOCKED_DOMAINS url : string) :
  "" ∈ ProxyHandler.blockedDomains (Some BLOCKED_DOMAINS) ->
  ProxyHandler.validateUrl (Some BLOCKED_DOMAINS) url <> ProxyHandler.Valid.
Proof.
  intros Hin. unfold ProxyHandler.validateUrl.
  destruct (Url.parse url) as [p|]; [|done].
  destruct (negb _); [done|]. cbv zeta.
  destruct (existsb _ ProxyHandler.localhostPatterns); [done|].
  destruct (existsb _ ProxyHandler.privateIpRanges); [done|].
  assert (existsb (fun domain => Js.includes (Js.toLowerCase (Url.hostname p)) domain)
            (ProxyHandler.blockedDomains (Some BLOCKED_DOMAINS)) = true) as ->; [|done].
  apply existsb_exists. exists "". split; [by apply list_elem_of_In|].
  apply includes_empty.
Qed.

(** X28, at a list that ends with a comma. *)
Lemma proxyHandler_empty_blocked_domain_blocks_all_witness :
  ProxyHandler.validateUrl (Some "ads.example,") "https://example.com/"
  = ProxyHandler.Invalid "This domain has been blocked".
Proof.
  pose proof (proxyHandler_empty_blocked_domain_blocks_all "ads.example,"
                "https://example.com/") as H.
  destruct (ProxyHandler.validateUrl (Some "ads.example,") "https://example.com/")
    as [|error] eqn:E.
  - exfalso. apply H; [|done]. vm_compute. set_solver.
  - vm_compute in E. by injection E as <-.
Defined.

(** X29. What the input form accepts has passed every check: the trimmed
    text is at most 2048 characters long, begins with http:// or https://
    in small letters, is a URL for the validator package and for the URL
    parser, carries none of the suspicious patterns in any case, has no
    blocked port, and passes the target checks of the route handler. *)
Theorem form_validateUrl_accepts_only_checked_urls
    (isURL : string -> bool) (url : string) :
  UrlValidator.isValid (UrlValidator.validateUrl isURL (Some url)) = true ->
  let trimmed := Js.of_chars (HtmlModifier.trim (Js.to_chars url)) in
  UrlValidator.validateUrl isURL (Some url)
  = {| UrlValidator.isValid := true; UrlValidator.error := None |} /\
  (String.length trimmed <= 2048)%nat /\
  (Js.startsWith trimmed "http://" = true \/ Js.startsWith trimmed "https://" = true) /\
  isURL trimmed = true /\
  (forall pattern, In pattern UrlValidator.suspiciousPatterns ->
                   Js.includes (Js.toLowerCase trimmed) pattern = false) /\
  exists parsedUrl,
    Url.parse trimmed = Some parsedUrl /\
    (forall portNum, UrlValidator.parseInt (Url.port parsedUrl) = Some portNum ->
                     Url.port parsedUrl <> "" ->
                     1 <= portNum <= 65535 /\ ~ In portNum UrlValidator.blockedPorts) /\
    (forall req, Proxy.query_url req = Some trimmed ->
                 Proxy.validate_target req = inr (trimmed, parsedUrl)).
Proof.
  intros Hv trimmed. unfold UrlValidator.validateUrl in *. fold trimmed in Hv |- *.
  cbv zeta in *.
  destruct (String.eqb url ""); [done|].
  destruct (String.eqb trimmed ""); [done|].
  destruct (Z.ltb_spec 2048 (Z.of_nat (String.length trimmed))) as [|Hlen]; [done|].
  destruct (negb (Js.startsWith trimmed "http://")
            && negb (Js.startsWith trimmed "https://")) eqn:Hscheme; [done|].
  destruct (isURL trimmed) eqn:Hurl; [|done]. cbn [negb] in *.
  destruct (Url.parse trimmed) as [p|] eqn:Hp; [|done].
  destruct (existsb _ UrlValidator.localPatterns) eqn:Hlocal; [done|].
  destruct (UrlValidator.isPrivateIP _) eqn:Hpriv; [done|].
  set (port_error := if String.eqb (Url.port p) "" then _ else _) in *.
  destruct port_error as [message|] eqn:Hport; [done|].
  destruct (UrlValidator.containsSuspiciousPatterns trimmed) eqn:Hsus; [done|].
  split; [done|]. split; [lia|]. split.
  { apply andb_false_iff in Hscheme as [H|H]; apply negb_false_iff in H; tauto. }
  split; [done|]. split.
  { intros pattern Hin. unfold UrlValidator.containsSuspiciousPatterns in Hsus.
    destruct (Js.includes (Js.toLowerCase trimmed) pattern) eqn:E; [|done].
    assert (existsb (fun pattern => Js.includes (Js.toLowerCase trimmed) pattern)
              UrlValidator.suspiciousPatterns = true) as Hex
      by (apply existsb_exists; by exists pattern).
    congruence. }
  exists p. split; [done|]. split.
  - intros portNum Hnum Hne. subst port_error.
    destruct (String.eqb_spec (Url.port p) ""); [done|]. rewrite Hnum in Hport.
    destruct (Z.ltb_spec portNum 1); [done|].
    destruct (Z.ltb_spec 65535 portNum); [done|]. cbn [orb] in Hport.
    destruct (existsb (Z.eqb portNum) UrlValidator.blockedPorts) eqn:Hb; [done|].
    split; [lia|]. intros Hin.
    assert (existsb (Z.eqb portNum) UrlValidator.blockedPorts = true) as Hex.
    { apply existsb_exists. exists portNum. split; [done|]. apply Z.eqb_refl. }
    congruence.
  - intros req Hq. rewrite (validate_target_parsed req trimmed p Hq Hp).
    destruct (existsb _ Proxy.blockedHosts) eqn:Hb.
    { rewrite (blocked_host_lower _ UrlValidator.localPatterns Hb) in Hlocal; [done|].
      intros b Hin. cbn in *. tauto. }
    destruct (Proxy.privateIPRegex _) eqn:Hr; [|done].
    apply private_range_lower in Hr.
    unfold UrlValidator.isPrivateIP in Hpriv.
    apply orb_false_iff in Hpriv as [Hpriv _].
    match type of Hpriv with
    | existsb ?f ?l = false => assert (existsb f l = true) as Hex; [|congruence]
    end.
    apply existsb_exists.
    destruct Hr as [Hr|[Hr|Hr]]; eexists.
    + split; [left; reflexivity|exact Hr].
    + split; [right; left; reflexivity|exact Hr].
    + split; [right; right; left; reflexivity|exact Hr].
Qed.

(** X29, at a URL typed with spaces around it. *)
Lemma form_validateUrl_accepts_only_checked_urls_witness :
  UrlValidator.validateUrl (fun _ => true) (Some "  https://example.com:8443/docs ")
  = {| UrlValidator.isValid := true; UrlValidator.error := None |} /\
  exists parsedUrl,
    Url.parse "https://example.com:8443/docs" = Some parsedUrl /\
    Proxy.validate_target (Inline.get "https://example.com:8443/docs" None)
    = inr ("https://example.com:8443/docs", parsedUrl).
Proof.
  destruct (form_validateUrl_accepts_only_checked_urls (fun _ => true)
              "  https://example.com:8443/docs ")
    as (Hv & _ & _ & _ & _ & p & Hp & _ & Hreq).
  - vm_compute. reflexivity.
  - split; [exact Hv|]. exists p. split; [exact Hp|]. by apply Hreq.
Defined.

Lemma remove_matches_In (m : Js.chars -> option nat) : forall l skip c,
  In c (UrlValidator.remove_matches m skip l) -> In c l.
Proof.
  induction l as [|a l IH]; intros skip c H; [done|].
  cbn [UrlValidator.remove_matches] in H. destruct skip as [|k].
  - destruct (m (a :: l)) as [len|].
    + right. by eapply IH.
    + destruct H as [<-|H]; [by left|right; by eapply IH].
  - right. by eapply IH.
Qed.

(** X30. [sanitizeUrlForDisplay] only removes characters, and it removes
    every angle bracket: no character of the result is < or >, and every
    character of the result is one of the text given.  It makes one pass
    for each pattern, so a result can hold again what a pass removed: the
    text javajavascript:script:alert(1) comes out as javascript:alert(1). *)
Theorem sanitizeUrlForDisplay_removes_angle_brackets (url : option string) :
  (forall c, In c (Js.to_chars (UrlValidator.sanitizeUrlForDisplay url)) ->
             c <> "<"%char /\ c <> ">"%char /\
             exists text, url = Some text /\ In c (Js.to_chars text)) /\
  UrlValidator.sanitizeUrlForDisplay (Some "javajavascript:script:alert(1)")
  = "javascript:alert(1)".
Proof.
  split; [|reflexivity].
  unfold UrlValidator.sanitizeUrlForDisplay. intros c H.
  destruct url as [text|]; [|done].
  destruct (String.eqb text ""); [done|].
  unfold Js.to_chars, Js.of_chars in H.
  rewrite list_ascii_of_string_of_list_ascii in H.
  apply remove_matches_In, remove_matches_In in H.
  apply list_elem_of_In, list_elem_of_filter in H as [Hc Hin].
  apply list_elem_of_In in Hin.
  apply Is_true_true, negb_true_iff, orb_false_iff in Hc as [H1 H2].
  unfold Js.is_char in *. apply Ascii.eqb_neq in H1, H2.
  split; [congruence|]. split; [congruence|]. by exists text.
Qed.
